(** * configurator: mapping <-> object transcoder and encrypted store

    A shallow embedding of [configurator.py].  Python objects are values of
    the inductive type [value]; a [dict] is an association list in insertion
    order; an exception is the [Raise] branch of [result].  The pathlib,
    json, pytomlpp and libnacl calls of the source are modelled at the level
    the source uses them. *)

From Stdlib Require Import List String Ascii Bool ZArith Lia.
From Stdlib Require Import Sorting.Sorted Structures.OrderedTypeEx.
Import ListNotations.
Open Scope string_scope.

Set Implicit Arguments.
Set Warnings "-register-all".

(** ** Exceptions and the error monad

    The exceptions of Python that the source meets.  [OutsideModel] is not
    one of them: it ends a run that leaves the part of Python modelled
    here (a class whose namespace has a special name [__x__], a call of
    something the model does not look into, an assignment under a special
    name: see [new_class], [new_object], [method] and [setattr]); nothing
    is stated about such a run. *)

Inductive exn : Type :=
| TypeError
| AttributeError
| RuntimeError
| ValueError
| NotImplementedError
| FileNotFoundError
| FileExistsError
| NotADirectoryError
| IsADirectoryError
| OutsideModel.

Inductive result (A : Type) : Type :=
| Ok (a : A)
| Raise (e : exn).

Arguments Ok {A} a.
Arguments Raise {A} e.

Definition bind {A B : Type} (r : result A) (k : A -> result B) : result B :=
  match r with
  | Ok a => k a
  | Raise e => Raise e
  end.

Notation "x <- r ;; k" := (bind r (fun x => k))
  (at level 61, r at next level, right associativity).

(** ** Strings

    A Python [str] is modelled by its UTF-8 bytes; the tests below only look
    for ASCII characters, so they agree with the tests on code points. *)

Module Str.

(** [needle in hay] *)
Fixpoint contains (needle hay : string) : bool :=
  match hay with
  | EmptyString => String.prefix needle EmptyString
  | String _ hay' => String.prefix needle hay || contains needle hay'
  end.

(** [s.startswith(p)] *)
Definition startswith (p s : string) : bool := String.prefix p s.

Fixpoint last_is (c : ascii) (s : string) : bool :=
  match s with
  | EmptyString => false
  | String d EmptyString => Ascii.eqb d c
  | String _ s' => last_is c s'
  end.

(** [s.split(sep)] for a one-character separator: always at least one piece. *)
Fixpoint split (sep : ascii) (s : string) : list string :=
  match s with
  | EmptyString => [EmptyString]
  | String c s' =>
      if Ascii.eqb c sep then EmptyString :: split sep s'
      else match split sep s' with
           | [] => [String c EmptyString]
           | w :: ws => String c w :: ws
           end
  end.

(** [s.lstrip(c)] *)
Fixpoint lstrip (c : ascii) (s : string) : string :=
  match s with
  | String d s' => if Ascii.eqb d c then lstrip c s' else s
  | EmptyString => EmptyString
  end.

(** [c not in s] *)
Fixpoint free_of (c : ascii) (s : string) : bool :=
  match s with
  | EmptyString => true
  | String d s' => negb (Ascii.eqb d c) && free_of c s'
  end.

Definition upper (c : ascii) : ascii :=
  let n := nat_of_ascii c in
  if (97 <=? n)%nat && (n <=? 122)%nat then ascii_of_nat (n - 32) else c.

Definition lower (c : ascii) : ascii :=
  let n := nat_of_ascii c in
  if (65 <=? n)%nat && (n <=? 90)%nat then ascii_of_nat (n + 32) else c.

Fixpoint map_chars (f : ascii -> ascii) (s : string) : string :=
  match s with
  | EmptyString => EmptyString
  | String c s' => String (f c) (map_chars f s')
  end.

(** Every character of [s] is an ASCII character. *)
Fixpoint is_ascii (s : string) : bool :=
  match s with
  | EmptyString => true
  | String c s' => (nat_of_ascii c <? 128)%nat && is_ascii s'
  end.

(** [s.capitalize()] for a string of ASCII characters. *)
Definition capitalize (s : string) : string :=
  match s with
  | EmptyString => EmptyString
  | String c s' => String (upper c) (map_chars lower s')
  end.

(** [s.endswith(c + c)] *)
Fixpoint ends_twice (c : ascii) (s : string) : bool :=
  match s with
  | String a (String b EmptyString) => Ascii.eqb a c && Ascii.eqb b c
  | String _ s' => ends_twice c s'
  | EmptyString => false
  end.

(** Position of the last [c] in [s], counted from the left ([s.rfind(c)]). *)
Fixpoint rfind (c : ascii) (s : string) : option nat :=
  match s with
  | EmptyString => None
  | String d s' =>
      match rfind c s' with
      | Some i => Some (S i)
      | None => if Ascii.eqb d c then Some 0%nat else None
      end
  end.

End Str.

(** The private-marker test of [MapEncoder.process_cls]:
    [a[0].startswith("_") and a[0].endswith("_")]. *)
Definition is_private (k : string) : bool :=
  Str.startswith "_" k && Str.last_is "_"%char k.

(** ["path" in k] *)
Definition has_path (k : string) : bool := Str.contains "path" k.

(** A special name [__x__]: Python itself reads such names on a class and
    on its instances (when the class is made, for the truth value of an
    instance, for its attributes and their listing). *)
Definition is_special (k : string) : bool :=
  Str.startswith "__" k && Str.ends_twice "_"%char k.

(** The two special names that are called when an instance is made. *)
Definition is_constructor (k : string) : bool :=
  String.eqb k "__new__" || String.eqb k "__init__".

(** ** Paths ([pathlib.PurePosixPath])

    A path is its root (empty, ["/"] or ["//"]) and its components, as
    [PurePosixPath] stores them: empty components and ["."] are dropped when
    the path is built, [".."] is kept. *)

Record ppath : Type := mkpath { root : string; parts : list string }.

Definition keep_part (x : string) : bool :=
  negb (String.eqb x EmptyString) && negb (String.eqb x ".").

(** [PurePosixPath(s)]: [splitroot] followed by the split on ["/"]. *)
Definition parse_path (s : string) : ppath :=
  let stripped := Str.lstrip "/" s in
  let n := (String.length s - String.length stripped)%nat in
  let r := if (n =? 0)%nat then EmptyString else if (n =? 2)%nat then "//" else "/" in
  mkpath r (filter keep_part (Str.split "/" stripped)).

(** [p.as_posix()] *)
Definition as_posix (p : ppath) : string :=
  match root p, parts p with
  | EmptyString, [] => "."
  | r, ps => r ++ String.concat "/" ps
  end.

(** [p.parent] *)
Definition parent (p : ppath) : ppath :=
  mkpath (root p) (removelast (parts p)).

(** [p.name] and [p.suffix] *)
Definition name (p : ppath) : string := last (parts p) EmptyString.

Definition suffix (p : ppath) : string :=
  let n := name p in
  match Str.rfind "." n with
  | Some i =>
      if (0 <? i)%nat && (i <? String.length n - 1)%nat
      then String.substring i (String.length n - i) n
      else EmptyString
  | None => EmptyString
  end.

(** The process environment the path operations read: the working directory
    and [os.path.expanduser] on a first component ["~"] or ["~user"] (it
    returns its argument when the home directory is unknown). *)
Record env : Type := mkenv { cwd : string; os_expanduser : string -> string }.

(** ** Python values *)

Inductive base : Type := BaseObject | BaseConfig.

(** The class of an object with attributes: a class made by [type(name,
    (base,), ...)], or [Config]. *)
Inductive klass : Type :=
| Dynamic (cname : string) (b : base)
| ConfigCls.

Inductive value : Type :=
| VNone
| VBool (b : bool)
| VInt (z : Z)
| VFloat (bits : Z)                       (* a binary64, by its bit pattern *)
| VStr (s : string)
| VList (l : list value)
| VDict (d : list (string * value))
| VNode (c : klass) (attrs : list (string * value))
| VPath (s : string)                      (* pathlib.Path(s): no __dict__ *)
| VRoutine (rname : string)               (* built-in function or method *)
| VOpaque (repr : string).                (* set, bytes, datetime, ...: no __dict__ *)

Definition dict : Type := list (string * value).

(** Induction over values that reaches the values inside lists, dicts and
    nodes. *)
Section value_induction.
Variable P : value -> Prop.
Hypothesis HNone : P VNone.
Hypothesis HBool : forall b, P (VBool b).
Hypothesis HInt : forall z, P (VInt z).
Hypothesis HFloat : forall z, P (VFloat z).
Hypothesis HStr : forall s, P (VStr s).
Hypothesis HList : forall l, Forall P l -> P (VList l).
Hypothesis HDict : forall d, Forall (fun kv => P (snd kv)) d -> P (VDict d).
Hypothesis HNode :
  forall c d, Forall (fun kv => P (snd kv)) d -> P (VNode c d).
Hypothesis HPath : forall s, P (VPath s).
Hypothesis HRoutine : forall n, P (VRoutine n).
Hypothesis HOpaque : forall r, P (VOpaque r).

Fixpoint value_ind' (v : value) : P v :=
  let fix on_list (l : list value) : Forall P l :=
    match l with
    | [] => Forall_nil _
    | x :: l' => Forall_cons _ (value_ind' x) (on_list l')
    end in
  let fix on_dict (d : dict) : Forall (fun kv => P (snd kv)) d :=
    match d with
    | [] => Forall_nil _
    | kv :: d' => Forall_cons kv (value_ind' (snd kv)) (on_dict d')
    end in
  match v with
  | VNone => HNone
  | VBool b => HBool b
  | VInt z => HInt z
  | VFloat z => HFloat z
  | VStr s => HStr s
  | VList l => HList (on_list l)
  | VDict d => HDict (on_dict d)
  | VNode c d => HNode c (on_dict d)
  | VPath s => HPath s
  | VRoutine n => HRoutine n
  | VOpaque r => HOpaque r
  end.
End value_induction.

(** The path object with the root and components of [p]. *)
Definition PathObj (p : ppath) : value := VPath (as_posix p).

(** Truth value of an object ([bool(v)]). *)
Definition truthy (v : value) : bool :=
  match v with
  | VNone => false
  | VBool b => b
  | VInt z => negb (z =? 0)%Z
  | VFloat bits => negb ((bits =? 0)%Z || (bits =? 2 ^ 63)%Z)
  | VStr s => negb (String.eqb s EmptyString)
  | VList l => match l with [] => false | _ => true end
  | VDict d => match d with [] => false | _ => true end
  | VNode _ _ | VPath _ | VRoutine _ | VOpaque _ => true
  end.

(** [hasattr(v, "__dict__")] *)
Definition has_dict (v : value) : bool :=
  match v with VNode _ _ => true | _ => false end.

(** [inspect.isroutine(v)] *)
Definition isroutine (v : value) : bool :=
  match v with VRoutine _ => true | _ => false end.

(** ** Dictionaries *)

Fixpoint dict_get (k : string) (d : dict) : option value :=
  match d with
  | [] => None
  | (k', v) :: d' => if String.eqb k k' then Some v else dict_get k d'
  end.

(** [d[k] = v]: an existing key keeps its place. *)
Fixpoint dict_set (k : string) (v : value) (d : dict) : dict :=
  match d with
  | [] => [(k, v)]
  | (k', v') :: d' =>
      if String.eqb k k' then (k, v) :: d' else (k', v') :: dict_set k v d'
  end.

(** [d.update(e)], also [dict(d, **e)] on a copy. *)
Definition dict_update (d e : dict) : dict :=
  fold_left (fun acc kv => dict_set (fst kv) (snd kv) acc) e d.

Definition keys (d : dict) : list string := map fst d.

(** ** Classes made by [type] and their instances

    [type(name.capitalize(), (base,), attrs)] makes a class whose namespace
    is [attrs], and calling the class makes an instance.  The model covers
    the classes whose instances are plain containers of their attributes:
    with a special name in the namespace other than [__new__] and
    [__init__] (Python reads [__slots__], [__qualname__], [__classcell__]
    when it makes the class, and [__bool__], [__len__], [__class__],
    [__dir__], [__getattribute__], ... on the instances), with a value
    that the model does not look into (it can be a descriptor), or with a
    name outside ASCII ([capitalize] is modelled on ASCII), the run is
    outside the model. *)

Definition is_opaque (v : value) : bool :=
  match v with VOpaque _ => true | _ => false end.

(** [type(name.capitalize(), bases, attrs)]: the name of the class.  A
    NUL character in the name is a [ValueError]. *)
Definition new_class (name : string) (attrs : dict) : result string :=
  if existsb (fun k => is_special k && negb (is_constructor k)) (keys attrs)
     || existsb (fun kv => is_opaque (snd kv)) attrs
     || negb (Str.is_ascii name)
  then Raise OutsideModel
  else if Str.free_of "000"%char name then Ok (Str.capitalize name)
  else Raise ValueError.

(** Calling [v] raises [TypeError]: [v] is of a type without [__call__]. *)
Definition not_callable (v : value) : bool :=
  match v with
  | VNone | VBool _ | VInt _ | VFloat _ | VStr _ | VList _ | VDict _
  | VPath _ => true
  | VNode _ attrs => negb (existsb is_special (keys attrs))
  | VRoutine _ | VOpaque _ => false
  end.

(** What making an instance calls first: [__new__], then [__init__]; the
    [__init__] of [BaseObject] calls [self.update] with no argument, and
    [BaseConfig] has none. *)
Definition called_first (b : base) (attrs : dict) : option value :=
  match dict_get "__new__" attrs with
  | Some v => Some v
  | None =>
      match dict_get "__init__" attrs with
      | Some v => Some v
      | None =>
          match b with
          | BaseObject => dict_get "update" attrs
          | BaseConfig => None
          end
      end
  end.

(** [type(name.capitalize(), (b,), attrs)()]: an entry of the namespace
    under one of those names shadows what is to be called; a value that
    cannot be called gives [TypeError], and what a callable one does is
    outside the model. *)
Definition new_object (name : string) (b : base) (attrs : dict)
  : result value :=
  cname <- new_class name attrs ;;
  match called_first b attrs with
  | Some v => if not_callable v then Raise TypeError else Raise OutsideModel
  | None => Ok (VNode (Dynamic cname b) attrs)
  end.

(** [obj.m(...)] for a method [m] of the class of [obj]: an attribute of
    the object under the name [m] comes before the method, and calling a
    value that cannot be called gives [TypeError]. *)
Definition method (attrs : dict) (m : string) : result unit :=
  match dict_get m attrs with
  | Some v => Raise (if not_callable v then TypeError else OutsideModel)
  | None => Ok tt
  end.

(** ** The file system and the store

    The file system is a tree of directories and regular files; [fsys] is
    the content of the root directory, so the root is always a directory.
    There are no symbolic links and no permissions. *)

Inductive tree : Type :=
| TFile (content : string)
| TDir (children : list (string * tree)).

Definition fsys : Type := list (string * tree).

(** What [stat] reports of an entry. *)
Inductive entry : Type :=
| Dir
| File (content : string).

Fixpoint child (c : string) (children : list (string * tree)) : option tree :=
  match children with
  | [] => None
  | (c', t) :: rest => if String.eqb c c' then Some t else child c rest
  end.

Fixpoint set_child (c : string) (t : tree) (children : list (string * tree))
  : list (string * tree) :=
  match children with
  | [] => [(c, t)]
  | (c', t') :: rest =>
      if String.eqb c c' then (c, t) :: rest else (c', t') :: set_child c t rest
  end.

Definition del_child (c : string) (children : list (string * tree))
  : list (string * tree) :=
  filter (fun ct => negb (String.eqb (fst ct) c)) children.

(** The end of a walk along the components of a path: the entry, no entry
    of that name ([ENOENT]), or a regular file where a directory has to be
    ([ENOTDIR]). *)
Inductive found : Type :=
| Entry (t : tree)
| NoEntry
| NotDir.

Fixpoint find (comps : list string) (t : tree) : found :=
  match comps with
  | [] => Entry t
  | c :: rest =>
      match t with
      | TFile _ => NotDir
      | TDir children =>
          match child c children with
          | Some t' => find rest t'
          | None => NoEntry
          end
      end
  end.

(** The tree with the entry at [comps] set to [o], or removed; only the
    directory that holds the entry changes, and only when it is there. *)
Fixpoint alter (comps : list string) (o : option tree) (t : tree) : tree :=
  match comps with
  | [] => t
  | c :: rest =>
      match t with
      | TFile _ => t
      | TDir children =>
          match rest with
          | [] =>
              TDir (match o with
                    | Some n => set_child c n children
                    | None => del_child c children
                    end)
          | _ :: _ =>
              match child c children with
              | Some t' => TDir (set_child c (alter rest o t') children)
              | None => t
              end
          end
      end
  end.

Definition root_alter (comps : list string) (o : option tree) (fs : fsys)
  : fsys :=
  match alter comps o (TDir fs) with
  | TDir fs' => fs'
  | TFile _ => fs
  end.

Definition kind (f : found) : option entry :=
  match f with
  | Entry (TDir _) => Some Dir
  | Entry (TFile c) => Some (File c)
  | _ => None
  end.

(** A regular file or an empty directory. *)
Definition leaf (t : tree) : bool :=
  match t with
  | TFile _ => true
  | TDir [] => true
  | TDir _ => false
  end.

(** The attributes of a [Config] object and the file system it works on. *)
Record world : Type := mkworld { self : dict; disk : fsys }.

(** ** A sample environment

    A user with the home directory [/home/u], working in [/work]; the
    default locations of the store are [~/.everynet/config] and
    [~/.everynet/secret.key]. *)

Definition home_env : env :=
  mkenv "/work" (fun s => if String.eqb s "~" then "/home/u" else s).

Definition sample_str (v : value) : string :=
  match v with
  | VStr s => s
  | VOpaque r => r
  | VRoutine n => n
  | _ => EmptyString
  end.

Definition sample_parse (text : string) : result value :=
  if String.eqb text "tool.paths.bin = '/usr/bin'"
  then Ok (VDict [("tool", VDict [("paths", VDict [("bin", VStr "/usr/bin")])])])
  else Raise ValueError.

(** A key file holds the key; an empty file holds none. *)
Definition sample_load_key (content : string) : result string :=
  if String.eqb content EmptyString then Raise ValueError else Ok content.

Definition sample_decrypt (key content : string) : result string := Ok content.

Definition default_store : dict :=
  [("_save_path_", VPath "/home/u/.everynet/config");
   ("_key_path_", VPath "/home/u/.everynet/secret.key")].

(** A store whose save target lies in a directory that cannot be made. *)
Definition far_store : dict :=
  [("_save_path_", VPath "/no/such/config");
   ("_key_path_", VPath "/home/u/.everynet/secret.key")].

(** The directory [/home] with the home directory [/home/u]. *)
Definition home_of (u : list (string * tree)) : string * tree :=
  ("home", TDir [("u", TDir u)]).

Definition yaml_disk : fsys :=
  [home_of []; ("work", TDir [("cfg.yaml", TFile "build: Debug")])].

Definition toml_disk : fsys :=
  [home_of [(".everynet", TDir [])];
   ("work", TDir [("cfg.toml", TFile "tool.paths.bin = '/usr/bin'")])].

Definition keyed_disk (key : string) : fsys :=
  [home_of [(".everynet", TDir [("secret.key", TFile key)])]].

(** A parser for two small JSON documents. *)
Definition sample_json (text : string) : result value :=
  if String.eqb text "{}" then Ok (VDict [])
  else if String.eqb text "[1]" then Ok (VList [VInt 1])
  else Raise ValueError.

(** A box whose encryption is the identity, a key and its file. *)
Definition sample_encrypt (key data : string) : string := data.

Definition sample_key : string := "3f9a".

Definition sample_key_file (key : string) : string := key.

Definition sample_text (v : value) : string :=
  match v with VDict [] => "{}" | _ => "{...}" end.

Definition home_disk : fsys := [home_of [(".everynet", TDir [])]].

Definition json_disk : fsys :=
  [home_of [(".everynet", TDir [])];
   ("work", TDir [("empty.json", TFile "{}"); ("list.json", TFile "[1]")])].

Definition project_mapping : dict :=
  [("project", VDict [("name", VStr "X"); ("path", VStr "~/p")]);
   ("build", VDict [("type", VStr "Debug")])].

Definition project_resolved : dict :=
  [("project", VDict [("name", VStr "X"); ("path", VStr "/home/u/p")]);
   ("build", VDict [("type", VStr "Debug")])].

(** A parser for the TOML text of [project_mapping], and a disk with it. *)
Definition project_text : string :=
  "[project] name = 'X' path = '~/p' [build] type = 'Debug'".

Definition project_parse (text : string) : result value :=
  if String.eqb text project_text then Ok (VDict project_mapping)
  else Raise ValueError.

Definition project_disk : fsys :=
  [home_of [(".everynet", TDir [])];
   ("work", TDir [("project.toml", TFile project_text)])].

(** A saved document, its parser, and a disk with the key and the
    document (the sample box leaves the text as it is). *)
Definition stored_text : string :=
  "{build: Debug, project: {path: ~/p}, save_path: ~/elsewhere/config}".

Definition stored_mapping : dict :=
  [("build", VStr "Debug");
   ("project", VDict [("path", VStr "~/p")]);
   ("save_path", VStr "~/elsewhere/config")].

Definition stored_parse (text : string) : result value :=
  if String.eqb text stored_text then Ok (VDict stored_mapping)
  else Raise ValueError.

Definition stored_disk : fsys :=
  [home_of [(".everynet", TDir [("secret.key", TFile "3f9a");
                                ("config", TFile stored_text)])]].

(** ** The model

    The section variables are what the source takes from its surroundings:
    the process environment, the interpreter's [str], the text parsers and
    the key and decryption functions of libnacl. *)

Section Configurator.

Variable E : env.
Variable py_str : value -> string.
Variable json_parse : string -> result value.
Variable toml_parse : string -> result value.
Variable load_key : string -> result string.
Variable box_decrypt : string -> string -> result string.

(** *** pathlib *)

(** [Path(val)]: a [str] or a path-like object, else [TypeError]. *)
Definition Path (v : value) : result ppath :=
  match v with
  | VStr s => Ok (parse_path s)
  | VPath s => Ok (parse_path s)
  | _ => Raise TypeError
  end.

(** [p.expanduser()] *)
Definition expanduser (p : ppath) : result ppath :=
  match root p, parts p with
  | EmptyString, first :: rest =>
      if Str.startswith "~" first then
        let homedir := os_expanduser E first in
        if Str.startswith "~" homedir then Raise RuntimeError
        else let h := parse_path homedir in
             Ok (mkpath (root h) (parts h ++ rest)%list)
      else Ok p
  | _, _ => Ok p
  end.

(** One component of [os.path.realpath] on a stack of components (innermost
    first): [".."] leaves the last directory and stays at the root. *)
Definition walk (stack : list string) (c : string) : list string :=
  if String.eqb c ".." then tl stack else c :: stack.

(** [p.resolve()] in a file system without symbolic links: the path is made
    absolute from the working directory and [".."] is resolved; the result
    has the root ["/"]. *)
Definition resolve (p : ppath) : ppath :=
  let comps :=
    match root p with
    | EmptyString => (parts (parse_path (cwd E)) ++ parts p)%list
    | _ => parts p
    end in
  mkpath "/" (rev (fold_left walk comps [])).

(** [Path(val).expanduser().resolve()] *)
Definition resolved (v : value) : result ppath :=
  p <- Path v ;;
  q <- expanduser p ;;
  Ok (resolve q).

(** [Path(val).expanduser().resolve().as_posix()] *)
Definition normalize (v : value) : result value :=
  p <- resolved v ;;
  Ok (VStr (as_posix p)).

(** *** BaseObject *)

(** The loop of [BaseObject.update]: every value under a key containing
    ["path"] is normalized, then the attribute is set (on the class). *)
Fixpoint BaseObject_update_loop (data : dict) (attrs : dict)
  : dict * result unit :=
  match data with
  | [] => (attrs, Ok tt)
  | (k, v) :: rest =>
      match (if has_path k then normalize v else Ok v) with
      | Ok v' => BaseObject_update_loop rest (dict_set k v' attrs)
      | Raise e => (attrs, Raise e)
      end
  end.

(** [BaseObject.update(__d, **kwargs)] on the attributes [attrs] of the
    class.  With both arguments non-empty, [data] is the result of
    [dict.update], which is [None], and [data.items()] raises. *)
Definition BaseObject_update (attrs : dict) (__d kwargs : dict)
  : dict * result unit :=
  let data : option dict :=
    if truthy (VDict __d) && truthy (VDict kwargs) then None
    else Some (if truthy (VDict __d) then __d else kwargs) in
  match data with
  | None => (attrs, Raise AttributeError)
  | Some data => BaseObject_update_loop data attrs
  end.

(** *** MapDecoder *)

Section MapDecoder.

Variable bases : base.
Variable processor : string -> value -> result value.

(** The body of the loop of [pack_dict] for one entry: a dict value is
    packed first, then [self.processor(k, v) or v]. *)
Fixpoint pack_item (k : string) (v : value) {struct v} : result value :=
  v1 <- match v with
        | VDict d =>
            attrs <- (fix items (d : dict) (attrs : dict) {struct d}
                        : result dict :=
                        match d with
                        | [] => Ok attrs
                        | (k', v') :: d' =>
                            vv <- pack_item k' v' ;;
                            items d' (dict_set k' vv attrs)
                        end) d [] ;;
            new_object k bases attrs
        | _ => Ok v
        end ;;
  r <- processor k v1 ;;
  Ok (if truthy r then r else v1).

Fixpoint pack_items (d : dict) (attrs : dict) : result dict :=
  match d with
  | [] => Ok attrs
  | (k, v) :: d' =>
      vv <- pack_item k v ;;
      pack_items d' (dict_set k vv attrs)
  end.

(** [pack_dict(__d, parent)] *)
Definition pack_dict (__d : dict) (parent : string) : result value :=
  attrs <- pack_items __d [] ;;
  new_object parent bases attrs.

Fixpoint object_hook_items (dct : dict) (rv : dict) : result dict :=
  match dct with
  | [] => Ok rv
  | (k, v) :: dct' =>
      v1 <- match v with
            | VDict d => pack_dict d k
            | _ => Ok v
            end ;;
      object_hook_items dct' (dict_set k v1 rv)
  end.

(** [_object_hook(dct)] *)
Definition _object_hook (dct : dict) : result value :=
  rv <- object_hook_items dct [] ;;
  Ok (VDict rv).

(** [json.loads(text, cls=...)] after the text is parsed: the decoder calls
    the object hook on every JSON object, innermost first, also on the
    objects inside arrays. *)
Fixpoint loads_hook (v : value) {struct v} : result value :=
  match v with
  | VDict d =>
      d' <- (fix members (d : dict) {struct d} : result dict :=
               match d with
               | [] => Ok []
               | (k, x) :: d0 =>
                   x' <- loads_hook x ;;
                   r <- members d0 ;;
                   Ok ((k, x') :: r)
               end) d ;;
      _object_hook d'
  | VList l =>
      l' <- (fix elements (l : list value) {struct l} : result (list value) :=
               match l with
               | [] => Ok []
               | x :: l0 =>
                   x' <- loads_hook x ;;
                   r <- elements l0 ;;
                   Ok (x' :: r)
               end) l ;;
      Ok (VList l')
  | _ => Ok v
  end.

End MapDecoder.

(** *** Attribute access *)

(** The getter of the properties [save_path] and [key_path] of [Config]:
    [self._save_path_.as_posix()]. *)
Definition path_property (attrs : dict) (slot : string) : result value :=
  match dict_get slot attrs with
  | Some (VPath s) => Ok (VStr (as_posix (parse_path s)))
  | _ => Raise AttributeError
  end.

(** [getattr(obj, k)] for an object of class [c] with attributes [attrs]:
    the properties of [Config] come before the instance attributes. *)
Definition getattr (c : klass) (attrs : dict) (k : string) : result value :=
  let plain :=
    match dict_get k attrs with
    | Some v => Ok v
    | None => Raise AttributeError
    end in
  match c with
  | ConfigCls =>
      if String.eqb k "save_path" then path_property attrs "_save_path_"
      else if String.eqb k "key_path" then path_property attrs "_key_path_"
      else plain
  | Dynamic _ _ => plain
  end.

(** [setattr(obj, k, v)]: the setters of [Config] store the resolved path.
    Under a special name Python does not store an attribute ([__class__]
    and [__dict__] replace the class and the attributes of the object):
    this is outside the model. *)
Definition setattr (c : klass) (attrs : dict) (k : string) (v : value)
  : result dict :=
  if is_special k then Raise OutsideModel
  else
    match c with
    | ConfigCls =>
        if String.eqb k "save_path" then
          p <- resolved v ;; Ok (dict_set "_save_path_" (PathObj p) attrs)
        else if String.eqb k "key_path" then
          p <- resolved v ;; Ok (dict_set "_key_path_" (PathObj p) attrs)
        else Ok (dict_set k v attrs)
    | Dynamic _ _ => Ok (dict_set k v attrs)
    end.

(** *** MapEncoder *)

Fixpoint insert_name (k : string) (l : list string) : list string :=
  match l with
  | [] => [k]
  | h :: t => if String.leb k h then k :: l else h :: insert_name k t
  end.

Definition sort_names (l : list string) : list string :=
  fold_right insert_name [] l.

(** The names of the class that are neither routines nor of the form
    [__x__]: the two properties of [Config].  (The methods and the
    [__class__], [__dict__], [__doc__], ... members that [dir] also lists
    are dropped by the two filters of [process_cls].) *)
Definition class_names (c : klass) : list string :=
  match c with
  | ConfigCls => ["key_path"; "save_path"]
  | Dynamic _ _ => []
  end.

(** [dir(obj)]: the names, sorted, each once. *)
Definition dir (c : klass) (attrs : dict) : list string :=
  sort_names (nodup string_dec (keys attrs ++ class_names c)).

(** The list [attrs] of [process_cls]: [getmembers(obj, not isroutine)]
    without the names that start and end with ["_"].  [getmembers] skips a
    name whose [getattr] raises [AttributeError]. *)
Definition public_members (c : klass) (attrs : dict) : dict :=
  flat_map
    (fun k =>
       match getattr c attrs k with
       | Ok v => if negb (isroutine v) && negb (is_private k)
                 then [(k, v)] else []
       | Raise _ => []
       end)
    (dir c attrs).

(** [process_cls(obj)].  The attribute values are converted where they sit
    in the object and the member list is taken over the converted
    attributes; [process_cls_unfold] below shows that this is the loop of
    the source over the member list. *)
Fixpoint process_cls (obj : value) {struct obj} : value :=
  match obj with
  | VNode c attrs =>
      VDict
        (public_members c
           ((fix conv (d : dict) {struct d} : dict :=
               match d with
               | [] => []
               | (k, v) :: d' =>
                   (k, match v with
                       | VNode _ _ => process_cls v
                       | _ => v
                       end) :: conv d'
               end) attrs))
  | _ => VStr (py_str obj)
  end.

(** What [json.JSONEncoder] can write without calling [default]. *)
Fixpoint json_ok (v : value) {struct v} : bool :=
  match v with
  | VNone | VBool _ | VInt _ | VFloat _ | VStr _ => true
  | VList l => forallb json_ok l
  | VDict d =>
      (fix all (d : dict) {struct d} : bool :=
         match d with
         | [] => true
         | (_, x) :: d' => json_ok x && all d'
         end) d
  | VNode _ _ | VPath _ | VRoutine _ | VOpaque _ => false
  end.

(** [iterencode(o)]: the result of [process_cls] goes to the encoder of the
    json module, whose [default] raises [TypeError]; the value that is
    written stands for its text. *)
Definition iterencode (o : value) : result value :=
  let x := process_cls o in
  if json_ok x then Ok x else Raise TypeError.

(** [json.dumps(o)] with the plain encoder. *)
Definition dumps (o : value) : result value :=
  if json_ok o then Ok o else Raise TypeError.

(** *** ConfigDecoder *)

(** [ConfigDecoder.process(key, val)] *)
Definition process (key : string) (val : value) : result value :=
  if has_path key then normalize val else Ok val.

(** [json.loads(text, cls=ConfigDecoder)] on the parsed text. *)
Definition ConfigDecoder_loads (v : value) : result value :=
  loads_hook BaseConfig process v.

(** *** BaseConfig *)

(** [BaseConfig.convert_path(key, val)] *)
Definition convert_path (key : string) (val : value) : result value :=
  if has_path key then normalize val else Ok val.

(** The loop of [BaseConfig.path_resolve] for one entry. *)
Fixpoint path_resolve_item (k : string) (v : value) {struct v}
  : result value :=
  match v with
  | VDict d =>
      rv <- (fix items (d : dict) (rv : dict) {struct d} : result dict :=
               match d with
               | [] => Ok rv
               | (k', v') :: d' =>
                   x <- path_resolve_item k' v' ;;
                   items d' (dict_set k' x rv)
               end) d [] ;;
      Ok (VDict rv)
  | _ => convert_path k v
  end.

Fixpoint path_resolve_items (d : dict) (rv : dict) : result dict :=
  match d with
  | [] => Ok rv
  | (k, v) :: d' =>
      x <- path_resolve_item k v ;;
      path_resolve_items d' (dict_set k x rv)
  end.

(** [BaseConfig.path_resolve(_d)]; [_d.items()] needs a dict. *)
Definition path_resolve (_d : value) : result value :=
  match _d with
  | VDict d => rv <- path_resolve_items d [] ;; Ok (VDict rv)
  | _ => Raise AttributeError
  end.

Definition callback : Type := string -> value -> result value.

(** The loop of [set_attr]: [val] is computed for every entry, and what is
    set is [processor_cb(k, val) if processor_cb else v]. *)
Fixpoint set_attr_loop (c : klass) (data : dict) (processor_cb : option callback)
  (attrs : dict) : dict * result unit :=
  match data with
  | [] => (attrs, Ok tt)
  | (k, v) :: rest =>
      match
        (val <- convert_path k v ;;
         x <- match processor_cb with
              | Some cb => cb k val
              | None => Ok v
              end ;;
         setattr c attrs k x)
      with
      | Ok attrs' => set_attr_loop c rest processor_cb attrs'
      | Raise e => (attrs, Raise e)
      end
  end.

(** [self.set_attr(data, processor_cb)] on an object of class [c]. *)
Definition set_attr (c : klass) (attrs : dict) (data : value)
  (processor_cb : option callback) : dict * result unit :=
  match data with
  | VDict d => set_attr_loop c d processor_cb attrs
  | _ => (attrs, Raise AttributeError)
  end.

(** [self.update(data, processor_cb, **kwargs)] *)
Definition update (c : klass) (attrs : dict) (data : option dict)
  (processor_cb : option callback) (kwargs : dict) : dict * result unit :=
  let data :=
    match data with
    | Some d => if truthy (VDict d) then dict_update d kwargs else kwargs
    | None => kwargs
    end in
  match method attrs "set_attr" with
  | Ok _ => set_attr c attrs (VDict data) processor_cb
  | Raise e => (attrs, Raise e)
  end.

(** [self.add_cls_attr(name, attrs)] *)
Definition add_cls_attr (c : klass) (self : dict) (name : string) (attrs : dict)
  : dict * result unit :=
  match new_object name BaseConfig attrs with
  | Ok cls_attr =>
      match method self "update" with
      | Ok _ => update c self (Some [(name, cls_attr)]) None []
      | Raise e => (self, Raise e)
      end
  | Raise e => (self, Raise e)
  end.

(** *** File system calls

    The system looks a path up component by component from the root, a
    relative path from the working directory: a name leads into the
    directory reached so far and [".."] back to the directory that holds
    it, and what has been reached has to be a directory for the walk to
    go on.  (So [a/../b] is [b] only where [a] is a directory, although
    [resolve] gives [b] in every case.) *)

(** Where a walk ends: at the place of the last component, whatever is
    there, or before it, at a name that is missing ([ENOENT]) or at a
    regular file ([ENOTDIR]). *)
Inductive walked : Type :=
| At (loc : list string)
| Missing
| Blocked.

(** The walk along [comps] from the place [here], a stack of names. *)
Fixpoint namei (t : tree) (comps : list string) (here : list string)
  : walked :=
  match comps with
  | [] => At (rev here)
  | c :: rest =>
      match find (rev here) t with
      | Entry (TDir _) => namei t rest (walk here c)
      | Entry (TFile _) => Blocked
      | NoEntry => Missing
      | NotDir => Blocked
      end
  end.

(** The components of [p] from the root. *)
Definition from_root (p : ppath) : list string :=
  match root p with
  | EmptyString => (parts (parse_path (cwd E)) ++ parts p)%list
  | _ => parts p
  end.

Definition lookup (fs : fsys) (p : ppath) : found :=
  match namei (TDir fs) (from_root p) [] with
  | At loc => find loc (TDir fs)
  | Missing => NoEntry
  | Blocked => NotDir
  end.

Definition stat (fs : fsys) (p : ppath) : option entry := kind (lookup fs p).

(** [p.exists()] and [p.is_file()] *)
Definition exists_ (fs : fsys) (p : ppath) : bool :=
  match stat fs p with Some _ => true | None => false end.

Definition is_file (fs : fsys) (p : ppath) : bool :=
  match stat fs p with Some (File _) => true | _ => false end.

(** [p.mkdir(exist_ok=True)]: the directory that is to hold the new one
    has to be there. *)
Definition mkdir (fs : fsys) (p : ppath) : result fsys :=
  match namei (TDir fs) (from_root p) [] with
  | At loc =>
      match find loc (TDir fs) with
      | Entry (TDir _) => Ok fs
      | Entry (TFile _) => Raise FileExistsError
      | NoEntry => Ok (root_alter loc (Some (TDir [])) fs)
      | NotDir => Raise NotADirectoryError
      end
  | Missing => Raise FileNotFoundError
  | Blocked => Raise NotADirectoryError
  end.

(** A regular file stands on the way to [p], where a directory has to
    be. *)
Definition below_file (fs : fsys) (p : ppath) : bool :=
  match lookup fs p with NotDir => true | _ => false end.

(** [p.read_bytes()], also [open(p).read()] *)
Definition read (fs : fsys) (p : ppath) : result string :=
  match lookup fs p with
  | Entry (TFile content) => Ok content
  | Entry (TDir _) => Raise IsADirectoryError
  | NoEntry => Raise FileNotFoundError
  | NotDir => Raise NotADirectoryError
  end.

(** *** Config

    A method of [Config] runs on the attributes of the store and on the
    file system, and ends normally or with an exception. *)

Definition M (A : Type) : Type := world -> world * result A.

Definition ret {A : Type} (a : A) : M A := fun w => (w, Ok a).

Definition raise {A : Type} (e : exn) : M A := fun w => (w, Raise e).

Definition bindM {A B : Type} (m : M A) (k : A -> M B) : M B :=
  fun w =>
    match m w with
    | (w', Ok a) => k a w'
    | (w', Raise e) => (w', Raise e)
    end.

Notation "x <~ m ;; k" := (bindM m (fun x => k))
  (at level 61, m at next level, right associativity).
Notation "m ;;; k" := (bindM m (fun _ => k))
  (at level 61, right associativity).

Definition lift {A : Type} (r : result A) : M A := fun w => (w, r).

Definition get_disk : M fsys := fun w => (w, Ok (disk w)).

(** [self.<k>] *)
Definition self_getattr (k : string) : M value :=
  fun w => (w, getattr ConfigCls (self w) k).

(** [self.<k> = v] *)
Definition self_setattr (k : string) (v : value) : M unit :=
  fun w =>
    match setattr ConfigCls (self w) k v with
    | Ok attrs => (mkworld attrs (disk w), Ok tt)
    | Raise e => (w, Raise e)
    end.

(** A method of [pathlib.Path] is called on the object: anything else has
    no such method. *)
Definition as_path (v : value) : M ppath :=
  match v with
  | VPath s => ret (parse_path s)
  | _ => raise AttributeError
  end.

Definition self_mkdir (p : ppath) : M unit :=
  fun w =>
    match mkdir (disk w) p with
    | Ok fs => (mkworld (self w) fs, Ok tt)
    | Raise e => (w, Raise e)
    end.

(** [self.m(...)] is about to be called. *)
Definition self_method (m : string) : M unit :=
  fun w => (w, method (self w) m).

Definition self_set_attr (data : value) : M unit :=
  fun w =>
    let '(attrs, r) := set_attr ConfigCls (self w) data None in
    (mkworld attrs (disk w), r).

(** [Config.load(load_path)] *)
Definition load (load_path : value) : M unit :=
  sp <~ self_getattr "_save_path_" ;;
  sp <~ as_path sp ;;
  self_mkdir (parent sp) ;;;
  p <~ lift (Path load_path) ;;
  fs <~ get_disk ;;
  if exists_ fs p && is_file fs p then
    data <~ (if String.eqb (suffix p) ".json" then
               lift (text <- read fs p ;; json_parse text)
             else if String.eqb (suffix p) ".toml" then
               lift (text <- read fs p ;; toml_parse text)
             else raise NotImplementedError) ;;
    raw_dict <~ lift (path_resolve data) ;;
    if truthy raw_dict then
      conv <~ lift (s <- dumps raw_dict ;; ConfigDecoder_loads s) ;;
      self_setattr "_converted_" conv ;;;
      c <~ self_getattr "_converted_" ;;
      self_method "set_attr" ;;;
      self_set_attr c
    else ret tt
  else raise FileNotFoundError.

(** [Config._decrypt(path)]; the key file is read before the save target. *)
Definition _decrypt (path : value) : M string :=
  kp <~ self_getattr "_key_path_" ;;
  kp <~ lift (Path kp) ;;
  fs <~ get_disk ;;
  key <~ lift (t <- read fs kp ;; load_key t) ;;
  sp <~ self_getattr "_save_path_" ;;
  sp <~ as_path sp ;;
  content <~ lift (read fs sp) ;;
  lift (box_decrypt key content).

(** [Config.restore()] *)
Definition restore : M unit :=
  kp <~ self_getattr "_key_path_" ;;
  if truthy kp then
    kpath <~ as_path kp ;;
    fs <~ get_disk ;;
    if exists_ fs kpath && is_file fs kpath then
      sp <~ self_getattr "_save_path_" ;;
      self_method "_decrypt" ;;;
      decrypted <~ _decrypt sp ;;
      conv <~ lift (v <- json_parse decrypted ;; ConfigDecoder_loads v) ;;
      self_setattr "_converted_" conv ;;;
      c <~ self_getattr "_converted_" ;;
      self_method "set_attr" ;;;
      self_set_attr c
    else ret tt
  else ret tt.

(** [Config.__init__(load_path, save_path, key_path, restore)] on a new
    object. *)
Definition Config_init (load_path : value) (save_path key_path : value)
  (restore_ : bool) : M unit :=
  s <~ lift (resolved save_path) ;;
  self_setattr "_save_path_" (PathObj s) ;;;
  k <~ lift (resolved key_path) ;;
  self_setattr "_key_path_" (PathObj k) ;;;
  if truthy load_path && restore_ then raise ValueError
  else
    (if truthy load_path then self_method "load" ;;; load load_path
     else ret tt) ;;;
    (if restore_ then self_method "restore" ;;; restore else ret tt).

(** The extensions [load] has a parser for. *)
Definition supported (p : ppath) : bool :=
  String.eqb (suffix p) ".json" || String.eqb (suffix p) ".toml".

(** [hasattr(v, "__dict__")] decides what the loop of [process_cls] stores. *)
Definition encode_value (v : value) : value :=
  if has_dict v then process_cls v else v.

Definition map_values (f : value -> value) (d : dict) : dict :=
  map (fun kv => (fst kv, f (snd kv))) d.

(** The entry of the encoded mapping under [k], if there is one. *)
Definition encoded_get (k : string) (obj : value) : option value :=
  match process_cls obj with
  | VDict m => dict_get k m
  | _ => None
  end.

(** What one name contributes to the member list. *)
Definition member_of (c : klass) (attrs : dict) (k : string) : option value :=
  match getattr c attrs k with
  | Ok v => if negb (isroutine v) && negb (is_private k) then Some v else None
  | Raise _ => None
  end.

(** The defaults of [MapDecoder.__init__]: [bases=(BaseObject,)] and
    [processor=(lambda k, v: v)]. *)
Definition default_bases : base := BaseObject.

Definition default_processor (k : string) (v : value) : result value := Ok v.


(** A component of a resolved path: not empty, not ["."], not [".."], and
    without a separator. *)
Definition clean (c : string) : bool :=
  keep_part c && Str.free_of "/" c && negb (String.eqb c "..").

(** A component as [PurePosixPath] stores it. *)
Definition stored (c : string) : bool := keep_part c && Str.free_of "/" c.

(** The tree a mapping decodes to: every mapping value is a node named
    after its key, anything else stays. *)
Fixpoint to_node (b : base) (k : string) (v : value) {struct v} : value :=
  match v with
  | VDict d =>
      VNode (Dynamic (Str.capitalize k) b)
        ((fix each (d : dict) {struct d} : dict :=
            match d with
            | [] => []
            | (k', v') :: d' => (k', to_node b k' v') :: each d'
            end) d)
  | _ => v
  end.

(** The keys of every mapping are distinct, as in a Python [dict]. *)
Fixpoint distinct_keys (v : value) {struct v} : Prop :=
  match v with
  | VDict d =>
      NoDup (keys d) /\
      (fix each (d : dict) {struct d} : Prop :=
         match d with
         | [] => True
         | (_, v') :: d' => distinct_keys v' /\ each d'
         end) d
  | _ => True
  end.

(** [e] has the attributes of the mapping [m], attribute for attribute,
    the names that start and end with ["_"] left aside. *)
Fixpoint same_attrs (m e : value) {struct m} : Prop :=
  match m with
  | VDict d =>
      exists ed,
        e = VDict ed /\
        (forall k, is_private k = true -> dict_get k ed = None) /\
        (forall k, dict_get k d = None -> dict_get k ed = None) /\
        (fix each (d : dict) {struct d} : Prop :=
           match d with
           | [] => True
           | (k, v) :: d' =>
               (is_private k = false ->
                exists ev, dict_get k ed = Some ev /\ same_attrs v ev)
               /\ each d'
           end) d
  | _ => e = m
  end.

(** No mapping sits under a key that contains ["path"], at any depth. *)
Fixpoint no_mapping_under_path (v : value) {struct v} : bool :=
  match v with
  | VDict d =>
      (fix each (d : dict) {struct d} : bool :=
         match d with
         | [] => true
         | (k, x) :: d' =>
             match x with VDict _ => negb (has_path k) | _ => true end
             && no_mapping_under_path x && each d'
         end) d
  | _ => true
  end.

Definition entry_ok (k : string) (x : value) : bool :=
  match x with VDict _ => negb (has_path k) | _ => true end
  && no_mapping_under_path x.

(** *** The mappings the decoders make plain objects of

    A name that [type] takes for a class: ASCII characters and no NUL. *)
Definition class_name_ok (k : string) : bool :=
  Str.is_ascii k && Str.free_of "000"%char k.

(** A name that the namespace of a class with the base [b] can hold while
    its instances stay plain containers: not a special name and, under
    [BaseObject], not ["update"], which its [__init__] calls. *)
Definition plain_key (b : base) (k : string) : bool :=
  negb (is_special k)
  && match b with
     | BaseObject => negb (String.eqb k "update")
     | BaseConfig => true
     end.

(** The value [x] can stand under the key [k]: a mapping becomes a class
    named after [k], and the model does not look into an opaque value. *)
Definition nameable (k : string) (x : value) : bool :=
  match x with
  | VDict _ => class_name_ok k
  | VOpaque _ => false
  | _ => true
  end.

(** Every mapping in [v], at any depth outside the sequences, has plain keys
    only, and its values can stand under their keys. *)
Fixpoint constructible (b : base) (v : value) {struct v} : bool :=
  match v with
  | VDict d =>
      (fix each (d : dict) {struct d} : bool :=
         match d with
         | [] => true
         | (k, x) :: d' =>
             plain_key b k && nameable k x && constructible b x && each d'
         end) d
  | _ => true
  end.

(** The namespace [attrs] has plain keys and no opaque value. *)
Definition plain_attrs (b : base) (attrs : dict) : bool :=
  forallb (fun kv => plain_key b (fst kv) && negb (is_opaque (snd kv))) attrs.

(** *** MapDecoder.list_generator

    A row is the list [pre + [key, ..., value]]; a key stands in it as the
    string it is. *)

(** [list_generator(indict, pre)], the rows in the order they are yielded. *)
Fixpoint list_generator (indict : value) (pre : list value) {struct indict}
  : list (list value) :=
  match indict with
  | VDict d =>
      (fix items (d : dict) {struct d} : list (list value) :=
         match d with
         | [] => []
         | (key, val) :: d' =>
             (match val with
              | VDict _ => list_generator val (pre ++ [VStr key])
              | VList l =>
                  (fix elements (l : list value) {struct l}
                     : list (list value) :=
                     match l with
                     | [] => []
                     | v :: l' =>
                         list_generator v (pre ++ [VStr key]) ++ elements l'
                     end) l
              | _ => [pre ++ [VStr key; val]]
              end ++ items d')%list
         end) d
  | _ => [(pre ++ [indict])%list]
  end.

(** The rows one entry of a mapping contributes. *)
Definition entry_rows (pre : list value) (kv : string * value)
  : list (list value) :=
  match snd kv with
  | VDict _ => list_generator (snd kv) (pre ++ [VStr (fst kv)])
  | VList l =>
      flat_map (fun v => list_generator v (pre ++ [VStr (fst kv)])) l
  | _ => [(pre ++ [VStr (fst kv); snd kv])%list]
  end.

(** [reaches v path leaf]: the keys [path] lead from [v] to [leaf], a
    value that is not a mapping.  A key of a mapping leads into the
    mapping under it, into each element of the sequence under it, or to
    the value under it; an element of a sequence that is not a mapping is
    a leaf, also when it is a sequence. *)
Inductive reaches : value -> list string -> value -> Prop :=
| reaches_leaf :
    forall v, (forall d, v <> VDict d) -> reaches v [] v
| reaches_mapping :
    forall d k d' path leaf,
      In (k, VDict d') d -> reaches (VDict d') path leaf ->
      reaches (VDict d) (k :: path) leaf
| reaches_sequence :
    forall d k l y path leaf,
      In (k, VList l) d -> In y l -> reaches y path leaf ->
      reaches (VDict d) (k :: path) leaf
| reaches_value :
    forall d k x,
      In (k, x) d -> (forall d', x <> VDict d') -> (forall l, x <> VList l) ->
      reaches (VDict d) [k] x.

(** *** MapDecoder.walk_map and type_generator *)

(** A class made by [type(name, bases, namespace)]. *)
Record pyclass : Type :=
  mkclass { cls_name : string; cls_base : base; cls_dict : dict }.

(** [walk_map(__d, output, parent)] for the mapping [v]; the result is
    [output] after the call.  The loop rebinds its variable [v] only, so
    the namespace of the new type is the mapping as it came.  The type is
    made by [type], and no instance of it is. *)
Fixpoint walk_map (bases : base) (v : value) (output : list pyclass)
  (parent : string) {struct v} : result (list pyclass) :=
  match v with
  | VDict d =>
      out <- (fix items (d : dict) (out : list pyclass) {struct d}
                : result (list pyclass) :=
                match d with
                | [] => Ok out
                | (k, x) :: d' =>
                    out' <- match x with
                            | VDict _ => walk_map bases x out k
                            | _ => Ok out
                            end ;;
                    items d' out'
                end) d output ;;
      cname <- new_class parent d ;;
      Ok (out ++ [mkclass cname bases d])%list
  | _ => Ok output
  end.

(** [type_generator(__d)], the types in the order they are yielded: the
    list is filled before the first of them is. *)
Definition type_generator (bases : base) (__d : dict)
  : result (list pyclass) :=
  walk_map bases (VDict __d) [] "Root".

(** *** Writing and deleting files; save, _encrypt and prune

    What [save] takes from its surroundings: the text [json.dumps] writes
    for a JSON value, the encryption of the secret box, the key a new box
    draws, and the text [box.save] writes for a key. *)

Variable json_text : value -> string.
Variable box_encrypt : string -> string -> string.
Variable new_key : string.
Variable key_file : string -> string.

(** [p.write_bytes(content)], also [open(p, "w+").write(content)]: the
    directory of the file has to be there. *)
Definition write (fs : fsys) (p : ppath) (content : string) : result fsys :=
  match namei (TDir fs) (from_root p) [] with
  | At loc =>
      match find loc (TDir fs) with
      | Entry (TDir _) => Raise IsADirectoryError
      | Entry (TFile _) | NoEntry =>
          Ok (root_alter loc (Some (TFile content)) fs)
      | NotDir => Raise NotADirectoryError
      end
  | Missing => Raise FileNotFoundError
  | Blocked => Raise NotADirectoryError
  end.

(** [p.unlink(missing_ok=True)]: only [FileNotFoundError] is passed over
    (on Linux a directory gives [IsADirectoryError]). *)
Definition unlink (fs : fsys) (p : ppath) : result fsys :=
  match namei (TDir fs) (from_root p) [] with
  | At loc =>
      match find loc (TDir fs) with
      | NoEntry => Ok fs
      | Entry (TFile _) => Ok (root_alter loc None fs)
      | Entry (TDir _) => Raise IsADirectoryError
      | NotDir => Raise NotADirectoryError
      end
  | Missing => Ok fs
  | Blocked => Raise NotADirectoryError
  end.

Definition self_write (p : ppath) (content : string) : M unit :=
  fun w =>
    match write (disk w) p content with
    | Ok fs => (mkworld (self w) fs, Ok tt)
    | Raise e => (w, Raise e)
    end.

Definition self_unlink (p : ppath) : M unit :=
  fun w =>
    match unlink (disk w) p with
    | Ok fs => (mkworld (self w) fs, Ok tt)
    | Raise e => (w, Raise e)
    end.

(** [Config._encrypt(data)] *)
Definition _encrypt (data : string) : M string :=
  kp <~ self_getattr "_key_path_" ;;
  kp <~ as_path kp ;;
  fs <~ get_disk ;;
  if exists_ fs kp then
    key <~ lift (t <- read fs kp ;; load_key t) ;;
    ret (box_encrypt key data)
  else
    self_write kp (key_file new_key) ;;;
    ret (box_encrypt new_key data).

(** [Config.save(save_path, key_path)] *)
Definition save (save_path key_path : value) : M unit :=
  data <~ (fun w => (w, x <- iterencode (VNode ConfigCls (self w)) ;;
                        Ok (json_text x))) ;;
  (if truthy save_path then
     p <~ lift (resolved save_path) ;;
     self_setattr "_save_path_" (PathObj p)
   else ret tt) ;;;
  (if truthy key_path then
     p <~ lift (resolved key_path) ;;
     self_setattr "_key_path_" (PathObj p)
   else ret tt) ;;;
  self_method "_encrypt" ;;;
  encrypted <~ _encrypt data ;;
  sp <~ self_getattr "_save_path_" ;;
  sp <~ as_path sp ;;
  self_write sp encrypted.

(** [Config.prune()] *)
Definition prune : M bool :=
  sp <~ self_getattr "_save_path_" ;;
  sp <~ as_path sp ;;
  self_unlink sp ;;;
  kp <~ self_getattr "_key_path_" ;;
  kp <~ as_path kp ;;
  self_unlink kp ;;;
  self_setattr "_converted_" (VDict []) ;;;
  ret true.

(** *** What [json.loads] hands to the object hook

    No mapping occurs in [v], at any depth. *)
Fixpoint mapping_free (v : value) {struct v} : bool :=
  match v with
  | VDict _ => false
  | VList l => forallb mapping_free l
  | _ => true
  end.

(** The sequences of [v] hold no mapping. *)
Fixpoint plain_sequences (v : value) {struct v} : bool :=
  match v with
  | VList l => forallb mapping_free l
  | VDict d =>
      (fix each (d : dict) {struct d} : bool :=
         match d with
         | [] => true
         | (_, x) :: d' => plain_sequences x && each d'
         end) d
  | _ => true
  end.


(** The members of a JSON object while it is parsed: every value has been
    through the hook already. *)
Fixpoint hook_members (bases : base)
  (processor : string -> value -> result value) (d : dict) : result dict :=
  match d with
  | [] => Ok []
  | (k, x) :: d0 =>
      x' <- loads_hook bases processor x ;;
      r <- hook_members bases processor d0 ;;
      Ok ((k, x') :: r)
  end.

(** What the loop of [_object_hook] stores for one entry. *)
Definition hook_entry (bases : base)
  (processor : string -> value -> result value) (k : string) (v : value)
  : result value :=
  match v with
  | VDict d => pack_dict bases processor d k
  | _ => Ok v
  end.

(** Hooking [v] first does not change what [pack_dict] builds from it. *)
Definition hook_commutes (bases : base)
  (processor : string -> value -> result value) (v : value) : Prop :=
  match v with
  | VDict d =>
      forall k n,
        pack_dict bases processor d k = Ok n ->
        exists rv,
          loads_hook bases processor v = Ok (VDict rv) /\
          pack_dict bases processor rv k = Ok n
  | _ => loads_hook bases processor v = Ok v
  end.

(** The names under which the store keeps its two locations: the two
    properties and their private slots. *)
Definition is_location (k : string) : bool :=
  String.eqb k "save_path" || String.eqb k "key_path"
  || String.eqb k "_save_path_" || String.eqb k "_key_path_".

(** ** Properties *)

Unset Implicit Arguments.
Set Default Proof Using "Type".

(** *** The file system tree *)

Lemma child_set_child :
  forall c c' t ch,
    child c (set_child c' t ch)
    = if String.eqb c c' then Some t else child c ch.
Proof.
  intros c c' t ch. induction ch as [|[c0 t0] ch IH]; cbn.
  - destruct (String.eqb c c'); reflexivity.
  - destruct (String.eqb c' c0) eqn:E0; cbn.
    + apply String.eqb_eq in E0. subst c0.
      destruct (String.eqb c c'); reflexivity.
    + destruct (String.eqb c c0) eqn:E1.
      * apply String.eqb_eq in E1. subst c0.
        rewrite String.eqb_sym, E0. reflexivity.
      * exact IH.
Qed.

Lemma child_del_child :
  forall c c' ch,
    child c (del_child c' ch)
    = if String.eqb c c' then None else child c ch.
Proof.
  intros c c' ch. unfold del_child.
  induction ch as [|[c0 t0] ch IH]; cbn [filter child fst].
  - destruct (String.eqb c c'); reflexivity.
  - destruct (String.eqb c0 c') eqn:E0; cbn [negb child].
    + apply String.eqb_eq in E0. subst c0. rewrite IH.
      destruct (String.eqb c c'); reflexivity.
    + rewrite IH. destruct (String.eqb c c0) eqn:E1; [|reflexivity].
      apply String.eqb_eq in E1. subst c0. rewrite E0. reflexivity.
Qed.

Lemma alter_dir :
  forall comps o fs, exists fs', alter comps o (TDir fs) = TDir fs'.
Proof.
  intros comps o fs. destruct comps as [|c rest]; cbn; [eauto|].
  destruct rest; [eauto|]. destruct (child c fs); eauto.
Qed.

Lemma root_alter_tree :
  forall comps o fs, TDir (root_alter comps o fs) = alter comps o (TDir fs).
Proof.
  intros comps o fs. unfold root_alter.
  destruct (alter_dir comps o fs) as [fs' ->]. reflexivity.
Qed.

(** The entry at a path that was altered, when its directory is there. *)
Lemma find_alter_same :
  forall comps o t ch,
    comps <> [] ->
    find (removelast comps) t = Entry (TDir ch) ->
    find comps (alter comps o t)
    = match o with Some n => Entry n | None => NoEntry end.
Proof.
  induction comps as [|c rest IH]; intros o t ch Hne Hp; [congruence|].
  destruct rest as [|c1 rest].
  - cbn in Hp. injection Hp as ->. cbn.
    destruct o as [n|].
    + rewrite child_set_child, String.eqb_refl. reflexivity.
    + rewrite child_del_child, String.eqb_refl. reflexivity.
  - change (removelast (c :: c1 :: rest)) with (c :: removelast (c1 :: rest)) in Hp.
    cbn [find] in Hp. destruct t as [x|children]; [discriminate|].
    cbn [alter].
    destruct (child c children) as [t'|] eqn:Hc; [|discriminate].
    cbn [find]. rewrite child_set_child, String.eqb_refl.
    apply (IH o t' ch); [discriminate|exact Hp].
Qed.

Lemma find_parent :
  forall comps t x,
    comps <> [] ->
    find comps t = Entry x ->
    exists ch, find (removelast comps) t = Entry (TDir ch).
Proof.
  induction comps as [|c rest IH]; intros t x Hne H; [congruence|].
  destruct rest as [|c1 rest].
  - cbn in *. destruct t as [y|ch]; [discriminate|]. eauto.
  - change (removelast (c :: c1 :: rest)) with (c :: removelast (c1 :: rest)).
    cbn [find] in *. destruct t as [y|ch]; [discriminate|].
    destruct (child c ch) as [t'|]; [|discriminate].
    apply (IH t' x); [discriminate|exact H].
Qed.

Lemma kind_leaf_below :
  forall rest t, rest <> [] -> leaf t = true -> kind (find rest t) = None.
Proof.
  intros [|c rest] t Hne Hl; [congruence|].
  destruct t as [x|[|ct ch]]; try discriminate; reflexivity.
Qed.

(** Altering a leaf, or a name that is not there, changes the kind of no
    other path. *)
Lemma kind_alter_other :
  forall comps o t comps',
    comps' <> comps ->
    match find comps t with Entry l => leaf l = true | _ => True end ->
    match o with Some n => leaf n = true | None => True end ->
    kind (find comps' (alter comps o t)) = kind (find comps' t).
Proof.
  induction comps as [|c rest IH]; intros o t comps' Hne Hold Hnew;
    [reflexivity|].
  destruct t as [x|children]; [reflexivity|].
  destruct comps' as [|c' rest'].
  { cbn [alter]. destruct rest; [reflexivity|].
    destruct (child c children); reflexivity. }
  destruct rest as [|c1 rest].
  - (* the entry is a child of [t] *)
    cbn [alter find]. cbn [find] in Hold.
    destruct (String.eqb c' c) eqn:Ec.
    + apply String.eqb_eq in Ec. subst c'.
      assert (Hr : rest' <> []) by (intros ->; apply Hne; reflexivity).
      assert (Hbefore :
        kind (match child c children with
              | Some t' => find rest' t'
              | None => NoEntry
              end) = None).
      { destruct (child c children) as [t'|]; [|reflexivity].
        apply kind_leaf_below; assumption. }
      rewrite Hbefore.
      destruct o as [n|].
      * rewrite child_set_child, String.eqb_refl.
        apply kind_leaf_below; assumption.
      * rewrite child_del_child, String.eqb_refl. reflexivity.
    + destruct o as [n|].
      * rewrite child_set_child, Ec. reflexivity.
      * rewrite child_del_child, Ec. reflexivity.
  - (* the entry is further down *)
    cbn [alter]. cbn [find] in Hold.
    destruct (child c children) as [t'|] eqn:Hc; [|reflexivity].
    cbn [find]. rewrite child_set_child.
    destruct (String.eqb c' c) eqn:Ec; [|reflexivity].
    apply String.eqb_eq in Ec. subst c'. rewrite Hc.
    apply IH; [|exact Hold|exact Hnew].
    intros ->. apply Hne. reflexivity.
Qed.

(** *** Walking to a path *)

Lemma find_app :
  forall l1 l2 t,
    find (l1 ++ l2) t
    = match find l1 t with
      | Entry t1 => find l2 t1
      | NoEntry => NoEntry
      | NotDir => NotDir
      end.
Proof.
  induction l1 as [|c l1 IH]; intros l2 t; [reflexivity|].
  cbn [app find]. destruct t as [x|ch]; [reflexivity|].
  destruct (child c ch) as [t'|]; [apply IH|reflexivity].
Qed.

(** What is reached through something is reached through a directory. *)
Lemma find_prefix :
  forall l1 l2 t x,
    l2 <> [] ->
    find (l1 ++ l2) t = Entry x ->
    exists ch, find l1 t = Entry (TDir ch).
Proof.
  intros l1 l2 t x Hne H. rewrite find_app in H.
  destruct (find l1 t) as [[c|ch]| |]; try discriminate; [|eauto].
  destruct l2; [congruence|discriminate].
Qed.

(** A walk that arrives is at the place [resolve] computes. *)
Lemma namei_lexical :
  forall t comps here loc,
    namei t comps here = At loc -> loc = rev (fold_left walk comps here).
Proof.
  intros t comps. induction comps as [|c rest IH]; intros here loc H.
  - injection H as <-. reflexivity.
  - cbn [namei] in H.
    destruct (find (rev here) t) as [[x|ch]| |]; try discriminate.
    cbn [fold_left]. apply IH. exact H.
Qed.

(** The directory of the place where a walk arrives is there. *)
Lemma namei_parent :
  forall t comps here loc,
    (here = [] \/ exists ch, find (rev (tl here)) t = Entry (TDir ch)) ->
    namei t comps here = At loc ->
    loc = [] \/ exists ch, find (removelast loc) t = Entry (TDir ch).
Proof.
  intros t comps. induction comps as [|c rest IH]; intros here loc Hinv H.
  - injection H as <-. destruct here as [|h here]; [left; reflexivity|].
    right. cbn [rev]. rewrite removelast_last.
    destruct Hinv as [Hnil|Hdir]; [discriminate|exact Hdir].
  - cbn [namei] in H.
    destruct (find (rev here) t) as [[x|ch]| |] eqn:Hhere; try discriminate.
    apply (IH (walk here c) loc); [|exact H].
    unfold walk. destruct (String.eqb c "..").
    + destruct here as [|h [|h2 here]]; [left; reflexivity..|].
      right. cbn [tl]. cbn [rev] in Hhere. rewrite <- app_assoc in Hhere.
      apply (find_prefix (rev here) ([h2] ++ [h]) t (TDir ch));
        [discriminate|exact Hhere].
    + right. cbn [tl]. eauto.
Qed.

(** Without [".."] the walk is the descent along the components. *)
Lemma namei_descent :
  forall t comps here,
    Forall (fun c => String.eqb c ".." = false) comps ->
    match namei t comps here with
    | At loc => find loc t
    | Missing => NoEntry
    | Blocked => NotDir
    end = find (rev here ++ comps) t.
Proof.
  intros t comps. induction comps as [|c rest IH]; intros here H.
  - cbn [namei]. rewrite app_nil_r. reflexivity.
  - inversion H as [|? ? Hc Hrest]; subst. cbn [namei].
    rewrite (find_app (rev here) (c :: rest)).
    destruct (find (rev here) t) as [[x|ch]| |] eqn:Hhere; try reflexivity.
    rewrite (IH (walk here c) Hrest). unfold walk. rewrite Hc.
    cbn [rev]. rewrite <- app_assoc. cbn [app].
    rewrite (find_app (rev here) (c :: rest)), Hhere. reflexivity.
Qed.

(** A walk that arrives does so in every tree with the same directories
    outside [loc], when [loc] is not one. *)
Lemma namei_frame :
  forall t t' loc comps here at_,
    (forall l, l <> loc -> kind (find l t') = kind (find l t)) ->
    (forall ch, find loc t <> Entry (TDir ch)) ->
    namei t comps here = At at_ ->
    namei t' comps here = At at_.
Proof.
  intros t t' loc comps. induction comps as [|c rest IH];
    intros here at_ Hsame Hloc H; [exact H|].
  cbn [namei] in *.
  destruct (find (rev here) t) as [[x|ch]| |] eqn:Hhere; try discriminate.
  assert (Hne : rev here <> loc).
  { intros He. apply (Hloc ch). rewrite <- He. exact Hhere. }
  pose proof (Hsame _ Hne) as Hk. rewrite Hhere in Hk. cbn [kind] in Hk.
  destruct (find (rev here) t') as [[x'|ch']| |]; try discriminate.
  apply IH; assumption.
Qed.

(** A walk that ends at nothing does so in every tree that keeps the
    directories and adds no entry. *)
Lemma namei_gone :
  forall t t' comps here,
    (forall l ch, find l t = Entry (TDir ch) ->
                  exists ch', find l t' = Entry (TDir ch')) ->
    (forall l, find l t = NoEntry -> find l t' = NoEntry) ->
    match namei t comps here with
    | At loc => find loc t
    | Missing => NoEntry
    | Blocked => NotDir
    end = NoEntry ->
    match namei t' comps here with
    | At loc => find loc t'
    | Missing => NoEntry
    | Blocked => NotDir
    end = NoEntry.
Proof.
  intros t t' comps. induction comps as [|c rest IH];
    intros here Hdir Hno H.
  - cbn [namei] in *. apply Hno. exact H.
  - cbn [namei] in *.
    destruct (find (rev here) t) as [[x|ch]| |] eqn:Hhere; try discriminate.
    + destruct (Hdir _ _ Hhere) as [ch' ->]. apply IH; assumption.
    + rewrite (Hno _ Hhere). reflexivity.
Qed.

(** *** File system calls *)

Lemma find_root_alter :
  forall comps o fs comps',
    find comps' (TDir (root_alter comps o fs))
    = find comps' (alter comps o (TDir fs)).
Proof. intros. rewrite root_alter_tree. reflexivity. Qed.

Lemma resolve_from_root :
  forall p, parts (resolve p) = rev (fold_left walk (from_root p) []).
Proof. reflexivity. Qed.

(** A walk that arrives is at the resolved form of the path, and the
    directory of that place is there. *)
Lemma namei_At :
  forall fs p loc,
    namei (TDir fs) (from_root p) [] = At loc ->
    loc = parts (resolve p)
    /\ (loc = [] \/ exists ch, find (removelast loc) (TDir fs)
                               = Entry (TDir ch)).
Proof.
  intros fs p loc H. split.
  - rewrite resolve_from_root. exact (namei_lexical _ _ _ _ H).
  - exact (namei_parent _ _ _ _ (or_introl eq_refl) H).
Qed.

(** What [stat] reports is what stands at the resolved form of the path. *)
Lemma stat_Some :
  forall fs p e,
    stat fs p = Some e ->
    namei (TDir fs) (from_root p) [] = At (parts (resolve p))
    /\ kind (find (parts (resolve p)) (TDir fs)) = Some e.
Proof.
  intros fs p e H. unfold stat, lookup in H.
  destruct (namei (TDir fs) (from_root p) []) as [loc| |] eqn:Hn;
    try discriminate.
  destruct (namei_At _ _ _ Hn) as [-> _]. split; [reflexivity|exact H].
Qed.

Lemma is_file_exists :
  forall fs p, is_file fs p = true -> exists_ fs p = true.
Proof.
  intros fs p. unfold is_file, exists_.
  destruct (stat fs p) as [[|c]|]; congruence.
Qed.

Lemma read_stat :
  forall fs p t, read fs p = Ok t <-> stat fs p = Some (File t).
Proof.
  intros fs p t. unfold read, stat, kind.
  destruct (lookup fs p) as [[c|ch]| |]; split; congruence.
Qed.

Lemma stat_is_file :
  forall fs p c, stat fs p = Some (File c) -> is_file fs p = true.
Proof. intros fs p c H. unfold is_file. rewrite H. reflexivity. Qed.

(** What is there stays there when an entry is set or removed at another
    place that is not a directory. *)
Lemma stat_frame :
  forall fs loc o p e,
    match find loc (TDir fs) with Entry l => leaf l = true | _ => True end ->
    (forall ch, find loc (TDir fs) <> Entry (TDir ch)) ->
    match o with Some n => leaf n = true | None => True end ->
    parts (resolve p) <> loc ->
    stat fs p = Some e ->
    stat (root_alter loc o fs) p = Some e.
Proof.
  intros fs loc o p e Hold Hnodir Hnew Hne H.
  destruct (stat_Some _ _ _ H) as [Hn Hk].
  assert (Hsame : forall l, l <> loc ->
            kind (find l (TDir (root_alter loc o fs)))
            = kind (find l (TDir fs))).
  { intros l Hl. rewrite find_root_alter.
    exact (kind_alter_other loc o (TDir fs) l Hl Hold Hnew). }
  unfold stat, lookup.
  rewrite (namei_frame _ _ loc _ _ _ Hsame Hnodir Hn).
  rewrite (Hsame _ Hne). exact Hk.
Qed.

(** What [mkdir] returns. *)
Lemma mkdir_Ok :
  forall fs d fs',
    mkdir fs d = Ok fs' ->
    fs' = fs
    \/ (fs' = root_alter (parts (resolve d)) (Some (TDir [])) fs
        /\ namei (TDir fs) (from_root d) [] = At (parts (resolve d))
        /\ find (parts (resolve d)) (TDir fs) = NoEntry).
Proof.
  intros fs d fs' H. unfold mkdir in H.
  destruct (namei (TDir fs) (from_root d) []) as [loc| |] eqn:Hn;
    try discriminate.
  destruct (namei_At _ _ _ Hn) as [-> _].
  destruct (find (parts (resolve d)) (TDir fs)) as [[c|ch]| |] eqn:Hd;
    try discriminate; injection H as <-; [left; reflexivity|].
  right. repeat split; reflexivity.
Qed.

(** [mkdir] keeps what is there. *)
Lemma stat_mkdir :
  forall fs d fs' p e,
    mkdir fs d = Ok fs' -> stat fs p = Some e -> stat fs' p = Some e.
Proof.
  intros fs d fs' p e Hm H.
  destruct (mkdir_Ok _ _ _ Hm) as [->|(-> & _ & Hd)]; [exact H|].
  apply stat_frame; try exact H.
  - rewrite Hd. exact I.
  - intros ch. rewrite Hd. discriminate.
  - reflexivity.
  - intros He. destruct (stat_Some _ _ _ H) as [_ Hk].
    rewrite He, Hd in Hk. discriminate.
Qed.

Lemma stat_mkdir_file :
  forall fs d fs' p,
    mkdir fs d = Ok fs' ->
    is_file fs p = true ->
    is_file fs' p = true.
Proof.
  intros fs d fs' p Hm Hf. unfold is_file in *.
  destruct (stat fs p) as [[|c]|] eqn:Hs; try discriminate.
  rewrite (stat_mkdir _ _ _ _ _ Hm Hs). reflexivity.
Qed.

Lemma mkdir_read :
  forall fs d fs' p t,
    mkdir fs d = Ok fs' -> read fs p = Ok t -> read fs' p = Ok t.
Proof.
  intros fs d fs' p t Hm Hr. apply read_stat in Hr. apply read_stat.
  exact (stat_mkdir _ _ _ _ _ Hm Hr).
Qed.

(** Removing an entry makes no path reach something new. *)
Lemma find_removed :
  forall comps t comps',
    find comps' t = NoEntry -> find comps' (alter comps None t) = NoEntry.
Proof.
  induction comps as [|c rest IH]; intros t comps' H; [exact H|].
  destruct t as [x|children]; [exact H|].
  destruct comps' as [|c' rest']; [discriminate|].
  cbn [find] in H.
  destruct rest as [|c1 rest].
  - cbn [alter find]. rewrite child_del_child.
    destruct (String.eqb c' c); [reflexivity|exact H].
  - cbn [alter].
    destruct (child c children) as [t'|] eqn:Hc; [|exact H].
    cbn [find]. rewrite child_set_child.
    destruct (String.eqb c' c) eqn:Ec; [|exact H].
    apply String.eqb_eq in Ec. subst c'. rewrite Hc in H.
    apply IH. exact H.
Qed.

(** What [unlink] returns. *)
Lemma unlink_Ok :
  forall fs p fs',
    unlink fs p = Ok fs' ->
    (fs' = fs /\ lookup fs p = NoEntry)
    \/ (exists c,
          fs' = root_alter (parts (resolve p)) None fs
          /\ namei (TDir fs) (from_root p) [] = At (parts (resolve p))
          /\ find (parts (resolve p)) (TDir fs) = Entry (TFile c)).
Proof.
  intros fs p fs' H. unfold unlink in H. unfold lookup.
  destruct (namei (TDir fs) (from_root p) []) as [loc| |] eqn:Hn;
    try discriminate.
  - destruct (namei_At _ _ _ Hn) as [-> _].
    destruct (find (parts (resolve p)) (TDir fs)) as [[c|ch]| |] eqn:Hp;
      try discriminate; injection H as <-.
    + right. exists c. repeat split; reflexivity.
    + left. split; reflexivity.
  - injection H as <-. left. split; reflexivity.
Qed.

(** Removing a regular file keeps the directories. *)
Lemma removed_dirs :
  forall fs loc c l ch,
    find loc (TDir fs) = Entry (TFile c) ->
    find l (TDir fs) = Entry (TDir ch) ->
    exists ch', find l (TDir (root_alter loc None fs)) = Entry (TDir ch').
Proof.
  intros fs loc c l ch Hloc Hl.
  assert (Hne : l <> loc) by (intros ->; congruence).
  pose proof (kind_alter_other loc None (TDir fs) l Hne) as Hk.
  rewrite Hloc, Hl in Hk. specialize (Hk eq_refl I).
  rewrite <- find_root_alter in Hk. cbn [kind] in Hk.
  destruct (find l (TDir (root_alter loc None fs))) as [[x|ch']| |];
    try discriminate.
  eauto.
Qed.

Lemma unlink_gone :
  forall fs fs' p, unlink fs p = Ok fs' -> lookup fs' p = NoEntry.
Proof.
  intros fs fs' p H.
  destruct (unlink_Ok _ _ _ H) as [[-> Hno]|(c & -> & Hn & Hp)];
    [exact Hno|].
  assert (Hne : parts (resolve p) <> []).
  { intros He. rewrite He in Hp. discriminate. }
  destruct (find_parent _ _ _ Hne Hp) as [ch Hpar].
  unfold lookup.
  rewrite (namei_frame (TDir fs) _ (parts (resolve p)) _ _ _
             (fun l Hl =>
                eq_trans
                  (f_equal kind (find_root_alter _ _ _ _))
                  (kind_alter_other _ None (TDir fs) l Hl
                     ltac:(rewrite Hp; reflexivity) I))
             ltac:(intros ch0; rewrite Hp; discriminate) Hn).
  rewrite find_root_alter. apply (find_alter_same _ None _ ch Hne Hpar).
Qed.

Lemma unlink_keeps_gone :
  forall fs fs' p q,
    unlink fs p = Ok fs' -> lookup fs q = NoEntry -> lookup fs' q = NoEntry.
Proof.
  intros fs fs' p q H Hq.
  destruct (unlink_Ok _ _ _ H) as [[-> _]|(c & -> & _ & Hp)]; [exact Hq|].
  unfold lookup in *.
  apply (namei_gone (TDir fs)); [| |exact Hq].
  - intros l ch Hl. exact (removed_dirs _ _ _ _ _ Hp Hl).
  - intros l Hl. rewrite find_root_alter. apply find_removed. exact Hl.
Qed.

Lemma unlink_missing :
  forall fs p, lookup fs p = NoEntry -> unlink fs p = Ok fs.
Proof.
  intros fs p H. unfold unlink. unfold lookup in H.
  destruct (namei (TDir fs) (from_root p) []) as [loc| |];
    [rewrite H; reflexivity|reflexivity|discriminate].
Qed.

Lemma lookup_missing_exists :
  forall fs p, lookup fs p = NoEntry -> exists_ fs p = false.
Proof. intros fs p H. unfold exists_, stat. rewrite H. reflexivity. Qed.

(** What [write] returns. *)
Lemma write_Ok :
  forall fs fs' p c,
    write fs p c = Ok fs' ->
    fs' = root_alter (parts (resolve p)) (Some (TFile c)) fs
    /\ namei (TDir fs) (from_root p) [] = At (parts (resolve p))
    /\ parts (resolve p) <> []
    /\ (exists ch, find (removelast (parts (resolve p))) (TDir fs)
                   = Entry (TDir ch))
    /\ match find (parts (resolve p)) (TDir fs) with
       | Entry l => leaf l = true
       | _ => True
       end
    /\ (forall ch, find (parts (resolve p)) (TDir fs) <> Entry (TDir ch)).
Proof.
  intros fs fs' p c H. unfold write in H.
  destruct (namei (TDir fs) (from_root p) []) as [loc| |] eqn:Hn;
    try discriminate.
  destruct (namei_At _ _ _ Hn) as [-> Hpar].
  assert (Hne : parts (resolve p) <> []).
  { intros He. rewrite He in H. discriminate. }
  destruct Hpar as [He|Hpar]; [congruence|].
  destruct (find (parts (resolve p)) (TDir fs)) as [[c0|ch]| |] eqn:Hp;
    try discriminate; injection H as <-;
    (split; [reflexivity|]; split; [reflexivity|]; split; [exact Hne|];
     split; [exact Hpar|]; split; [reflexivity|]; intros ch0; discriminate).
Qed.

Lemma write_stat_same :
  forall fs fs' p c,
    write fs p c = Ok fs' -> stat fs' p = Some (File c).
Proof.
  intros fs fs' p c H.
  destruct (write_Ok _ _ _ _ H) as (-> & Hn & Hne & (ch & Hpar) & Hold & Hnd).
  unfold stat, lookup.
  rewrite (namei_frame (TDir fs) _ (parts (resolve p)) _ _ _
             (fun l Hl =>
                eq_trans
                  (f_equal kind (find_root_alter _ _ _ _))
                  (kind_alter_other _ (Some (TFile c)) (TDir fs) l Hl
                     Hold eq_refl))
             Hnd Hn).
  rewrite find_root_alter.
  rewrite (find_alter_same _ _ _ ch Hne Hpar). reflexivity.
Qed.

(** [write] keeps what is there at the other places. *)
Lemma write_stat_other :
  forall fs fs' p c q e,
    write fs p c = Ok fs' ->
    as_posix (resolve q) <> as_posix (resolve p) ->
    stat fs q = Some e ->
    stat fs' q = Some e.
Proof.
  intros fs fs' p c q e H Hne Hq.
  destruct (write_Ok _ _ _ _ H) as (-> & _ & _ & _ & Hold & Hnd).
  apply stat_frame; try assumption; [reflexivity|].
  intros He. apply Hne.
  change (resolve q) with (mkpath "/" (parts (resolve q))).
  change (resolve p) with (mkpath "/" (parts (resolve p))).
  rewrite He. reflexivity.
Qed.


(** *** BaseObject.update *)

(** C4: when [BaseObject.update] gets a non-empty mapping together with
    keyword overrides, both are lost: the attributes stay as they were, and
    the call ends in the [AttributeError] of [None.items()]. *)
Theorem BaseObject_update_both_discarded :
  forall (attrs __d kwargs : dict),
    __d <> [] -> kwargs <> [] ->
    BaseObject_update attrs __d kwargs = (attrs, Raise AttributeError).
Proof.
  intros attrs d kw Hd Hkw.
  unfold BaseObject_update.
  destruct d as [|x d]; [congruence|].
  destruct kw as [|y kw]; [congruence|].
  reflexivity.
Qed.

(** *** Config.restore without a key file *)

Lemma getattr_Config_plain :
  forall attrs k,
    String.eqb k "save_path" = false ->
    String.eqb k "key_path" = false ->
    getattr ConfigCls attrs k =
    match dict_get k attrs with Some v => Ok v | None => Raise AttributeError end.
Proof.
  intros attrs k H1 H2. unfold getattr. rewrite H1, H2. reflexivity.
Qed.

Lemma setattr_converted :
  forall attrs v,
    setattr ConfigCls attrs "_converted_" v
    = Ok (dict_set "_converted_" v attrs).
Proof. reflexivity. Qed.

Lemma setattr_save_path :
  forall attrs v,
    setattr ConfigCls attrs "save_path" v
    = (p <- resolved v ;; Ok (dict_set "_save_path_" (PathObj p) attrs)).
Proof. reflexivity. Qed.

Lemma setattr_key_path :
  forall attrs v,
    setattr ConfigCls attrs "key_path" v
    = (p <- resolved v ;; Ok (dict_set "_key_path_" (PathObj p) attrs)).
Proof. reflexivity. Qed.

(** Outside the special names and the two properties, [setattr] stores
    the value. *)
Lemma setattr_plain :
  forall c attrs k v,
    is_special k = false ->
    String.eqb k "save_path" = false ->
    String.eqb k "key_path" = false ->
    setattr c attrs k v = Ok (dict_set k v attrs).
Proof.
  intros c attrs k v Hs H1 H2. unfold setattr. rewrite Hs.
  destruct c; [reflexivity|]. rewrite H1, H2. reflexivity.
Qed.

(** C5: when the key file of the store does not exist, [restore] ends
    normally and changes neither the attributes of the store (the cached
    mapping [_converted_] is one of them) nor the file system. *)
Theorem restore_absent_key_noop :
  forall (w : world) (kp : string),
    dict_get "_key_path_" (self w) = Some (VPath kp) ->
    exists_ (disk w) (parse_path kp) = false ->
    restore w = (w, Ok tt).
Proof.
  intros w kp Hk Hex.
  unfold restore, bindM, self_getattr.
  rewrite getattr_Config_plain by reflexivity.
  rewrite Hk. cbn.
  rewrite Hex. reflexivity.
Qed.

(** *** Config.load and an unsupported extension *)

(** With an extension other than [.json] and [.toml], [load] never gets to
    the attributes of the store. *)
Lemma load_unsupported_self :
  forall (w : world) (load_path : value) (p : ppath),
    Path load_path = Ok p ->
    supported p = false ->
    self (fst (load load_path w)) = self w /\
    exists e, snd (load load_path w) = Raise e.
Proof.
  intros w lp p HP Hs.
  apply Bool.orb_false_iff in Hs. destruct Hs as [Hj Ht].
  unfold load, bindM, self_getattr, as_path, self_mkdir, lift, get_disk,
    raise, ret.
  destruct (getattr ConfigCls (self w) "_save_path_") as [v|e];
    [|cbn; eauto].
  destruct v; cbn; eauto.
  destruct (mkdir (disk w) (parent (parse_path s))) as [fs'|e]; cbn; eauto.
  rewrite HP. cbn.
  destruct (exists_ fs' p && is_file fs' p); cbn; eauto.
  rewrite Hj, Ht. cbn. eauto.
Qed.

(** C6, as the code has it: for an existing regular file whose extension is
    neither [.json] nor [.toml], [load] raises [NotImplementedError] once
    the parent directory of the save target is there (it exists, or [mkdir]
    makes it), and the only effect of the call is that directory; whatever
    [mkdir] does, the attributes of the store, the cached mapping among
    them, are unchanged and the call ends with an exception. *)
Theorem load_unsupported_format :
  forall (w : world) (load_path : value) (p : ppath) (sp : string),
    Path load_path = Ok p ->
    is_file (disk w) p = true ->
    supported p = false ->
    (forall fs',
        dict_get "_save_path_" (self w) = Some (VPath sp) ->
        mkdir (disk w) (parent (parse_path sp)) = Ok fs' ->
        load load_path w = (mkworld (self w) fs', Raise NotImplementedError))
    /\ self (fst (load load_path w)) = self w
    /\ exists e, snd (load load_path w) = Raise e.
Proof.
  intros w lp p sp HP Hf Hs. split.
  - intros fs' Hsp Hm.
    pose proof (stat_mkdir_file _ _ _ p Hm Hf) as Hf'.
    apply Bool.orb_false_iff in Hs. destruct Hs as [Hj Ht].
    unfold load, bindM, self_getattr, as_path, self_mkdir, lift, get_disk,
      raise, ret.
    rewrite getattr_Config_plain by reflexivity.
    rewrite Hsp. cbn. rewrite Hm. cbn. rewrite HP. cbn.
    rewrite Hf', (is_file_exists _ _ Hf'). cbn.
    rewrite Hj, Ht. reflexivity.
  - apply load_unsupported_self with (p := p); assumption.
Qed.

(** *** Config.restore with a key file and no save target *)




(** *** MapEncoder *)

Lemma In_insert_name :
  forall k x l, In x (insert_name k l) <-> x = k \/ In x l.
Proof.
  intros k x l. induction l as [|h t IH]; cbn.
  - split; intros [H|H]; auto.
  - destruct (String.leb k h); cbn.
    + split; intros [H|H]; auto.
    + rewrite IH. split; intros [H|[H|H]]; auto.
Qed.

Lemma In_sort_names :
  forall x l, In x (sort_names l) <-> In x l.
Proof.
  intros x l. induction l as [|h t IH]; cbn; [split; intros []|].
  rewrite In_insert_name, IH. split; intros [H|H]; auto.
Qed.

Lemma In_dir :
  forall c attrs k,
    In k (dir c attrs) <-> In k (keys attrs) \/ In k (class_names c).
Proof.
  intros c attrs k. unfold dir.
  rewrite In_sort_names, nodup_In, in_app_iff. reflexivity.
Qed.

Lemma dict_get_In_keys :
  forall k d v, dict_get k d = Some v -> In k (keys d).
Proof.
  intros k d v. induction d as [|[k' v'] d IH]; cbn; [discriminate|].
  destruct (String.eqb k k') eqn:He.
  - apply String.eqb_eq in He. auto.
  - auto.
Qed.

Lemma dict_get_In :
  forall k d v, dict_get k d = Some v -> In (k, v) d.
Proof.
  intros k d v. induction d as [|[k' v'] d IH]; cbn; [discriminate|].
  destruct (String.eqb k k') eqn:He.
  - apply String.eqb_eq in He. intros [= ->]. subst. auto.
  - auto.
Qed.

Lemma getattr_in_dir :
  forall c attrs k v, getattr c attrs k = Ok v -> In k (dir c attrs).
Proof.
  intros c attrs k v H. apply In_dir.
  destruct c as [n b|]; cbn in H.
  - destruct (dict_get k attrs) eqn:Hg; [|discriminate].
    left. eapply dict_get_In_keys; eauto.
  - destruct (String.eqb k "save_path") eqn:H1.
    { apply String.eqb_eq in H1. subst. right. cbn. auto. }
    destruct (String.eqb k "key_path") eqn:H2.
    { apply String.eqb_eq in H2. subst. right. cbn. auto. }
    destruct (dict_get k attrs) eqn:Hg; [|discriminate].
    left. eapply dict_get_In_keys; eauto.
Qed.

Lemma dict_get_one_member :
  forall c attrs n k l,
    dict_get k
      (match getattr c attrs n with
       | Ok v => if negb (isroutine v) && negb (is_private n)
                 then [(n, v)] else []
       | Raise _ => []
       end ++ l)%list
    = if String.eqb k n then
        match member_of c attrs k with
        | Some v => Some v
        | None => dict_get k l
        end
      else dict_get k l.
Proof.
  intros c attrs n k l. unfold member_of.
  destruct (String.eqb k n) eqn:He.
  - apply String.eqb_eq in He. subst n.
    destruct (getattr c attrs k) as [v|e]; cbn; [|reflexivity].
    destruct (negb (isroutine v) && negb (is_private k)); cbn; [|reflexivity].
    rewrite String.eqb_refl. reflexivity.
  - destruct (getattr c attrs n) as [v|e]; cbn; [|reflexivity].
    destruct (negb (isroutine v) && negb (is_private n)); cbn; [|reflexivity].
    rewrite He. reflexivity.
Qed.

Lemma dict_get_members_in :
  forall c attrs names k,
    In k names ->
    dict_get k
      (flat_map
         (fun k =>
            match getattr c attrs k with
            | Ok v => if negb (isroutine v) && negb (is_private k)
                      then [(k, v)] else []
            | Raise _ => []
            end) names)
    = member_of c attrs k.
Proof.
  intros c attrs names k. induction names as [|n names IH]; intros Hin.
  - destruct Hin.
  - cbn [flat_map]. rewrite dict_get_one_member.
    destruct (String.eqb k n) eqn:He.
    + destruct (member_of c attrs k) eqn:Hm; [reflexivity|].
      destruct (in_dec string_dec k names) as [Hi|Hni].
      * apply IH. exact Hi.
      * clear IH Hin. induction names as [|m names IH]; [reflexivity|].
        cbn [flat_map]. rewrite dict_get_one_member.
        destruct (String.eqb k m); [rewrite Hm|]; apply IH;
          intros Hc; apply Hni; right; exact Hc.
    + apply IH. destruct Hin as [->|Hin]; [|exact Hin].
      rewrite String.eqb_refl in He. discriminate.
Qed.

Lemma dict_get_public_members :
  forall c attrs k v,
    getattr c attrs k = Ok v ->
    dict_get k (public_members c attrs) = member_of c attrs k.
Proof.
  intros c attrs k v H. unfold public_members.
  apply dict_get_members_in. eapply getattr_in_dir; eauto.
Qed.

Lemma public_members_sound :
  forall c attrs k v,
    dict_get k (public_members c attrs) = Some v ->
    getattr c attrs k = Ok v /\ isroutine v = false /\ is_private k = false.
Proof.
  intros c attrs k v. unfold public_members.
  induction (dir c attrs) as [|n names IH]; [discriminate|].
  cbn [flat_map]. rewrite dict_get_one_member.
  destruct (String.eqb k n) eqn:He; [|exact IH].
  unfold member_of.
  destruct (getattr c attrs k) as [x|e] eqn:Hg; [|exact IH].
  destruct (isroutine x) eqn:Hr; cbn [negb andb]; [exact IH|].
  destruct (is_private k) eqn:Hp; cbn [negb andb]; [exact IH|].
  intros [= ->]. auto.
Qed.

Lemma dict_get_map_values :
  forall f k d, dict_get k (map_values f d) = option_map f (dict_get k d).
Proof.
  intros f k d. induction d as [|[k' v] d IH]; cbn; [reflexivity|].
  destruct (String.eqb k k'); [reflexivity|exact IH].
Qed.

Lemma map_values_app :
  forall f (d e : dict),
    map_values f (d ++ e)%list = (map_values f d ++ map_values f e)%list.
Proof. intros. unfold map_values. apply map_app. Qed.

Lemma keys_map_values : forall f d, keys (map_values f d) = keys d.
Proof.
  intros f d. unfold keys, map_values. rewrite map_map. reflexivity.
Qed.

Lemma encode_value_routine :
  forall v, isroutine (encode_value v) = isroutine v.
Proof. destruct v; reflexivity. Qed.

Lemma path_property_encoded :
  forall attrs slot,
    path_property (map_values encode_value attrs) slot = path_property attrs slot.
Proof.
  intros attrs slot. unfold path_property.
  rewrite dict_get_map_values.
  destruct (dict_get slot attrs) as [v|]; [|reflexivity].
  destruct v; reflexivity.
Qed.

Lemma path_property_str :
  forall attrs slot v,
    path_property attrs slot = Ok v -> encode_value v = v /\ isroutine v = false.
Proof.
  intros attrs slot v. unfold path_property.
  destruct (dict_get slot attrs) as [x|]; [|discriminate].
  destruct x; try discriminate. intros [= <-]. split; reflexivity.
Qed.

Lemma getattr_encoded :
  forall c attrs k,
    getattr c (map_values encode_value attrs) k
    = match getattr c attrs k with
      | Ok v => Ok (encode_value v)
      | Raise e => Raise e
      end.
Proof.
  intros c attrs k.
  assert (Hplain :
    match dict_get k (map_values encode_value attrs) with
    | Some v => Ok v | None => Raise AttributeError end
    = match match dict_get k attrs with
            | Some v => Ok v | None => Raise AttributeError end with
      | Ok v => Ok (encode_value v) | Raise e => Raise e end).
  { rewrite dict_get_map_values. destruct (dict_get k attrs); reflexivity. }
  assert (Hprop : forall slot,
    path_property (map_values encode_value attrs) slot
    = match path_property attrs slot with
      | Ok v => Ok (encode_value v) | Raise e => Raise e end).
  { intros slot. rewrite path_property_encoded.
    destruct (path_property attrs slot) eqn:Hp; [|reflexivity].
    apply path_property_str in Hp. destruct Hp as [-> _]. reflexivity. }
  destruct c as [n b|]; cbn.
  - exact Hplain.
  - destruct (String.eqb k "save_path"); [apply Hprop|].
    destruct (String.eqb k "key_path"); [apply Hprop|].
    exact Hplain.
Qed.

Lemma public_members_encoded :
  forall c attrs,
    public_members c (map_values encode_value attrs)
    = map_values encode_value (public_members c attrs).
Proof.
  intros c attrs. unfold public_members, dir.
  rewrite keys_map_values.
  induction (sort_names (nodup string_dec (keys attrs ++ class_names c)))
    as [|n names IH]; cbn [flat_map]; [reflexivity|].
  rewrite map_values_app, <- IH. f_equal.
  rewrite getattr_encoded.
  destruct (getattr c attrs n) as [v|e]; [|reflexivity].
  rewrite encode_value_routine.
  destruct (negb (isroutine v) && negb (is_private n)); reflexivity.
Qed.

(** [process_cls] on an object with attributes is the comprehension of the
    source followed by its loop body on every member. *)
Lemma process_cls_unfold :
  forall c attrs,
    process_cls (VNode c attrs)
    = VDict (map_values encode_value (public_members c attrs)).
Proof.
  intros c attrs. rewrite <- public_members_encoded.
  cbn [process_cls]. do 2 f_equal.
  induction attrs as [|[k v] attrs IH]; cbn; [reflexivity|].
  rewrite IH. do 2 f_equal. destruct v; reflexivity.
Qed.

Lemma encoded_get_node :
  forall c attrs k,
    encoded_get k (VNode c attrs)
    = option_map encode_value (dict_get k (public_members c attrs)).
Proof.
  intros. unfold encoded_get. rewrite process_cls_unfold.
  apply dict_get_map_values.
Qed.

Lemma encoded_get_private :
  forall c attrs k,
    is_private k = true -> encoded_get k (VNode c attrs) = None.
Proof.
  intros c attrs k Hp. rewrite encoded_get_node.
  destruct (dict_get k (public_members c attrs)) as [v|] eqn:Hg; [|reflexivity].
  apply public_members_sound in Hg. destruct Hg as (_ & _ & Hq). congruence.
Qed.

Lemma encoded_get_property :
  forall attrs k slot,
    getattr ConfigCls attrs k = path_property attrs slot ->
    is_private k = false ->
    encoded_get k (VNode ConfigCls attrs)
    = match path_property attrs slot with
      | Ok v => Some v
      | Raise _ => None
      end.
Proof.
  intros attrs k slot Hg Hp. rewrite encoded_get_node.
  destruct (path_property attrs slot) as [v|e] eqn:Hv.
  - rewrite (dict_get_public_members _ _ _ _ Hg).
    unfold member_of. rewrite Hg.
    destruct (path_property_str _ _ _ Hv) as [He Hr].
    rewrite Hr, Hp. cbn. rewrite He. reflexivity.
  - destruct (dict_get k (public_members ConfigCls attrs)) as [v|] eqn:Hd;
      [|reflexivity].
    apply public_members_sound in Hd. destruct Hd as (Hd & _). congruence.
Qed.

(** C3, as the code has it: an attribute is left out of the encoded mapping
    exactly when its name starts and ends with ["_"] or its value is a
    routine; so the store's [_save_path_], [_key_path_] and [_converted_]
    are never keys of the encoded mapping, while the properties [save_path]
    and [key_path] of the store are encoded, with the posix form of the
    save target and of the key file. *)
Theorem encode_omits_private_or_routine :
  forall (c : klass) (attrs : dict),
    (forall k v,
        getattr c attrs k = Ok v ->
        (encoded_get k (VNode c attrs) = None
         <-> is_private k = true \/ isroutine v = true))
    /\ encoded_get "_save_path_" (VNode c attrs) = None
    /\ encoded_get "_key_path_" (VNode c attrs) = None
    /\ encoded_get "_converted_" (VNode c attrs) = None
    /\ encoded_get "save_path" (VNode ConfigCls attrs)
       = match path_property attrs "_save_path_" with
         | Ok v => Some v
         | Raise _ => None
         end
    /\ encoded_get "key_path" (VNode ConfigCls attrs)
       = match path_property attrs "_key_path_" with
         | Ok v => Some v
         | Raise _ => None
         end.
Proof.
  intros c attrs. split; [|repeat split].
  - intros k v Hg. rewrite encoded_get_node.
    rewrite (dict_get_public_members _ _ _ _ Hg).
    unfold member_of. rewrite Hg.
    destruct (isroutine v), (is_private k); cbn; split;
      solve [auto | discriminate | intros [H|H]; discriminate].
  - apply encoded_get_private. reflexivity.
  - apply encoded_get_private. reflexivity.
  - apply encoded_get_private. reflexivity.
  - apply encoded_get_property; reflexivity.
  - apply encoded_get_property; reflexivity.
Qed.

Lemma json_ok_dict :
  forall d, json_ok (VDict d) = forallb (fun kv => json_ok (snd kv)) d.
Proof.
  intros d. cbn [json_ok].
  induction d as [|[k v] d IH]; cbn; [reflexivity|].
  rewrite IH. reflexivity.
Qed.

(** C7, as the code has it: [process_cls] gives the string form only for an
    object without attributes of its own; in an object with attributes a
    member that is not such an object is stored as it is, and the encoder
    then raises [TypeError] when a public member is neither an object with
    attributes nor JSON-representable. *)
Theorem encode_keeps_plain_values :
  (forall obj, has_dict obj = false -> process_cls obj = VStr (py_str obj))
  /\ (forall c attrs k v,
         dict_get k (public_members c attrs) = Some v ->
         has_dict v = false ->
         encoded_get k (VNode c attrs) = Some v
         /\ (json_ok v = false -> iterencode (VNode c attrs) = Raise TypeError)).
Proof.
  split.
  - intros obj H. destruct obj; try reflexivity. discriminate.
  - intros c attrs k v Hg Hd. split.
    + rewrite encoded_get_node, Hg. cbn. unfold encode_value. rewrite Hd.
      reflexivity.
    + intros Hj. unfold iterencode.
      rewrite process_cls_unfold, json_ok_dict.
      replace (forallb _ _) with false; [reflexivity|].
      symmetry. apply Bool.not_true_is_false. intros Hall.
      rewrite forallb_forall in Hall.
      apply dict_get_In in Hg.
      specialize (Hall (k, encode_value v)). cbn in Hall.
      unfold encode_value in Hall. rewrite Hd in Hall.
      rewrite Hall in Hj; [discriminate|].
      unfold map_values. apply in_map_iff. exists (k, v). split; [|exact Hg].
      cbn. unfold encode_value. rewrite Hd. reflexivity.
Qed.

(** *** MapDecoder *)

Lemma dict_get_set :
  forall k k' v d,
    dict_get k (dict_set k' v d)
    = if String.eqb k k' then Some v else dict_get k d.
Proof.
  intros k k' v d. induction d as [|[k0 v0] d IH]; cbn.
  - destruct (String.eqb k k'); reflexivity.
  - destruct (String.eqb k' k0) eqn:H0; cbn.
    + apply String.eqb_eq in H0. subst k0.
      destruct (String.eqb k k'); reflexivity.
    + destruct (String.eqb k k0) eqn:H1.
      * apply String.eqb_eq in H1. subst k0.
        rewrite String.eqb_sym, H0. reflexivity.
      * exact IH.
Qed.

(** *** Making the objects *)

Lemma plain_attrs_get :
  forall b attrs k,
    plain_attrs b attrs = true -> plain_key b k = false ->
    dict_get k attrs = None.
Proof.
  intros b attrs k H Hk. induction attrs as [|[k0 v0] attrs IH]; [reflexivity|].
  cbn in H. apply Bool.andb_true_iff in H. destruct H as [H0 H].
  apply Bool.andb_true_iff in H0. destruct H0 as [Hk0 _].
  cbn [dict_get]. destruct (String.eqb k k0) eqn:He; [|exact (IH H)].
  apply String.eqb_eq in He. subst k0. rewrite Hk in Hk0. discriminate.
Qed.

Lemma plain_attrs_class :
  forall b attrs,
    plain_attrs b attrs = true ->
    existsb (fun k => is_special k && negb (is_constructor k)) (keys attrs)
    || existsb (fun kv => is_opaque (snd kv)) attrs = false.
Proof.
  intros b attrs H. induction attrs as [|[k0 v0] attrs IH]; [reflexivity|].
  cbn in H. apply Bool.andb_true_iff in H. destruct H as [H0 H].
  apply Bool.andb_true_iff in H0. destruct H0 as [Hk0 Hv0].
  apply Bool.orb_false_iff in IH; [|exact H]. destruct IH as [IH1 IH2].
  unfold plain_key in Hk0. apply Bool.andb_true_iff in Hk0.
  destruct Hk0 as [Hs _]. apply Bool.negb_true_iff in Hs.
  apply Bool.negb_true_iff in Hv0.
  cbn [keys map existsb fst snd]. fold (keys attrs).
  rewrite Hs, Hv0, IH1, IH2. reflexivity.
Qed.

Lemma plain_key_called :
  forall b attrs, plain_attrs b attrs = true -> called_first b attrs = None.
Proof.
  intros b attrs H. unfold called_first.
  rewrite (plain_attrs_get b attrs "__new__" H)
    by (destruct b; reflexivity).
  rewrite (plain_attrs_get b attrs "__init__" H)
    by (destruct b; reflexivity).
  destruct b; [|reflexivity].
  apply (plain_attrs_get BaseObject attrs "update" H). reflexivity.
Qed.

(** With a name that [type] takes and a plain namespace the object is made,
    and it holds the namespace. *)
Lemma new_object_plain :
  forall name b attrs,
    class_name_ok name = true ->
    plain_attrs b attrs = true ->
    new_object name b attrs = Ok (VNode (Dynamic (Str.capitalize name) b) attrs).
Proof.
  intros name b attrs Hn Ha. unfold new_object, new_class.
  unfold class_name_ok in Hn. apply Bool.andb_true_iff in Hn.
  destruct Hn as [Hascii Hnul].
  rewrite (plain_attrs_class b attrs Ha), Hascii, Hnul. cbn [negb orb bind].
  rewrite (plain_key_called b attrs Ha). reflexivity.
Qed.

(** An object that is made holds the namespace it was made from. *)
Lemma new_object_Ok :
  forall name b attrs n,
    new_object name b attrs = Ok n ->
    n = VNode (Dynamic (Str.capitalize name) b) attrs.
Proof.
  intros name b attrs n. unfold new_object, new_class.
  destruct (_ || _ || _); [discriminate|].
  destruct (Str.free_of _ name); [|discriminate].
  cbn [bind]. destruct (called_first b attrs) as [v|].
  - destruct (not_callable v); discriminate.
  - intros [= <-]. reflexivity.
Qed.


Lemma constructible_dict :
  forall b d,
    constructible b (VDict d)
    = forallb (fun kv => plain_key b (fst kv) && nameable (fst kv) (snd kv)
                         && constructible b (snd kv)) d.
Proof.
  intros b d. cbn [constructible].
  induction d as [|[k x] d IH]; [reflexivity|].
  cbn [forallb fst snd]. rewrite <- IH. reflexivity.
Qed.

Section Decoder_facts.

Variable bases : base.
Variable processor : string -> value -> result value.

(** [pack_item] is the loop body of the source. *)
Lemma pack_item_unfold :
  forall k v,
    pack_item bases processor k v
    = (v1 <- match v with
             | VDict d => pack_dict bases processor d k
             | _ => Ok v
             end ;;
       r <- processor k v1 ;;
       Ok (if truthy r then r else v1)).
Proof.
  intros k v. destruct v; reflexivity.
Qed.







End Decoder_facts.




(** *** The Path Normalizer *)

Lemma split_not_nil : forall sep s, Str.split sep s <> [].
Proof.
  intros sep s. destruct s as [|c s]; cbn; [discriminate|].
  destruct (Ascii.eqb c sep); [discriminate|].
  destruct (Str.split sep s); discriminate.
Qed.

Lemma split_free :
  forall sep s, Forall (fun x => Str.free_of sep x = true) (Str.split sep s).
Proof.
  intros sep s. induction s as [|c s IH]; cbn.
  - constructor; [reflexivity|constructor].
  - destruct (Ascii.eqb c sep) eqn:Hc.
    + constructor; [reflexivity|exact IH].
    + destruct (Str.split sep s) as [|w ws].
      * constructor; [cbn; rewrite Hc; reflexivity|constructor].
      * inversion IH as [|? ? Hw Hws]; subst.
        constructor; [cbn; rewrite Hc, Hw; reflexivity|exact Hws].
Qed.

Lemma split_single :
  forall sep x, Str.free_of sep x = true -> Str.split sep x = [x].
Proof.
  intros sep x. induction x as [|c x IH]; cbn; [reflexivity|].
  destruct (Ascii.eqb c sep); cbn; [discriminate|].
  intros H. rewrite (IH H). reflexivity.
Qed.

Lemma split_app :
  forall sep x r,
    Str.free_of sep x = true ->
    Str.split sep (x ++ String sep r) = x :: Str.split sep r.
Proof.
  intros sep x r. induction x as [|c x IH]; cbn.
  - rewrite Ascii.eqb_refl. reflexivity.
  - destruct (Ascii.eqb c sep); cbn; [discriminate|].
    intros H. rewrite (IH H). reflexivity.
Qed.

Lemma split_concat :
  forall comps,
    comps <> [] ->
    Forall (fun x => Str.free_of "/" x = true) comps ->
    Str.split "/" (String.concat "/" comps) = comps.
Proof.
  induction comps as [|c cs IH]; intros Hne Hall; [congruence|].
  inversion Hall as [|? ? Hc Hcs]; subst.
  destruct cs as [|c' cs].
  - cbn. apply split_single. exact Hc.
  - change (String.concat "/" (c :: c' :: cs))
      with (c ++ String "/" (String.concat "/" (c' :: cs))).
    rewrite split_app by exact Hc.
    rewrite IH; [reflexivity|discriminate|exact Hcs].
Qed.

Lemma stored_head :
  forall c, stored c = true -> exists a c', c = String a c' /\ Ascii.eqb a "/" = false.
Proof.
  intros c H. unfold stored, keep_part in H.
  destruct c as [|a c']; [discriminate|].
  apply Bool.andb_true_iff in H. destruct H as [_ H]. cbn in H.
  exists a, c'. split; [reflexivity|].
  destruct (Ascii.eqb a "/"); [discriminate|reflexivity].
Qed.

Lemma lstrip_concat :
  forall comps,
    Forall (fun c => stored c = true) comps ->
    Str.lstrip "/" (String.concat "/" comps) = String.concat "/" comps.
Proof.
  intros comps H. destruct H as [|c cs Hc Hcs]; [reflexivity|].
  destruct (stored_head _ Hc) as (a & c' & -> & Ha).
  destruct cs; cbn; rewrite Ha; reflexivity.
Qed.

Lemma filter_stored :
  forall comps,
    Forall (fun c => stored c = true) comps ->
    filter keep_part comps = comps.
Proof.
  induction 1 as [|c cs Hc Hcs IH]; cbn; [reflexivity|].
  unfold stored in Hc. apply Bool.andb_true_iff in Hc. destruct Hc as [-> _].
  rewrite IH. reflexivity.
Qed.

Lemma stored_free :
  forall comps,
    Forall (fun c => stored c = true) comps ->
    Forall (fun x => Str.free_of "/" x = true) comps.
Proof.
  intros comps H. eapply Forall_impl; [|exact H].
  intros c Hc. unfold stored in Hc.
  apply Bool.andb_true_iff in Hc. apply Hc.
Qed.

(** Reading back the text of an absolute path gives its components. *)
Lemma parse_absolute :
  forall comps,
    Forall (fun c => stored c = true) comps ->
    parse_path (String "/" (String.concat "/" comps)) = mkpath "/" comps.
Proof.
  intros comps H. unfold parse_path.
  cbn [Str.lstrip]. rewrite Ascii.eqb_refl.
  rewrite (lstrip_concat _ H).
  cbn [String.length].
  replace (S (String.length (String.concat "/" comps))
           - String.length (String.concat "/" comps))%nat with 1%nat by lia.
  cbn [Nat.eqb]. f_equal.
  destruct comps as [|c cs]; [reflexivity|].
  rewrite split_concat; [|discriminate|apply stored_free; exact H].
  apply filter_stored. exact H.
Qed.

Lemma parse_path_stored :
  forall s, Forall (fun c => stored c = true) (parts (parse_path s)).
Proof.
  intros s. unfold parse_path. cbn [parts].
  pose proof (split_free "/" (Str.lstrip "/" s)) as H.
  induction H as [|c cs Hc Hcs IH]; cbn; [constructor|].
  destruct (keep_part c) eqn:Hk; [|exact IH].
  constructor; [|exact IH]. unfold stored. rewrite Hk, Hc. reflexivity.
Qed.

Lemma expanduser_stored :
  forall p q,
    Forall (fun c => stored c = true) (parts p) ->
    expanduser p = Ok q ->
    Forall (fun c => stored c = true) (parts q).
Proof.
  intros p q Hp. unfold expanduser.
  destruct (root p); [|intros [= <-]; exact Hp].
  destruct (parts p) as [|first rest] eqn:Hparts; [intros [= <-]; rewrite Hparts; constructor|].
  destruct (Str.startswith "~" first); [|intros [= <-]; rewrite Hparts; exact Hp].
  destruct (Str.startswith "~" (os_expanduser E first)); [discriminate|].
  intros [= <-]. cbn [parts].
  apply Forall_app. split; [apply parse_path_stored|].
  inversion Hp; assumption.
Qed.

Lemma walk_clean :
  forall cs acc,
    Forall (fun c => stored c = true) cs ->
    Forall (fun c => clean c = true) acc ->
    Forall (fun c => clean c = true) (fold_left walk cs acc).
Proof.
  induction cs as [|c cs IH]; intros acc Hcs Hacc; cbn; [exact Hacc|].
  inversion Hcs as [|? ? Hc Hcs']; subst.
  apply IH; [exact Hcs'|].
  unfold walk. destruct (String.eqb c "..") eqn:He.
  - destruct acc; [constructor|]. inversion Hacc; assumption.
  - constructor; [|exact Hacc].
    unfold clean. unfold stored in Hc. rewrite He.
    apply Bool.andb_true_iff in Hc. destruct Hc as [-> ->]. reflexivity.
Qed.

Lemma resolve_clean :
  forall p,
    Forall (fun c => stored c = true) (parts p) ->
    root (resolve p) = "/" /\
    Forall (fun c => clean c = true) (parts (resolve p)).
Proof.
  intros p Hp. unfold resolve. cbn [root parts]. split; [reflexivity|].
  apply Forall_rev. apply walk_clean; [|constructor].
  destruct (root p); [|exact Hp].
  apply Forall_app. split; [apply parse_path_stored|exact Hp].
Qed.

Lemma clean_stored :
  forall comps,
    Forall (fun c => clean c = true) comps ->
    Forall (fun c => stored c = true) comps.
Proof.
  intros comps H. eapply Forall_impl; [|exact H].
  intros c Hc. unfold clean in Hc. unfold stored.
  apply Bool.andb_true_iff in Hc. apply Hc.
Qed.

Lemma walk_no_parent :
  forall cs acc,
    Forall (fun c => clean c = true) cs ->
    fold_left walk cs acc = (rev cs ++ acc)%list.
Proof.
  induction cs as [|c cs IH]; intros acc H; cbn; [reflexivity|].
  inversion H as [|? ? Hc Hcs]; subst.
  rewrite IH by exact Hcs.
  unfold walk. unfold clean in Hc.
  apply Bool.andb_true_iff in Hc. destruct Hc as [_ Hc].
  apply Bool.negb_true_iff in Hc. rewrite Hc.
  rewrite <- app_assoc. reflexivity.
Qed.

(** An absolute path of clean components is its own resolved form. *)
Lemma resolve_fixed :
  forall comps,
    Forall (fun c => clean c = true) comps ->
    resolve (mkpath "/" comps) = mkpath "/" comps.
Proof.
  intros comps H. unfold resolve. cbn [root parts].
  rewrite walk_no_parent by exact H.
  rewrite app_nil_r, rev_involutive. reflexivity.
Qed.

Lemma as_posix_absolute :
  forall comps, as_posix (mkpath "/" comps) = String "/" (String.concat "/" comps).
Proof. reflexivity. Qed.

(** The text of a resolved path is normalized to itself. *)
Lemma normalize_resolved :
  forall p,
    Forall (fun c => stored c = true) (parts p) ->
    normalize (VStr (as_posix (resolve p))) = Ok (VStr (as_posix (resolve p))).
Proof.
  intros p Hp.
  destruct (resolve_clean _ Hp) as [Hr Hc].
  destruct (resolve p) as [r comps]. cbn in Hr, Hc. subst r.
  rewrite as_posix_absolute.
  unfold normalize, resolved, Path.
  rewrite (parse_absolute _ (clean_stored _ Hc)).
  cbn [bind]. unfold expanduser. cbn [root bind].
  rewrite (resolve_fixed _ Hc). reflexivity.
Qed.

Lemma Path_stored :
  forall v p, Path v = Ok p -> Forall (fun c => stored c = true) (parts p).
Proof.
  intros v p. destruct v; cbn; try discriminate;
    intros [= <-]; apply parse_path_stored.
Qed.

Lemma normalize_idempotent :
  forall v x, normalize v = Ok x -> normalize x = Ok x.
Proof.
  intros v x. unfold normalize at 1, resolved.
  destruct (Path v) as [p|e] eqn:HP; [|discriminate]. cbn.
  destruct (expanduser p) as [q|e] eqn:Hq; [|discriminate]. cbn.
  intros [= <-]. apply normalize_resolved.
  eapply expanduser_stored; [|exact Hq].
  eapply Path_stored; eauto.
Qed.

(** C8: the Path Normalizer is idempotent: under any key, normalizing the
    result of [convert_path] again gives that result, and a call that
    raises has no result to normalize; the processor of the decoder is the
    same function. *)
Theorem convert_path_idempotent :
  forall (key : string) (v : value),
    (x <- convert_path key v ;; convert_path key x) = convert_path key v
    /\ process key v = convert_path key v.
Proof.
  intros key v. split; [|reflexivity].
  unfold convert_path. destruct (has_path key); [|reflexivity].
  destruct (normalize v) as [x|e] eqn:Hn; [|reflexivity].
  cbn. eapply normalize_idempotent; eauto.
Qed.

(** *** set_attr without a callback *)

(** Without [processor_cb] the loop of [set_attr] sets the values as they
    come: [val] is computed and dropped. *)
Lemma set_attr_loop_raw :
  forall n b data attrs attrs',
    set_attr_loop (Dynamic n b) data None attrs = (attrs', Ok tt) ->
    attrs' = dict_update attrs data.
Proof.
  intros n b data. induction data as [|[k v] data IH]; intros attrs attrs' H.
  - cbn in H. injection H as <-. reflexivity.
  - cbn [set_attr_loop] in H.
    destruct (convert_path k v) as [val|e]; cbn [bind] in H; [|discriminate].
    unfold setattr in H. destruct (is_special k); [discriminate|].
    apply IH in H. exact H.
Qed.

(** *** Decoding a normalized mapping and encoding the tree *)

Lemma dict_set_fresh :
  forall k v d, ~ In k (keys d) -> dict_set k v d = (d ++ [(k, v)])%list.
Proof.
  intros k v d. induction d as [|[k0 v0] d IH]; intros Hn; cbn; [reflexivity|].
  destruct (String.eqb k k0) eqn:He.
  - apply String.eqb_eq in He. subst. exfalso. apply Hn. left. reflexivity.
  - rewrite IH; [reflexivity|]. intros Hc. apply Hn. right. exact Hc.
Qed.

Lemma keys_app :
  forall d e : dict, keys (d ++ e)%list = (keys d ++ keys e)%list.
Proof. intros. unfold keys. apply map_app. Qed.

(** A loop that sets one new key per entry builds the list of its results. *)
Lemma loop_appends :
  forall (f : string -> value -> result value) (loop : dict -> dict -> result dict),
    (forall acc, loop [] acc = Ok acc) ->
    (forall k v d acc,
        loop ((k, v) :: d) acc = (x <- f k v ;; loop d (dict_set k x acc))) ->
    forall d acc out,
      NoDup (keys d) ->
      (forall k, In k (keys d) -> ~ In k (keys acc)) ->
      loop d acc = Ok out ->
      exists xs,
        out = (acc ++ xs)%list /\
        Forall2 (fun kv kx => fst kx = fst kv /\ f (fst kv) (snd kv) = Ok (snd kx))
                d xs.
Proof.
  intros f loop Hnil Hcons d.
  induction d as [|[k v] d IH]; intros acc out Hnd Hfresh H.
  - rewrite Hnil in H. injection H as <-. exists []. rewrite app_nil_r.
    split; [reflexivity|constructor].
  - rewrite Hcons in H.
    destruct (f k v) as [x|e] eqn:Hf; [|discriminate]. cbn in H.
    inversion Hnd as [|? ? Hnot Hnd']; subst.
    rewrite dict_set_fresh in H by (apply Hfresh; left; reflexivity).
    apply IH in H; [|exact Hnd'|].
    + destruct H as (xs & -> & Hall).
      exists ((k, x) :: xs). rewrite <- app_assoc. split; [reflexivity|].
      constructor; [split; [reflexivity|exact Hf]|exact Hall].
    + intros k' Hin. rewrite keys_app, in_app_iff. cbn.
      intros [Hc|[Hc|[]]].
      * apply (Hfresh k'); [right; exact Hin|exact Hc].
      * subst k'. apply Hnot. exact Hin.
Qed.

Lemma path_resolve_item_unfold :
  forall k v,
    path_resolve_item k v
    = match v with
      | VDict d => rv <- path_resolve_items d [] ;; Ok (VDict rv)
      | _ => convert_path k v
      end.
Proof. intros k v. destruct v; reflexivity. Qed.

Lemma to_node_dict :
  forall b k d,
    to_node b k (VDict d)
    = VNode (Dynamic (Str.capitalize k) b)
        (map (fun kv => (fst kv, to_node b (fst kv) (snd kv))) d).
Proof.
  intros b k d. cbn [to_node]. f_equal.
  induction d as [|[k0 v0] d IH]; [reflexivity|].
  cbn [map fst snd]. rewrite <- IH. reflexivity.
Qed.

Lemma distinct_keys_dict :
  forall d,
    distinct_keys (VDict d)
    <-> NoDup (keys d) /\ Forall (fun kv => distinct_keys (snd kv)) d.
Proof.
  intros d. cbn [distinct_keys].
  assert (H : (fix each (d0 : dict) : Prop :=
                 match d0 with
                 | [] => True
                 | (_, v') :: d' => distinct_keys v' /\ each d'
                 end) d
              <-> Forall (fun kv => distinct_keys (snd kv)) d).
  { induction d as [|[k0 v0] d IH].
    - split; intros _; [constructor|exact I].
    - split.
      + intros [H1 H2]. constructor; [exact H1|apply IH; exact H2].
      + intros H. inversion H as [|? ? H1 H2]; subst.
        split; [exact H1|apply IH; exact H2]. }
  split; intros [Hn Hd]; (split; [exact Hn|apply H; exact Hd]).
Qed.

Lemma Forall2_keys :
  forall (R : string -> value -> value -> Prop) (d xs : dict),
    Forall2 (fun kv kx => fst kx = fst kv /\ R (fst kv) (snd kv) (snd kx)) d xs ->
    keys xs = keys d.
Proof.
  intros R d xs H. induction H as [|[k v] [k' x] d xs [Hk _] _ IH];
    [reflexivity|].
  unfold keys in *. cbn in *. f_equal; [exact Hk|exact IH].
Qed.

Lemma normalize_str :
  forall v x, normalize v = Ok x -> exists s, x = VStr s.
Proof.
  intros v x. unfold normalize.
  destruct (resolved v) as [p|e]; [|discriminate].
  cbn. intros [= <-]. eauto.
Qed.

Lemma normalize_node :
  forall c attrs, normalize (VNode c attrs) = Raise TypeError.
Proof. reflexivity. Qed.

Lemma pack_item_plain :
  forall k x,
    (forall d, x <> VDict d) ->
    process k x = Ok x ->
    pack_item BaseConfig process k x = Ok x.
Proof.
  intros k x Hx Hp. rewrite pack_item_unfold.
  destruct x; try (cbn [bind]; rewrite Hp; cbn [bind];
                   match goal with
                   | |- Ok (if ?b then _ else _) = _ => destruct b; reflexivity
                   end).
  exfalso. apply (Hx d). reflexivity.
Qed.

Lemma pack_resolved_plain :
  forall k v x y,
    (forall d, v <> VDict d) ->
    convert_path k v = Ok x ->
    pack_item BaseConfig process k x = Ok y ->
    y = to_node BaseConfig k x /\ distinct_keys x.
Proof.
  intros k v x y Hv Hr Hp.
  assert (Hx : (forall d, x <> VDict d) /\ process k x = Ok x).
  { unfold convert_path in Hr. unfold process.
    destruct (has_path k).
    - destruct (normalize_str _ _ Hr) as [s ->].
      split; [discriminate|]. eapply normalize_idempotent; eauto.
    - injection Hr as <-. split; [exact Hv|reflexivity]. }
  destruct Hx as [Hx Hpx].
  rewrite (pack_item_plain k x Hx Hpx) in Hp. injection Hp as <-.
  destruct x; try (split; [reflexivity|exact I]).
  exfalso. apply (Hx d). reflexivity.
Qed.

(** Decoding the normalized form of a mapping, when it ends normally,
    builds the tree of that form: the processor of [ConfigDecoder] leaves
    every entry as it is. *)
Lemma pack_resolved :
  forall v k x y,
    distinct_keys v ->
    path_resolve_item k v = Ok x ->
    pack_item BaseConfig process k x = Ok y ->
    y = to_node BaseConfig k x /\ distinct_keys x.
Proof.
  intros v. induction v using value_ind'; intros k x y Hd Hr Hp;
    rewrite path_resolve_item_unfold in Hr;
    try (refine (pack_resolved_plain k _ x y _ Hr Hp); intros d0; discriminate).
  (* a mapping *)
  rename H into IH.
  destruct (path_resolve_items d []) as [rv|e] eqn:Hrv; [|discriminate].
  cbn [bind] in Hr. injection Hr as <-.
  apply distinct_keys_dict in Hd. destruct Hd as [Hnd Hsub].
  destruct (loop_appends path_resolve_item path_resolve_items
              (fun acc => eq_refl) (fun k v d acc => eq_refl)
              d [] rv Hnd (fun _ _ Hc => Hc) Hrv) as (xs & Hxs & Hall).
  cbn [app] in Hxs. subst xs.
  pose proof (Forall2_keys (fun k v x => path_resolve_item k v = Ok x) _ _ Hall)
    as Hkeys.
  rewrite pack_item_unfold in Hp. unfold pack_dict in Hp.
  destruct (pack_items BaseConfig process rv []) as [attrs|e] eqn:Hat;
    [|discriminate].
  cbn [bind] in Hp.
  destruct (new_object k BaseConfig attrs) as [n|e] eqn:Hno; [|discriminate].
  apply new_object_Ok in Hno. subst n.
  cbn [bind] in Hp. unfold process in Hp at 1.
  destruct (has_path k); [rewrite normalize_node in Hp; discriminate|].
  cbn [bind truthy] in Hp. injection Hp as <-.
  assert (Hnd' : NoDup (keys rv)) by (rewrite Hkeys; exact Hnd).
  destruct (loop_appends (pack_item BaseConfig process)
              (pack_items BaseConfig process)
              (fun acc => eq_refl) (fun k v d acc => eq_refl)
              rv [] attrs Hnd' (fun _ _ Hc => Hc) Hat) as (ys & Hys & Hall').
  cbn [app] in Hys. subst ys.
  rewrite to_node_dict, distinct_keys_dict.
  clear Hrv Hat Hkeys Hnd.
  revert rv attrs Hall Hall' Hnd'.
  induction IH as [|[k0 v0] d Hv Hrest IHd]; intros rv attrs Hall Hall' Hnd'.
  - inversion Hall; subst. inversion Hall'; subst.
    repeat split; [constructor|constructor].
  - inversion Hsub as [|? ? Hd0 Hsub']; subst.
    inversion Hall as [|? [k1 x1] ? rv' [Hk1 Hx1] Hall1]; subst.
    inversion Hall' as [|? [k2 y2] ? attrs' [Hk2 Hy2] Hall2]; subst.
    cbn [fst snd] in *. subst k1 k2.
    inversion Hnd' as [|? ? Hnot Hnd'']; subst.
    destruct (Hv k0 x1 y2 Hd0 Hx1 Hy2) as [-> Hdx].
    destruct (IHd Hsub' rv' attrs' Hall1 Hall2 Hnd'') as (Heq & _ & Hdrest).
    injection Heq as ->.
    split; [reflexivity|]. split; [exact Hnd'|].
    constructor; [exact Hdx|exact Hdrest].
Qed.

Lemma same_attrs_dict :
  forall d e,
    same_attrs (VDict d) e
    <-> exists ed,
          e = VDict ed /\
          (forall k, is_private k = true -> dict_get k ed = None) /\
          (forall k, dict_get k d = None -> dict_get k ed = None) /\
          Forall (fun kv =>
                    is_private (fst kv) = false ->
                    exists ev, dict_get (fst kv) ed = Some ev /\
                               same_attrs (snd kv) ev) d.
Proof.
  intros d e. cbn [same_attrs].
  assert (H : forall ed,
    (fix each (d0 : dict) : Prop :=
       match d0 with
       | [] => True
       | (k, v) :: d' =>
           (is_private k = false ->
            exists ev, dict_get k ed = Some ev /\ same_attrs v ev)
           /\ each d'
       end) d
    <-> Forall (fun kv =>
                  is_private (fst kv) = false ->
                  exists ev, dict_get (fst kv) ed = Some ev /\
                             same_attrs (snd kv) ev) d).
  { intros ed. induction d as [|[k0 v0] d IH].
    - split; intros _; [constructor|exact I].
    - split.
      + intros [H1 H2]. constructor; [exact H1|apply IH; exact H2].
      + intros H. inversion H as [|? ? H1 H2]; subst.
        split; [exact H1|apply IH; exact H2]. }
  split; intros (ed & He & Hp & Hn & Hd); exists ed;
    (split; [exact He|split; [exact Hp|split; [exact Hn|apply H; exact Hd]]]).
Qed.

Lemma dict_get_map_keyed :
  forall (f : string -> value -> value) k d,
    dict_get k (map (fun kv => (fst kv, f (fst kv) (snd kv))) d)
    = option_map (f k) (dict_get k d).
Proof.
  intros f k d. induction d as [|[k0 v0] d IH]; cbn; [reflexivity|].
  destruct (String.eqb k k0) eqn:He; [|exact IH].
  apply String.eqb_eq in He. subst. reflexivity.
Qed.

Lemma dict_get_first :
  forall k v d,
    NoDup (keys d) -> In (k, v) d -> dict_get k d = Some v.
Proof.
  intros k v d. induction d as [|[k0 v0] d IH]; intros Hnd Hin; [destruct Hin|].
  inversion Hnd as [|? ? Hnot Hnd']; subst. cbn.
  destruct Hin as [Heq|Hin].
  - injection Heq as -> ->. rewrite String.eqb_refl. reflexivity.
  - destruct (String.eqb k k0) eqn:He; [|apply IH; assumption].
    apply String.eqb_eq in He. subst. exfalso. apply Hnot.
    change k0 with (fst (k0, v)). apply in_map. exact Hin.
Qed.

Lemma to_node_plain :
  forall b k v, json_ok v = true -> isroutine (to_node b k v) = false.
Proof. intros b k v H. destruct v; try reflexivity; discriminate. Qed.

(** Encoding the tree of a mapping gives back its attributes. *)
Lemma encode_tree :
  forall v bs k,
    distinct_keys v -> json_ok v = true ->
    same_attrs v (encode_value (to_node bs k v)).
Proof.
  intros v. induction v using value_ind'; intros bs k Hd Hj;
    try reflexivity; try discriminate.
  rename H into IH.
  rewrite to_node_dict. unfold encode_value. cbn [has_dict].
  rewrite process_cls_unfold.
  set (c := Dynamic (Str.capitalize k) bs).
  set (attrs := map (fun kv => (fst kv, to_node bs (fst kv) (snd kv))) d).
  apply distinct_keys_dict in Hd. destruct Hd as [Hnd Hsub].
  rewrite json_ok_dict in Hj.
  assert (Hattrs : forall k0,
            dict_get k0 attrs = option_map (to_node bs k0) (dict_get k0 d)).
  { intros k0. unfold attrs. apply (dict_get_map_keyed (to_node bs)). }
  apply same_attrs_dict.
  exists (map_values encode_value (public_members c attrs)).
  split; [reflexivity|]. split; [|split].
  - intros k0 Hp. rewrite dict_get_map_values.
    destruct (dict_get k0 (public_members c attrs)) as [x|] eqn:Hg;
      [|reflexivity].
    apply public_members_sound in Hg. destruct Hg as (_ & _ & Hq).
    rewrite Hq in Hp. discriminate.
  - intros k0 Hnone. rewrite dict_get_map_values.
    destruct (dict_get k0 (public_members c attrs)) as [x|] eqn:Hg;
      [|reflexivity].
    apply public_members_sound in Hg. destruct Hg as (Hg & _).
    unfold c in Hg. cbn [getattr] in Hg.
    rewrite Hattrs, Hnone in Hg. discriminate.
  - rewrite Forall_forall in *. intros [k0 v0] Hin Hp. cbn [fst snd] in *.
    pose proof (dict_get_first k0 v0 d Hnd Hin) as Hg0.
    assert (Hga : getattr c attrs k0 = Ok (to_node bs k0 v0)).
    { unfold c. cbn [getattr]. rewrite Hattrs, Hg0. reflexivity. }
    rewrite forallb_forall in Hj.
    pose proof (Hj (k0, v0) Hin) as Hj0. cbn [snd] in Hj0.
    exists (encode_value (to_node bs k0 v0)). split.
    + rewrite dict_get_map_values.
      rewrite (dict_get_public_members c attrs k0 _ Hga).
      unfold member_of. rewrite Hga, (to_node_plain bs k0 v0 Hj0), Hp.
      reflexivity.
    + apply (IH (k0, v0) Hin bs k0); [|exact Hj0].
      apply (Hsub (k0, v0) Hin).
Qed.

Lemma json_ok_resolved :
  forall v k x,
    distinct_keys v -> json_ok v = true ->
    path_resolve_item k v = Ok x -> json_ok x = true.
Proof.
  intros v. induction v using value_ind'; intros k x Hd Hj Hr;
    rewrite path_resolve_item_unfold in Hr;
    try discriminate;
    try (unfold convert_path in Hr; destruct (has_path k);
         [destruct (normalize_str _ _ Hr) as [s0 ->]; reflexivity
         |injection Hr as <-; exact Hj]).
  rename H into IH.
  destruct (path_resolve_items d []) as [rv|e] eqn:Hrv; [|discriminate].
  cbn [bind] in Hr. injection Hr as <-.
  apply distinct_keys_dict in Hd. destruct Hd as [Hnd Hsub].
  destruct (loop_appends path_resolve_item path_resolve_items
              (fun acc => eq_refl) (fun k v d acc => eq_refl)
              d [] rv Hnd (fun _ _ Hc => Hc) Hrv) as (xs & Hxs & Hall).
  cbn [app] in Hxs. subst xs.
  rewrite json_ok_dict in *. clear Hrv Hnd.
  induction Hall as [|[k0 v0] [k1 x1] d rv [_ Hx] _ IHall]; [reflexivity|].
  cbn [forallb fst snd] in *.
  apply Bool.andb_true_iff in Hj. destruct Hj as [Hj0 Hj].
  inversion IH as [|? ? Hv IH']; subst.
  inversion Hsub as [|? ? Hd0 Hsub']; subst.
  rewrite (Hv k0 x1 Hd0 Hj0 Hx). cbn [andb].
  apply IHall; assumption.
Qed.

(** X23: the round trip of the transcoder, for every mapping whose
    normalized form the decoder accepts: encoding the decoded tree gives the
    attributes of the normalized form, name for name, nested mappings
    included, the private names left aside. *)
Theorem round_trip_when_decoded :
  forall (m m' : dict) (n : value),
    distinct_keys (VDict m) ->
    json_ok (VDict m) = true ->
    path_resolve (VDict m) = Ok (VDict m') ->
    pack_dict BaseConfig process m' EmptyString = Ok n ->
    same_attrs (VDict m') (process_cls n).
Proof.
  intros m m' n Hd Hj Hr Hp.
  assert (Hr' : path_resolve_item EmptyString (VDict m) = Ok (VDict m')).
  { rewrite path_resolve_item_unfold. exact Hr. }
  assert (Hp' : pack_item BaseConfig process EmptyString (VDict m') = Ok n).
  { rewrite pack_item_unfold. rewrite Hp. cbn [bind].
    unfold pack_dict in Hp.
    destruct (pack_items BaseConfig process m' []) as [attrs|e]; [|discriminate].
    cbn [bind] in Hp. apply new_object_Ok in Hp. subst n. reflexivity. }
  destruct (pack_resolved _ _ _ _ Hd Hr' Hp') as [-> Hd'].
  pose proof (json_ok_resolved _ _ _ Hd Hj Hr') as Hj'.
  exact (encode_tree (VDict m') BaseConfig EmptyString Hd' Hj').
Qed.

(** *** More on the Path Normalizer and [path_resolve] *)

(** X1: under a key that contains ["path"] the normalizer, when it ends
    normally, gives the text of an absolute path: a ["/"] followed by
    components joined by ["/"], none of them empty, ["."] or [".."]. *)
Theorem convert_path_absolute :
  forall (key : string) (v x : value),
    has_path key = true ->
    convert_path key v = Ok x ->
    exists comps,
      x = VStr (String "/" (String.concat "/" comps)) /\
      Forall (fun c => clean c = true) comps.
Proof.
  intros key v x Hk H. unfold convert_path in H. rewrite Hk in H.
  unfold normalize, resolved in H.
  destruct (Path v) as [p|e] eqn:HP; [|discriminate]. cbn [bind] in H.
  destruct (expanduser p) as [q|e] eqn:Hq; [|discriminate]. cbn [bind] in H.
  injection H as <-.
  assert (Hs : Forall (fun c => stored c = true) (parts q)).
  { eapply expanduser_stored; [|exact Hq]. eapply Path_stored; eauto. }
  destruct (resolve_clean _ Hs) as [Hr Hc].
  destruct (resolve q) as [r comps]. cbn in Hr, Hc. subst r.
  exists comps. split; [reflexivity|exact Hc].
Qed.

(** The converse of [loop_appends]: a loop over distinct new keys whose
    entries all succeed returns the list of the results. *)
Lemma loop_builds :
  forall (f : string -> value -> result value) (loop : dict -> dict -> result dict),
    (forall acc, loop [] acc = Ok acc) ->
    (forall k v d acc,
        loop ((k, v) :: d) acc = (x <- f k v ;; loop d (dict_set k x acc))) ->
    forall d xs acc,
      NoDup (keys d) ->
      (forall k, In k (keys d) -> ~ In k (keys acc)) ->
      Forall2 (fun kv kx => fst kx = fst kv /\ f (fst kv) (snd kv) = Ok (snd kx))
              d xs ->
      loop d acc = Ok (acc ++ xs)%list.
Proof.
  intros f loop Hnil Hcons d xs acc Hnd Hfresh Hall. revert acc Hnd Hfresh.
  induction Hall as [|[k v] [k' x] d xs [Hk Hf] _ IH]; intros acc Hnd Hfresh.
  - rewrite Hnil, app_nil_r. reflexivity.
  - cbn [fst snd] in *. subst k'.
    rewrite Hcons, Hf. cbn [bind].
    inversion Hnd as [|? ? Hnot Hnd']; subst.
    rewrite dict_set_fresh by (apply Hfresh; left; reflexivity).
    rewrite IH; [rewrite <- app_assoc; reflexivity|exact Hnd'|].
    intros k' Hin. rewrite keys_app, in_app_iff. cbn.
    intros [Hc|[Hc|[]]].
    + apply (Hfresh k'); [right; exact Hin|exact Hc].
    + subst k'. apply Hnot. exact Hin.
Qed.

Lemma path_resolve_item_idempotent :
  forall v k x,
    distinct_keys v ->
    path_resolve_item k v = Ok x ->
    path_resolve_item k x = Ok x.
Proof.
  intros v. induction v using value_ind'; intros k x Hd Hr;
    rewrite path_resolve_item_unfold in Hr;
    try (unfold convert_path in Hr; destruct (has_path k) eqn:Hk;
         [ destruct (normalize_str _ _ Hr) as [s0 ->];
           rewrite path_resolve_item_unfold; unfold convert_path; rewrite Hk;
           eapply normalize_idempotent; exact Hr
         | injection Hr as <-;
           rewrite path_resolve_item_unfold; unfold convert_path; rewrite Hk;
           reflexivity ]).
  rename H into IH.
  destruct (path_resolve_items d []) as [rv|e] eqn:Hrv; [|discriminate].
  cbn [bind] in Hr. injection Hr as <-.
  apply distinct_keys_dict in Hd. destruct Hd as [Hnd Hsub].
  destruct (loop_appends path_resolve_item path_resolve_items
              (fun acc => eq_refl) (fun k v d acc => eq_refl)
              d [] rv Hnd (fun _ _ Hc => Hc) Hrv) as (xs & Hxs & Hall).
  cbn [app] in Hxs. subst xs.
  pose proof (Forall2_keys (fun k v x => path_resolve_item k v = Ok x) _ _ Hall)
    as Hkeys.
  rewrite path_resolve_item_unfold.
  rewrite (loop_builds path_resolve_item path_resolve_items
             (fun acc => eq_refl) (fun k v d acc => eq_refl) rv rv []);
    [reflexivity| rewrite Hkeys; exact Hnd | intros ? ? Hc; exact Hc |].
  clear Hrv Hkeys Hnd.
  induction Hall as [|[k0 v0] [k1 x1] d rv [Hk Hx] _ IHall]; [constructor|].
  cbn [fst snd] in *. subst k1.
  inversion IH as [|? ? Hv IH']; subst.
  inversion Hsub as [|? ? Hd0 Hsub']; subst.
  constructor; [|apply IHall; assumption].
  cbn [fst snd]. split; [reflexivity|].
  apply (Hv k0 x1 Hd0 Hx).
Qed.

(** X2: [path_resolve] is idempotent: the mapping it returns is resolved to
    itself. *)
Theorem path_resolve_idempotent :
  forall (m : dict) (x : value),
    distinct_keys (VDict m) ->
    path_resolve (VDict m) = Ok x ->
    path_resolve x = Ok x.
Proof.
  intros m x Hd Hr.
  assert (Hi : path_resolve_item EmptyString (VDict m) = Ok x).
  { rewrite path_resolve_item_unfold. exact Hr. }
  pose proof (path_resolve_item_idempotent _ _ _ Hd Hi) as H.
  rewrite path_resolve_item_unfold in H.
  cbn [path_resolve] in Hr.
  destruct (path_resolve_items m []) as [rv|e]; [|discriminate].
  cbn [bind] in Hr. injection Hr as <-. exact H.
Qed.

Lemma Forall2_get :
  forall (f : string -> value -> result value) (d xs : dict) k v,
    Forall2 (fun kv kx => fst kx = fst kv /\ f (fst kv) (snd kv) = Ok (snd kx))
            d xs ->
    dict_get k d = Some v ->
    exists x, dict_get k xs = Some x /\ f k v = Ok x.
Proof.
  intros f d xs k v H. induction H as [|[k0 v0] [k1 x1] d xs [Hk Hf] _ IH];
    intros Hg; [discriminate|].
  cbn [fst snd] in *. subst k1. cbn [dict_get] in *.
  destruct (String.eqb k k0) eqn:He; [|apply IH; exact Hg].
  apply String.eqb_eq in He. subst k0. injection Hg as <-. eauto.
Qed.

(** X3: [path_resolve] keeps the keys of the mapping in their order; an
    entry that is not a mapping is replaced by what [convert_path] gives
    for it (itself, when the key does not contain ["path"]), and a mapping
    by its own resolved form, whatever its key. *)
Theorem path_resolve_entries :
  forall (m m' : dict),
    NoDup (keys m) ->
    path_resolve (VDict m) = Ok (VDict m') ->
    keys m' = keys m
    /\ (forall k v,
           dict_get k m = Some v -> (forall d, v <> VDict d) ->
           exists x, dict_get k m' = Some x /\ convert_path k v = Ok x)
    /\ (forall k v,
           dict_get k m = Some v -> (forall d, v <> VDict d) ->
           has_path k = false -> dict_get k m' = Some v)
    /\ (forall k d,
           dict_get k m = Some (VDict d) ->
           exists x, dict_get k m' = Some x /\ path_resolve (VDict d) = Ok x).
Proof.
  intros m m' Hnd Hr. cbn [path_resolve] in Hr.
  destruct (path_resolve_items m []) as [rv|e] eqn:Hrv; [|discriminate].
  cbn [bind] in Hr. injection Hr as <-.
  destruct (loop_appends path_resolve_item path_resolve_items
              (fun acc => eq_refl) (fun k v d acc => eq_refl)
              m [] rv Hnd (fun _ _ Hc => Hc) Hrv) as (xs & Hxs & Hall).
  cbn [app] in Hxs. subst xs.
  assert (Hplain : forall k v,
            dict_get k m = Some v -> (forall d, v <> VDict d) ->
            exists x, dict_get k rv = Some x /\ convert_path k v = Ok x).
  { intros k v Hg Hv.
    destruct (Forall2_get path_resolve_item _ _ k v Hall Hg) as (x & Hx & Hf).
    exists x. split; [exact Hx|].
    rewrite path_resolve_item_unfold in Hf.
    destruct v; try exact Hf. exfalso. apply (Hv d). reflexivity. }
  split; [|split; [|split]].
  - apply (Forall2_keys (fun k v x => path_resolve_item k v = Ok x) _ _ Hall).
  - exact Hplain.
  - intros k v Hg Hv Hk.
    destruct (Hplain k v Hg Hv) as (x & Hx & Hc).
    unfold convert_path in Hc. rewrite Hk in Hc. injection Hc as <-. exact Hx.
  - intros k d Hg.
    destruct (Forall2_get path_resolve_item _ _ k _ Hall Hg) as (x & Hx & Hf).
    exists x. split; [exact Hx|].
    rewrite path_resolve_item_unfold in Hf. exact Hf.
Qed.

(** *** The default decoder and the encoder *)

Lemma to_node_opaque :
  forall b k v, nameable k v = true -> is_opaque (to_node b k v) = false.
Proof. intros b k v H. destruct v; try reflexivity; discriminate. Qed.

Lemma plain_attrs_tree :
  forall b d,
    constructible b (VDict d) = true ->
    plain_attrs b (map (fun kv => (fst kv, to_node b (fst kv) (snd kv))) d)
    = true.
Proof.
  intros b d. rewrite constructible_dict. unfold plain_attrs.
  induction d as [|[k v] d IH]; intros H; [reflexivity|].
  cbn [forallb map fst snd] in *.
  apply Bool.andb_true_iff in H. destruct H as [H0 H].
  apply Bool.andb_true_iff in H0. destruct H0 as [H0 _].
  apply Bool.andb_true_iff in H0. destruct H0 as [Hk Hn].
  rewrite Hk, (to_node_opaque b k v Hn), (IH H). reflexivity.
Qed.

Lemma pack_item_default :
  forall v bs k,
    distinct_keys v ->
    nameable k v = true ->
    constructible bs v = true ->
    pack_item bs default_processor k v = Ok (to_node bs k v).
Proof.
  intros v. induction v using value_ind'; intros bs k Hd Hn Hc;
    try (rewrite pack_item_unfold; cbn [bind default_processor to_node];
         match goal with
         | |- Ok (if ?c then _ else _) = _ => destruct c; reflexivity
         end).
  rename H into IH.
  apply distinct_keys_dict in Hd. destruct Hd as [Hnd Hsub].
  rewrite pack_item_unfold, to_node_dict. unfold pack_dict.
  rewrite (loop_builds (pack_item bs default_processor)
             (pack_items bs default_processor)
             (fun acc => eq_refl) (fun k v d acc => eq_refl) d
             (map (fun kv => (fst kv, to_node bs (fst kv) (snd kv))) d) []
             Hnd (fun _ _ Hc => Hc)).
  - cbn [bind app nameable] in *.
    rewrite (new_object_plain k bs _ Hn (plain_attrs_tree bs d Hc)).
    reflexivity.
  - rewrite constructible_dict in Hc. clear Hnd Hn.
    induction IH as [|[k0 v0] d Hv _ IHd]; [constructor|].
    inversion Hsub as [|? ? Hd0 Hsub']; subst.
    cbn [forallb fst snd] in Hc.
    apply Bool.andb_true_iff in Hc. destruct Hc as [H0 Hc].
    apply Bool.andb_true_iff in H0. destruct H0 as [H0 Hc0].
    apply Bool.andb_true_iff in H0. destruct H0 as [_ Hn0].
    cbn [map fst snd]. constructor; [|apply IHd; assumption].
    cbn [fst snd]. split; [reflexivity|]. apply Hv; assumption.
Qed.

Lemma public_members_In :
  forall c attrs k x,
    In (k, x) (public_members c attrs) -> getattr c attrs k = Ok x.
Proof.
  intros c attrs k x. unfold public_members.
  induction (dir c attrs) as [|n names IH]; [intros []|].
  cbn [flat_map]. rewrite in_app_iff. intros [H|H]; [|apply IH; exact H].
  destruct (getattr c attrs n) as [v|e] eqn:Hg; [|destruct H].
  destruct (negb (isroutine v) && negb (is_private n)); [|destruct H].
  destruct H as [H|[]]. injection H as <- <-. exact Hg.
Qed.

(** The encoded form of a decoded JSON mapping is JSON again. *)
Lemma encode_tree_json :
  forall v bs k,
    json_ok v = true -> json_ok (encode_value (to_node bs k v)) = true.
Proof.
  intros v. induction v using value_ind'; intros bs k Hj;
    try exact Hj; try discriminate.
  rename H into IH.
  rewrite to_node_dict. unfold encode_value. cbn [has_dict].
  rewrite process_cls_unfold, json_ok_dict.
  rewrite json_ok_dict in Hj.
  apply forallb_forall. intros [k0 y] Hin. cbn [snd].
  unfold map_values in Hin. apply in_map_iff in Hin.
  destruct Hin as ([k1 x] & Heq & Hin). cbn [fst snd] in Heq.
  injection Heq as -> <-.
  apply public_members_In in Hin. cbn [getattr] in Hin.
  destruct (dict_get k0 _) as [x'|] eqn:Hg; [|discriminate].
  injection Hin as ->.
  apply dict_get_In in Hg. apply in_map_iff in Hg.
  destruct Hg as ([k2 v2] & Heq & Hin). cbn [fst snd] in Heq.
  injection Heq as -> <-.
  rewrite Forall_forall in IH. rewrite forallb_forall in Hj.
  apply (IH (k0, v2) Hin bs k0). apply (Hj (k0, v2) Hin).
Qed.

(** X4: the default decoder and the encoder are inverse on JSON, for the
    mappings the decoder makes plain objects of.  For a mapping of JSON
    values with distinct keys, in which no key is a special name [__x__] or
    ["update"] (which the [__init__] of [BaseObject] calls), and the keys of
    the nested mappings, like [parent], are names [type] takes (ASCII, no
    NUL), [pack_dict] ends normally, [iterencode] of the tree ends
    normally, and what it writes has the attributes of the mapping. *)
Theorem default_round_trip :
  forall (d : dict) (parent : string),
    distinct_keys (VDict d) ->
    json_ok (VDict d) = true ->
    constructible default_bases (VDict d) = true ->
    class_name_ok parent = true ->
    exists n,
      pack_dict default_bases default_processor d parent = Ok n /\
      iterencode n = Ok (process_cls n) /\
      same_attrs (VDict d) (process_cls n).
Proof.
  intros d parent Hd Hj Hc Hparent.
  pose proof (pack_item_default (VDict d) default_bases parent Hd Hparent Hc)
    as Hp.
  rewrite pack_item_unfold in Hp.
  destruct (pack_dict default_bases default_processor d parent) as [n|e] eqn:Hn;
    [|discriminate].
  cbn [bind default_processor] in Hp.
  assert (Hn' : n = to_node default_bases parent (VDict d)).
  { destruct (truthy n); injection Hp as Hq; exact Hq. }
  exists n. split; [reflexivity|]. subst n. split.
  - unfold iterencode.
    pose proof (encode_tree_json (VDict d) default_bases parent Hj) as He.
    change (json_ok (process_cls (to_node default_bases parent (VDict d)))
            = true) in He.
    rewrite He. reflexivity.
  - exact (encode_tree (VDict d) default_bases parent Hd Hj).
Qed.

(** *** When the decoder of the store accepts a mapping *)

Lemma no_mapping_under_path_dict :
  forall d,
    no_mapping_under_path (VDict d)
    = forallb (fun kv => entry_ok (fst kv) (snd kv)) d.
Proof.
  intros d. cbn [no_mapping_under_path].
  induction d as [|[k x] d IH]; [reflexivity|].
  cbn [forallb fst snd]. rewrite <- IH. reflexivity.
Qed.

Lemma distinct_resolved :
  forall v k x,
    distinct_keys v -> path_resolve_item k v = Ok x -> distinct_keys x.
Proof.
  intros v. induction v using value_ind'; intros k x Hd Hr;
    rewrite path_resolve_item_unfold in Hr;
    try (unfold convert_path in Hr; destruct (has_path k);
         [destruct (normalize_str _ _ Hr) as [s0 ->]; exact I
         |injection Hr as <-; exact I]).
  rename H into IH.
  destruct (path_resolve_items d []) as [rv|e] eqn:Hrv; [|discriminate].
  cbn [bind] in Hr. injection Hr as <-.
  apply distinct_keys_dict in Hd. destruct Hd as [Hnd Hsub].
  destruct (loop_appends path_resolve_item path_resolve_items
              (fun acc => eq_refl) (fun k v d acc => eq_refl)
              d [] rv Hnd (fun _ _ Hc => Hc) Hrv) as (xs & Hxs & Hall).
  cbn [app] in Hxs. subst xs.
  apply distinct_keys_dict. split.
  - rewrite (Forall2_keys (fun k v x => path_resolve_item k v = Ok x) _ _ Hall).
    exact Hnd.
  - clear Hrv Hnd.
    induction Hall as [|[k0 v0] [k1 x1] d rv [_ Hx] _ IHall]; [constructor|].
    cbn [fst snd] in *.
    inversion IH as [|? ? Hv IH']; subst.
    inversion Hsub as [|? ? Hd0 Hsub']; subst.
    constructor; [exact (Hv k0 x1 Hd0 Hx)|apply IHall; assumption].
Qed.

Lemma Forall2_diag :
  forall (A : Type) (R : A -> A -> Prop) (l : list A),
    Forall2 R l l -> Forall (fun a => R a a) l.
Proof.
  intros A R l. induction l as [|a l IH]; intros H; [constructor|].
  inversion H; subst. constructor; [assumption|apply IH; assumption].
Qed.

Lemma process_node :
  forall k c attrs,
    process k (VNode c attrs)
    = if has_path k then Raise TypeError else Ok (VNode c attrs).
Proof. intros. unfold process. destruct (has_path k); reflexivity. Qed.

Lemma process_opaque :
  forall k v r, process k v = Ok r -> is_opaque v = false -> is_opaque r = false.
Proof.
  intros k v r H Hv. unfold process in H. destruct (has_path k).
  - destruct (normalize_str _ _ H) as [s ->]. reflexivity.
  - injection H as <-. exact Hv.
Qed.

Lemma pack_item_opaque :
  forall k x y,
    pack_item BaseConfig process k x = Ok y ->
    nameable k x = true -> is_opaque y = false.
Proof.
  intros k x y H Hn. rewrite pack_item_unfold in H.
  assert (Hv : exists v1,
            match x with
            | VDict d => pack_dict BaseConfig process d k
            | _ => Ok x
            end = Ok v1 /\ is_opaque v1 = false).
  { destruct x; try discriminate; try (eexists; split; reflexivity).
    destruct (pack_dict BaseConfig process d k) as [n|e] eqn:Hp;
      [|discriminate].
    exists n. split; [reflexivity|]. unfold pack_dict in Hp.
    destruct (pack_items BaseConfig process d []); [|discriminate].
    cbn [bind] in Hp. apply new_object_Ok in Hp. subst n. reflexivity. }
  destruct Hv as (v1 & Hv1 & Hop). rewrite Hv1 in H. cbn [bind] in H.
  destruct (process k v1) as [r|e] eqn:Hr; [|discriminate].
  cbn [bind] in H. injection H as <-.
  destruct (truthy r); [exact (process_opaque _ _ _ Hr Hop)|exact Hop].
Qed.

(** What the decoder of the store builds from a constructible mapping is a
    plain namespace. *)
Lemma plain_attrs_packed :
  forall d ys,
    constructible BaseConfig (VDict d) = true ->
    Forall2 (fun kv kx => fst kx = fst kv /\
               pack_item BaseConfig process (fst kv) (snd kv) = Ok (snd kx))
            d ys ->
    plain_attrs BaseConfig ys = true.
Proof.
  intros d ys Hc Hall. rewrite constructible_dict in Hc. unfold plain_attrs.
  induction Hall as [|[k v] [k' y] d ys [Hk Hy] _ IH]; [reflexivity|].
  cbn [forallb fst snd] in *. subst k'.
  apply Bool.andb_true_iff in Hc. destruct Hc as [H0 Hc].
  apply Bool.andb_true_iff in H0. destruct H0 as [H0 _].
  apply Bool.andb_true_iff in H0. destruct H0 as [Hk Hn].
  rewrite Hk, (pack_item_opaque k v y Hy Hn), (IH Hc). reflexivity.
Qed.

(** A constructible mapping that is its own resolved form is decoded
    exactly when no mapping sits under a key that contains ["path"]. *)
Lemma pack_fixed :
  forall x k,
    distinct_keys x ->
    nameable k x = true ->
    constructible BaseConfig x = true ->
    path_resolve_item k x = Ok x ->
    ((exists y, pack_item BaseConfig process k x = Ok y)
     <-> entry_ok k x = true).
Proof.
  intros x. induction x using value_ind'; intros k Hd Hn Hc Hr;
    try (split; [reflexivity|]; intros _;
         rewrite path_resolve_item_unfold in Hr;
         eexists; apply pack_item_plain; [intros d0; discriminate|exact Hr]).
  rename H into IH. cbn [nameable] in Hn.
  rewrite path_resolve_item_unfold in Hr.
  destruct (path_resolve_items d []) as [rv|e] eqn:Hrv; [|discriminate].
  cbn [bind] in Hr. injection Hr as ->.
  apply distinct_keys_dict in Hd. destruct Hd as [Hnd Hsub].
  destruct (loop_appends path_resolve_item path_resolve_items
              (fun acc => eq_refl) (fun k v d acc => eq_refl)
              d [] d Hnd (fun _ _ Hc => Hc) Hrv) as (xs & Hxs & Hall).
  cbn [app] in Hxs. subst xs.
  apply Forall2_diag in Hall.
  assert (Hent : forall kv, In kv d ->
            ((exists y, pack_item BaseConfig process (fst kv) (snd kv) = Ok y)
             <-> entry_ok (fst kv) (snd kv) = true)).
  { intros kv Hin. rewrite Forall_forall in IH, Hsub, Hall.
    pose proof Hc as Hc'. rewrite constructible_dict in Hc'.
    rewrite forallb_forall in Hc'. specialize (Hc' kv Hin).
    apply Bool.andb_true_iff in Hc'. destruct Hc' as [H0 Hc0].
    apply Bool.andb_true_iff in H0. destruct H0 as [_ Hn0].
    apply (IH kv Hin);
      [apply (Hsub kv Hin)|exact Hn0|exact Hc0|apply (Hall kv Hin)]. }
  clear IH Hall Hrv.
  unfold entry_ok. rewrite no_mapping_under_path_dict.
  rewrite pack_item_unfold. unfold pack_dict. split.
  - intros [y Hy].
    destruct (pack_items BaseConfig process d []) as [attrs|e] eqn:Hat;
      [|discriminate].
    cbn [bind] in Hy.
    destruct (new_object k BaseConfig attrs) as [n|e] eqn:Hno; [|discriminate].
    apply new_object_Ok in Hno. subst n.
    cbn [bind] in Hy. rewrite process_node in Hy.
    destruct (has_path k); [discriminate|]. cbn [negb andb].
    destruct (loop_appends (pack_item BaseConfig process)
                (pack_items BaseConfig process)
                (fun acc => eq_refl) (fun k v d acc => eq_refl)
                d [] attrs Hnd (fun _ _ Hc => Hc) Hat) as (ys & _ & Hall).
    apply forallb_forall. intros kv Hin. apply (Hent kv Hin).
    clear Hat Hy Hent Hnd Hsub Hc.
    induction Hall as [|kv0 ky d ys [_ Hf] _ IHall]; [destruct Hin|].
    destruct Hin as [<-|Hin]; [eauto|apply IHall; exact Hin].
  - intros H. apply Bool.andb_true_iff in H. destruct H as [Hk Hall].
    apply Bool.negb_true_iff in Hk.
    assert (Hys : exists ys,
              Forall2 (fun kv kx => fst kx = fst kv /\
                         pack_item BaseConfig process (fst kv) (snd kv)
                         = Ok (snd kx)) d ys).
    { rewrite forallb_forall in Hall. clear Hnd Hsub Hc.
      induction d as [|kv d IHd]; [exists []; constructor|].
      destruct IHd as [ys Hys].
      - intros kv' Hin. apply Hent. right. exact Hin.
      - intros kv' Hin. apply Hall. right. exact Hin.
      - destruct (proj2 (Hent kv (or_introl eq_refl))
                    (Hall kv (or_introl eq_refl))) as [y Hy].
        exists ((fst kv, y) :: ys). constructor; [|exact Hys].
        split; [reflexivity|exact Hy]. }
    destruct Hys as [ys Hys].
    rewrite (loop_builds (pack_item BaseConfig process)
               (pack_items BaseConfig process)
               (fun acc => eq_refl) (fun k v d acc => eq_refl)
               d ys [] Hnd (fun _ _ Hc => Hc) Hys).
    cbn [bind app nameable] in *.
    rewrite (new_object_plain k BaseConfig ys Hn (plain_attrs_packed d ys Hc Hys)).
    cbn [bind]. rewrite process_node, Hk. cbn [bind]. eauto.
Qed.

Lemma nameable_resolved :
  forall k v x,
    path_resolve_item k v = Ok x -> nameable k v = true -> nameable k x = true.
Proof.
  intros k v x Hr Hn. rewrite path_resolve_item_unfold in Hr.
  destruct v; try discriminate;
    try (unfold convert_path in Hr; destruct (has_path k);
         [destruct (normalize_str _ _ Hr) as [s0 ->]; reflexivity
         |injection Hr as <-; exact Hn]).
  destruct (path_resolve_items d []); [|discriminate].
  injection Hr as <-. exact Hn.
Qed.

(** [path_resolve] keeps a constructible mapping constructible. *)
Lemma constructible_resolved :
  forall v k x bs,
    distinct_keys v -> constructible bs v = true ->
    path_resolve_item k v = Ok x -> constructible bs x = true.
Proof.
  intros v. induction v using value_ind'; intros k x bs Hd Hc Hr;
    rewrite path_resolve_item_unfold in Hr;
    try (unfold convert_path in Hr; destruct (has_path k);
         [destruct (normalize_str _ _ Hr) as [s0 ->]; reflexivity
         |injection Hr as <-; reflexivity]).
  rename H into IH.
  destruct (path_resolve_items d []) as [rv|e] eqn:Hrv; [|discriminate].
  cbn [bind] in Hr. injection Hr as <-.
  apply distinct_keys_dict in Hd. destruct Hd as [Hnd Hsub].
  destruct (loop_appends path_resolve_item path_resolve_items
              (fun acc => eq_refl) (fun k v d acc => eq_refl)
              d [] rv Hnd (fun _ _ Hc => Hc) Hrv) as (xs & Hxs & Hall).
  cbn [app] in Hxs. subst xs.
  rewrite constructible_dict in *. clear Hrv Hnd.
  induction Hall as [|[k0 v0] [k1 x1] d rv [Hk Hx] _ IHall]; [reflexivity|].
  cbn [forallb fst snd] in *. subst k1.
  apply Bool.andb_true_iff in Hc. destruct Hc as [H0 Hc].
  apply Bool.andb_true_iff in H0. destruct H0 as [H0 Hc0].
  apply Bool.andb_true_iff in H0. destruct H0 as [Hk0 Hn0].
  inversion IH as [|? ? Hv IH']; subst.
  inversion Hsub as [|? ? Hd0 Hsub']; subst.
  rewrite Hk0, (nameable_resolved k0 v0 x1 Hx Hn0), (Hv k0 x1 bs Hd0 Hc0 Hx).
  cbn [andb]. apply IHall; assumption.
Qed.

(** X5: the decoder of the store accepts the normalized form of a mapping
    exactly when no mapping sits under a key that contains ["path"], for
    the mappings it makes plain objects of: no key is a special name
    [__x__], no value is outside JSON and the model, and the keys of the
    nested mappings are names [type] takes (ASCII, no NUL). *)
Theorem decoder_accepts_iff :
  forall (m m' : dict),
    distinct_keys (VDict m) ->
    constructible BaseConfig (VDict m) = true ->
    path_resolve (VDict m) = Ok (VDict m') ->
    ((exists n, pack_dict BaseConfig process m' EmptyString = Ok n)
     <-> no_mapping_under_path (VDict m') = true).
Proof.
  intros m m' Hd Hc Hr.
  assert (Hi : path_resolve_item EmptyString (VDict m) = Ok (VDict m')).
  { rewrite path_resolve_item_unfold. exact Hr. }
  pose proof (distinct_resolved _ _ _ Hd Hi) as Hd'.
  pose proof (constructible_resolved _ _ _ BaseConfig Hd Hc Hi) as Hc'.
  pose proof (path_resolve_item_idempotent _ _ _ Hd Hi) as Hfix.
  pose proof (pack_fixed (VDict m') EmptyString Hd' eq_refl Hc' Hfix) as H.
  unfold entry_ok in H. cbn [has_path Str.contains String.prefix negb andb] in H.
  rewrite <- H. rewrite pack_item_unfold. split.
  - intros [n Hn]. rewrite Hn. cbn [bind]. unfold pack_dict in Hn.
    destruct (pack_items BaseConfig process m' []); [|discriminate].
    cbn [bind] in Hn. apply new_object_Ok in Hn. subst n.
    eexists. reflexivity.
  - intros [y Hy].
    destruct (pack_dict BaseConfig process m' EmptyString) as [n|e];
      [eauto|discriminate].
Qed.

(** *** The order of the encoded keys *)

Lemma leb_cases :
  forall a b, String.leb a b = true <-> a = b \/ String_as_OT.lt a b.
Proof.
  intros a b. unfold String.leb.
  destruct (String.compare a b) eqn:Hc.
  - apply String_as_OT.cmp_eq in Hc. split; auto.
  - apply String_as_OT.cmp_lt in Hc. split; auto.
  - split; [discriminate|]. intros [H|H].
    + apply String_as_OT.cmp_eq in H. unfold String_as_OT.cmp in H. congruence.
    + apply String_as_OT.cmp_lt in H. unfold String_as_OT.cmp in H. congruence.
Qed.

Lemma ltb_lt :
  forall a b, String.ltb a b = true <-> String_as_OT.lt a b.
Proof.
  intros a b. unfold String.ltb. rewrite <- String_as_OT.cmp_lt.
  unfold String_as_OT.cmp. destruct (String.compare a b); split;
    congruence.
Qed.

Lemma leb_trans :
  forall a b c,
    String.leb a b = true -> String.leb b c = true -> String.leb a c = true.
Proof.
  intros a b c Hab Hbc. apply leb_cases in Hab, Hbc. apply leb_cases.
  destruct Hab as [->|Hab]; [exact Hbc|].
  destruct Hbc as [<-|Hbc]; [right; exact Hab|].
  right. eapply String_as_OT.lt_trans; eauto.
Qed.

Lemma insert_name_sorted :
  forall k l,
    StronglySorted (fun a b => String.leb a b = true) l ->
    StronglySorted (fun a b => String.leb a b = true) (insert_name k l).
Proof.
  intros k l H. induction H as [|h t Ht IH Hall]; cbn [insert_name].
  - constructor; constructor.
  - destruct (String.leb k h) eqn:Hk.
    + constructor; [constructor; assumption|].
      constructor; [exact Hk|].
      eapply Forall_impl; [|exact Hall].
      intros x Hx. eapply leb_trans; eauto.
    + constructor; [exact IH|].
      apply Forall_forall. intros x Hx. apply In_insert_name in Hx.
      destruct Hx as [->|Hx].
      * destruct (String.leb_total h k) as [H1|H1]; [exact H1|congruence].
      * rewrite Forall_forall in Hall. apply Hall. exact Hx.
Qed.

Lemma sort_names_sorted :
  forall l, StronglySorted (fun a b => String.leb a b = true) (sort_names l).
Proof.
  induction l as [|k l IH]; [constructor|].
  change (StronglySorted (fun a b => String.leb a b = true)
            (insert_name k (sort_names l))).
  apply insert_name_sorted. exact IH.
Qed.

Lemma insert_name_NoDup :
  forall k l, NoDup l -> ~ In k l -> NoDup (insert_name k l).
Proof.
  intros k l H. induction H as [|h t Hnot Ht IH]; intros Hk; cbn [insert_name].
  - constructor; [intros []|constructor].
  - destruct (String.leb k h).
    + constructor; [exact Hk|constructor; assumption].
    + constructor.
      * intros Hin. apply In_insert_name in Hin. destruct Hin as [->|Hin].
        -- apply Hk. left. reflexivity.
        -- apply Hnot. exact Hin.
      * apply IH. intros Hin. apply Hk. right. exact Hin.
Qed.

Lemma sort_names_NoDup : forall l, NoDup l -> NoDup (sort_names l).
Proof.
  induction 1 as [|k l Hnot Hl IH]; [constructor|].
  change (NoDup (insert_name k (sort_names l))).
  apply insert_name_NoDup; [exact IH|].
  intros Hin. apply Hnot. apply (proj1 (In_sort_names k l)). exact Hin.
Qed.

Lemma strictly_sorted :
  forall l,
    StronglySorted (fun a b => String.leb a b = true) l ->
    NoDup l ->
    StronglySorted (fun a b => String.ltb a b = true) l.
Proof.
  intros l H. induction H as [|h t Ht IH Hall]; intros Hnd; [constructor|].
  inversion Hnd as [|? ? Hnot Hnd']; subst.
  constructor; [apply IH; exact Hnd'|].
  apply Forall_forall. intros x Hx. rewrite Forall_forall in Hall.
  apply ltb_lt. destruct (proj1 (leb_cases h x) (Hall x Hx)) as [->|Hlt];
    [exfalso; apply Hnot; exact Hx|exact Hlt].
Qed.

Lemma StronglySorted_filter :
  forall (R : string -> string -> Prop) (p : string -> bool) l,
    StronglySorted R l -> StronglySorted R (filter p l).
Proof.
  intros R p l H. induction H as [|h t Ht IH Hall]; cbn; [constructor|].
  destruct (p h); [|exact IH].
  constructor; [exact IH|].
  apply Forall_forall. intros x Hx. apply filter_In in Hx.
  rewrite Forall_forall in Hall. apply Hall. apply Hx.
Qed.

Lemma keys_public_members :
  forall c attrs,
    keys (public_members c attrs)
    = filter (fun k => match member_of c attrs k with
                       | Some _ => true
                       | None => false
                       end) (dir c attrs).
Proof.
  intros c attrs. unfold public_members, member_of.
  induction (dir c attrs) as [|n names IH]; [reflexivity|].
  cbn [flat_map filter]. rewrite keys_app, IH.
  destruct (getattr c attrs n) as [v|e]; [|reflexivity].
  destruct (negb (isroutine v) && negb (is_private n)); reflexivity.
Qed.

(** X6: the keys of the encoded mapping of an object are in strictly
    ascending order (so each key occurs once), whatever the order in which
    the attributes were set. *)
Theorem encoded_keys_ascending :
  forall (c : klass) (attrs : dict),
    exists m,
      process_cls (VNode c attrs) = VDict m /\
      StronglySorted (fun a b => String.ltb a b = true) (keys m).
Proof.
  intros c attrs. rewrite process_cls_unfold.
  eexists. split; [reflexivity|].
  rewrite keys_map_values, keys_public_members.
  apply StronglySorted_filter. unfold dir.
  apply strictly_sorted; [apply sort_names_sorted|].
  apply sort_names_NoDup. apply NoDup_nodup.
Qed.

(** *** Updating attributes *)

Lemma dict_get_update :
  forall e d k,
    dict_get k (dict_update d e)
    = match dict_get k (rev e) with
      | Some v => Some v
      | None => dict_get k d
      end.
Proof.
  unfold dict_update. induction e as [|[k0 v0] e IH]; intros d k;
    [reflexivity|].
  cbn [fold_left fst snd rev]. rewrite IH, dict_get_set.
  assert (Happ : forall l,
            dict_get k (l ++ [(k0, v0)])%list
            = match dict_get k l with
              | Some v => Some v
              | None => if String.eqb k k0 then Some v0 else None
              end).
  { induction l as [|[k1 v1] l IHl]; cbn; [destruct (String.eqb k k0); reflexivity|].
    destruct (String.eqb k k1); [reflexivity|exact IHl]. }
  rewrite Happ. destruct (dict_get k (rev e)); [reflexivity|].
  destruct (String.eqb k k0); reflexivity.
Qed.

Lemma dict_get_rev :
  forall l k, NoDup (keys l) -> dict_get k (rev l) = dict_get k l.
Proof.
  intros l k Hnd.
  destruct (dict_get k l) as [v|] eqn:Hg.
  - apply dict_get_first.
    + unfold keys in *. rewrite map_rev. apply NoDup_rev. exact Hnd.
    + apply in_rev. rewrite rev_involutive. apply dict_get_In. exact Hg.
  - destruct (dict_get k (rev l)) as [v|] eqn:Hr; [|reflexivity].
    apply dict_get_In in Hr. apply in_rev in Hr.
    rewrite (dict_get_first k v l Hnd Hr) in Hg. discriminate.
Qed.

Lemma keys_dict_set :
  forall k v d,
    keys (dict_set k v d)
    = if in_dec string_dec k (keys d) then keys d else (keys d ++ [k])%list.
Proof.
  intros k v d. induction d as [|[k0 v0] d IH]; [reflexivity|].
  cbn [dict_set]. destruct (String.eqb k k0) eqn:He.
  - apply String.eqb_eq in He. subst k0.
    destruct (in_dec string_dec k (keys ((k, v0) :: d))) as [_|Hn];
      [reflexivity|].
    exfalso. apply Hn. left. reflexivity.
  - change (keys ((k0, v0) :: dict_set k v d)) with (k0 :: keys (dict_set k v d)).
    rewrite IH.
    destruct (in_dec string_dec k (keys d)) as [Hi|Hn];
      destruct (in_dec string_dec k (keys ((k0, v0) :: d))) as [Hi'|Hn'];
      try reflexivity.
    + exfalso. apply Hn'. right. exact Hi.
    + exfalso. destruct Hi' as [Heq|Hi']; [|exact (Hn Hi')].
      cbn in Heq. subst k0. rewrite String.eqb_refl in He. discriminate.
Qed.

Lemma NoDup_dict_set :
  forall k v d, NoDup (keys d) -> NoDup (keys (dict_set k v d)).
Proof.
  intros k v d H. rewrite keys_dict_set.
  destruct (in_dec string_dec k (keys d)) as [_|Hn]; [exact H|].
  apply NoDup_app; [exact H|constructor; [intros []|constructor]|].
  intros x Hx [<-|[]]. exact (Hn Hx).
Qed.

Lemma NoDup_dict_update :
  forall e d, NoDup (keys d) -> NoDup (keys (dict_update d e)).
Proof.
  unfold dict_update. induction e as [|[k v] e IH]; intros d H; [exact H|].
  cbn [fold_left]. apply IH. apply NoDup_dict_set. exact H.
Qed.

(** X7: [update(data, **kwargs)] on a node, without a callback and when it
    ends normally, is an insertion: an attribute named in [kwargs] has the
    keyword value, one named only in a non-empty [data] has the value of
    [data], and every other attribute is as before. *)
Theorem update_lookup :
  forall (n : string) (b : base) (attrs attrs' d kwargs : dict) (k : string),
    NoDup (keys d) -> NoDup (keys kwargs) ->
    update (Dynamic n b) attrs (Some d) None kwargs = (attrs', Ok tt) ->
    dict_get k attrs'
    = match dict_get k kwargs with
      | Some v => Some v
      | None =>
          match dict_get k d with
          | Some v => Some v
          | None => dict_get k attrs
          end
      end.
Proof.
  intros n b attrs attrs' d kwargs k Hd Hkw H.
  unfold update, set_attr in H.
  destruct (method attrs "set_attr"); [|discriminate].
  apply set_attr_loop_raw in H. subst attrs'.
  destruct d as [|kv d].
  - cbn [truthy]. rewrite dict_get_update, (dict_get_rev _ k Hkw).
    destruct (dict_get k kwargs); reflexivity.
  - cbn [truthy]. rewrite dict_get_update.
    rewrite (dict_get_rev _ k (NoDup_dict_update kwargs _ Hd)).
    rewrite dict_get_update, (dict_get_rev _ k Hkw).
    destruct (dict_get k kwargs); [reflexivity|].
    destruct (dict_get k (kv :: d)); reflexivity.
Qed.

Lemma set_attr_loop_app :
  forall c cb pre rest attrs attrs1,
    set_attr_loop c pre cb attrs = (attrs1, Ok tt) ->
    set_attr_loop c (pre ++ rest)%list cb attrs = set_attr_loop c rest cb attrs1.
Proof.
  intros c cb pre rest. induction pre as [|[k v] pre IH]; intros attrs attrs1 H.
  - cbn in H. injection H as <-. reflexivity.
  - cbn [app set_attr_loop] in *.
    destruct (val <- convert_path k v ;;
              x <- match cb with Some f => f k val | None => Ok v end ;;
              setattr c attrs k x) as [a|e]; [|discriminate].
    apply IH. exact H.
Qed.

(** X8: [set_attr] is not atomic, and it converts every value under a key
    that contains ["path"] even when the result is not used: at the first
    entry whose conversion raises, the call ends with that exception and
    the entries before it stay set. *)
Theorem set_attr_stops_at_bad_path :
  forall (c : klass) (cb : option callback) (pre rest : dict) (k : string)
         (v : value) (attrs attrs1 : dict) (e : exn),
    set_attr_loop c pre cb attrs = (attrs1, Ok tt) ->
    convert_path k v = Raise e ->
    set_attr c attrs (VDict (pre ++ (k, v) :: rest)%list) cb = (attrs1, Raise e).
Proof.
  intros c cb pre rest k v attrs attrs1 e Hpre Hbad.
  unfold set_attr. rewrite (set_attr_loop_app c cb pre _ attrs attrs1 Hpre).
  cbn [set_attr_loop]. rewrite Hbad. reflexivity.
Qed.

(** *** The properties of the store *)

Lemma as_posix_parse_resolved :
  forall p,
    Forall (fun c => stored c = true) (parts p) ->
    as_posix (parse_path (as_posix (resolve p))) = as_posix (resolve p).
Proof.
  intros p Hp. destruct (resolve_clean _ Hp) as [Hr Hc].
  destruct (resolve p) as [r comps]. cbn in Hr, Hc. subst r.
  rewrite as_posix_absolute, (parse_absolute _ (clean_stored _ Hc)).
  reflexivity.
Qed.

Lemma resolved_stored :
  forall v p, resolved v = Ok p ->
    exists q, p = resolve q /\ Forall (fun c => stored c = true) (parts q).
Proof.
  intros v p. unfold resolved.
  destruct (Path v) as [p0|e] eqn:HP; [|discriminate]. cbn [bind].
  destruct (expanduser p0) as [q|e] eqn:Hq; [|discriminate]. cbn [bind].
  intros [= <-]. exists q. split; [reflexivity|].
  eapply expanduser_stored; [|exact Hq]. eapply Path_stored; eauto.
Qed.

(** X9: assigning [save_path] (or [key_path]) on the store and reading it
    back gives the normalized text of what was assigned; the assignment
    raises exactly when the normalizer does, and it changes no attribute
    other than the private slot, so the other property reads as before. *)
Theorem store_path_property :
  forall (attrs : dict) (v : value),
    match setattr ConfigCls attrs "save_path" v with
    | Ok attrs' =>
        getattr ConfigCls attrs' "save_path" = normalize v
        /\ getattr ConfigCls attrs' "key_path"
           = getattr ConfigCls attrs "key_path"
        /\ (forall k, String.eqb k "_save_path_" = false ->
                      dict_get k attrs' = dict_get k attrs)
    | Raise e => normalize v = Raise e
    end
    /\
    match setattr ConfigCls attrs "key_path" v with
    | Ok attrs' =>
        getattr ConfigCls attrs' "key_path" = normalize v
        /\ getattr ConfigCls attrs' "save_path"
           = getattr ConfigCls attrs "save_path"
        /\ (forall k, String.eqb k "_key_path_" = false ->
                      dict_get k attrs' = dict_get k attrs)
    | Raise e => normalize v = Raise e
    end.
Proof.
  intros attrs v. unfold normalize.
  change (setattr ConfigCls attrs "save_path" v)
    with (p <- resolved v ;; Ok (dict_set "_save_path_" (PathObj p) attrs)).
  change (setattr ConfigCls attrs "key_path" v)
    with (p <- resolved v ;; Ok (dict_set "_key_path_" (PathObj p) attrs)).
  split;
    destruct (resolved v) as [p|e] eqn:Hr; cbn [bind]; try reflexivity;
    destruct (resolved_stored _ _ Hr) as (q & -> & Hq);
    (split; [|split]).
  - cbn [getattr String.eqb Ascii.eqb Bool.eqb]. unfold path_property.
    rewrite dict_get_set. cbn [String.eqb Ascii.eqb Bool.eqb]. unfold PathObj.
    rewrite (as_posix_parse_resolved _ Hq). reflexivity.
  - cbn [getattr String.eqb Ascii.eqb Bool.eqb]. unfold path_property.
    rewrite dict_get_set. reflexivity.
  - intros k Hk. rewrite dict_get_set, Hk. reflexivity.
  - cbn [getattr String.eqb Ascii.eqb Bool.eqb]. unfold path_property.
    rewrite dict_get_set. cbn [String.eqb Ascii.eqb Bool.eqb]. unfold PathObj.
    rewrite (as_posix_parse_resolved _ Hq). reflexivity.
  - cbn [getattr String.eqb Ascii.eqb Bool.eqb]. unfold path_property.
    rewrite dict_get_set. reflexivity.
  - intros k Hk. rewrite dict_get_set, Hk. reflexivity.
Qed.

Lemma has_path_not_property :
  forall k,
    has_path k = false ->
    String.eqb k "save_path" = false /\ String.eqb k "key_path" = false.
Proof.
  intros k H. split.
  - destruct (String.eqb k "save_path") eqn:He; [|reflexivity].
    apply String.eqb_eq in He. subst k. discriminate.
  - destruct (String.eqb k "key_path") eqn:He; [|reflexivity].
    apply String.eqb_eq in He. subst k. discriminate.
Qed.

(** X10: [add_cls_attr(name, attrs)] on an object that has kept its
    methods (no attribute is named [update] or [set_attr]), for a name
    that [type] takes (ASCII, no NUL) and that is not a special name
    [__x__], and for a plain namespace [attrs] (no special key, no opaque
    value).  It attaches a new node, an instance of the class named
    [name.capitalize()] with the base [BaseConfig], that holds [attrs] and
    reads back under [name], the other attributes staying as they are;
    when [name] contains ["path"] it sets nothing and raises [TypeError],
    because the new node goes through the path conversion of
    [set_attr]. *)
Theorem add_cls_attr_node :
  forall (c : klass) (self : dict) (name : string) (attrs : dict),
    class_name_ok name = true ->
    is_special name = false ->
    plain_attrs BaseConfig attrs = true ->
    dict_get "update" self = None ->
    dict_get "set_attr" self = None ->
    let node := VNode (Dynamic (Str.capitalize name) BaseConfig) attrs in
    if has_path name
    then add_cls_attr c self name attrs = (self, Raise TypeError)
    else add_cls_attr c self name attrs = (dict_set name node self, Ok tt)
         /\ getattr c (dict_set name node self) name = Ok node
         /\ (forall k, String.eqb k name = false ->
                       dict_get k (dict_set name node self) = dict_get k self).
Proof.
  intros c self name attrs Hname Hspecial Hattrs Hupdate Hset node.
  unfold add_cls_attr.
  rewrite (new_object_plain name BaseConfig attrs Hname Hattrs).
  fold node. unfold update, method. rewrite Hupdate, Hset.
  unfold set_attr. cbn [truthy dict_update fold_left fst snd].
  cbn [dict_set set_attr_loop]. unfold convert_path.
  destruct (has_path name) eqn:Hp.
  - reflexivity.
  - destruct (has_path_not_property _ Hp) as [H1 H2].
    assert (Hsetattr : setattr c self name node = Ok (dict_set name node self)).
    { unfold setattr. rewrite Hspecial.
      destruct c; [reflexivity|]. rewrite H1, H2. reflexivity. }
    cbn [bind]. rewrite Hsetattr. split; [reflexivity|]. split.
    + assert (Hg : dict_get name (dict_set name node self) = Some node).
      { rewrite dict_get_set, String.eqb_refl. reflexivity. }
      destruct c; cbn [getattr]; [rewrite Hg; reflexivity|].
      rewrite H1, H2, Hg. reflexivity.
    + intros k Hk. rewrite dict_get_set, Hk. reflexivity.
Qed.

Lemma BaseObject_update_loop_spec :
  forall data attrs attrs',
    BaseObject_update_loop data attrs = (attrs', Ok tt) ->
    exists xs,
      attrs' = dict_update attrs xs /\
      Forall2 (fun kv kx =>
                 fst kx = fst kv /\
                 (if has_path (fst kv) then normalize (snd kv) else Ok (snd kv))
                 = Ok (snd kx)) data xs.
Proof.
  induction data as [|[k v] data IH]; intros attrs attrs' H.
  - cbn in H. injection H as <-. exists []. split; [reflexivity|constructor].
  - cbn [BaseObject_update_loop] in H.
    destruct (if has_path k then normalize v else Ok v) as [x|e] eqn:Hx;
      [|discriminate].
    destruct (IH _ _ H) as (xs & -> & Hall).
    exists ((k, x) :: xs). split; [reflexivity|].
    constructor; [split; [reflexivity|exact Hx]|exact Hall].
Qed.

(** X11: [BaseObject.update] with a mapping alone (or keywords alone), when
    it ends normally, stores under every key that contains ["path"] the
    normalized form of the value, and under any other key the value
    itself; attributes it does not name are unchanged. *)
Theorem BaseObject_update_normalizes :
  forall (attrs attrs' data : dict),
    NoDup (keys data) ->
    (BaseObject_update attrs data [] = (attrs', Ok tt)
     \/ BaseObject_update attrs [] data = (attrs', Ok tt)) ->
    (forall k v,
        dict_get k data = Some v ->
        exists x, dict_get k attrs' = Some x /\
                  (if has_path k then normalize v else Ok v) = Ok x)
    /\ (forall k, dict_get k data = None -> dict_get k attrs' = dict_get k attrs).
Proof.
  intros attrs attrs' data Hnd H.
  assert (Hloop : BaseObject_update_loop data attrs = (attrs', Ok tt)).
  { destruct H as [H|H]; unfold BaseObject_update in H;
      destruct data as [|kv data]; cbn [truthy andb] in H; exact H. }
  clear H.
  destruct (BaseObject_update_loop_spec _ _ _ Hloop) as (xs & -> & Hall).
  pose proof (Forall2_keys
                (fun k v x => (if has_path k then normalize v else Ok v) = Ok x)
                _ _ Hall) as Hkeys.
  assert (Hnd' : NoDup (keys xs)) by (rewrite Hkeys; exact Hnd).
  split.
  - intros k v Hg.
    destruct (Forall2_get
                (fun k v => if has_path k then normalize v else Ok v)
                _ _ k v Hall Hg) as (x & Hx & Hf).
    exists x. split; [|exact Hf].
    rewrite dict_get_update, (dict_get_rev _ k Hnd'), Hx. reflexivity.
  - intros k Hg.
    rewrite dict_get_update, (dict_get_rev _ k Hnd').
    destruct (dict_get k xs) as [x|] eqn:Hx; [|reflexivity].
    apply dict_get_In_keys in Hx. rewrite Hkeys in Hx.
    exfalso. clear - Hx Hg.
    induction data as [|[k0 v0] data IH]; [destruct Hx|].
    cbn in Hg, Hx. destruct (String.eqb k k0) eqn:He; [discriminate|].
    destruct Hx as [Heq|Hx]; [|exact (IH Hg Hx)].
    subst k0. rewrite String.eqb_refl in He. discriminate.
Qed.

(** *** More on [load], [restore] and the constructor *)

(** X12: when the path given to [load] is not a regular file (it is
    missing, or a directory), the call raises [FileNotFoundError] after
    the directory of the save target is made, and the attributes of the
    store are unchanged.  The path is tested once that directory is made,
    as the source does: a path that leads through the new directory and
    back by [".."] reaches nothing before the call and may reach a file
    after it. *)
Theorem load_not_a_file :
  forall (w : world) (load_path : value) (p : ppath) (sp : string) (fs' : fsys),
    dict_get "_save_path_" (self w) = Some (VPath sp) ->
    mkdir (disk w) (parent (parse_path sp)) = Ok fs' ->
    Path load_path = Ok p ->
    is_file fs' p = false ->
    load load_path w = (mkworld (self w) fs', Raise FileNotFoundError).
Proof.
  intros w lp p sp fs' Hsp Hm HP Hf'.
  unfold load, bindM, self_getattr, as_path, self_mkdir, lift, get_disk,
    raise, ret.
  rewrite getattr_Config_plain by reflexivity.
  rewrite Hsp. cbn. rewrite Hm. cbn. rewrite HP. cbn.
  rewrite Hf', Bool.andb_false_r. reflexivity.
Qed.

(** X13: what [load] does with the top level of a [.json] document: an
    empty mapping is accepted and sets nothing, not even the cached
    mapping; a document that is not a mapping (a list, a number) raises
    [AttributeError]; in both cases the attributes of the store are as
    before. *)
Theorem load_json_top_level :
  forall (w : world) (load_path : value) (p : ppath) (sp text : string)
         (fs' : fsys) (data : value),
    dict_get "_save_path_" (self w) = Some (VPath sp) ->
    mkdir (disk w) (parent (parse_path sp)) = Ok fs' ->
    Path load_path = Ok p ->
    suffix p = ".json" ->
    read (disk w) p = Ok text ->
    json_parse text = Ok data ->
    (data = VDict [] ->
     load load_path w = (mkworld (self w) fs', Ok tt))
    /\ ((forall d, data <> VDict d) ->
        load load_path w = (mkworld (self w) fs', Raise AttributeError)).
Proof.
  intros w lp p sp text fs' data Hsp Hm HP Hsuf Hread Hparse.
  assert (Hf : is_file (disk w) p = true).
  { apply (stat_is_file _ _ text). apply read_stat. exact Hread. }
  pose proof (stat_mkdir_file _ _ _ p Hm Hf) as Hf'.
  pose proof (mkdir_read _ _ _ _ _ Hm Hread) as Hread'.
  assert (Hstart :
    load lp w
    = match path_resolve data with
      | Ok raw_dict =>
          (if truthy raw_dict then
             conv <~ lift (s <- dumps raw_dict ;; ConfigDecoder_loads s) ;;
             self_setattr "_converted_" conv ;;;
             c <~ self_getattr "_converted_" ;;
             self_method "set_attr" ;;;
             self_set_attr c
           else ret tt) (mkworld (self w) fs')
      | Raise e => (mkworld (self w) fs', Raise e)
      end).
  { unfold load, bindM at 1 2 3 4 5 6 7, self_getattr, as_path, self_mkdir,
      lift, get_disk, raise, ret.
    rewrite getattr_Config_plain by reflexivity.
    rewrite Hsp. cbn [bind]. rewrite Hm. cbn [disk self]. rewrite HP.
    rewrite Hf', (is_file_exists _ _ Hf'). cbn [andb].
    rewrite Hsuf. cbn [String.eqb Ascii.eqb Bool.eqb].
    rewrite Hread'. cbn [bind]. rewrite Hparse.
    destruct (path_resolve data); reflexivity. }
  split.
  - intros ->. rewrite Hstart. reflexivity.
  - intros Hnd. rewrite Hstart.
    destruct data; try reflexivity. exfalso. apply (Hnd d). reflexivity.
Qed.

(** X14: [restore] is a silent no-op whenever the key path is not a
    regular file, also when it is a directory: the store and the file
    system are unchanged and no exception is raised. *)
Theorem restore_key_not_a_file :
  forall (w : world) (kp : string),
    dict_get "_key_path_" (self w) = Some (VPath kp) ->
    is_file (disk w) (parse_path kp) = false ->
    restore w = (w, Ok tt).
Proof.
  intros w kp Hk Hf.
  unfold restore, bindM, self_getattr.
  rewrite getattr_Config_plain by reflexivity.
  rewrite Hk. cbn.
  rewrite Hf, Bool.andb_false_r. reflexivity.
Qed.

(** X15: the constructor refuses a load path together with [restore]: it
    raises [ValueError] once the two locations are stored, and neither
    [load] nor [restore] runs, so the file system is untouched. *)
Theorem Config_init_load_and_restore :
  forall (w : world) (load_path save_path key_path : value) (s k : ppath),
    truthy load_path = true ->
    resolved save_path = Ok s ->
    resolved key_path = Ok k ->
    Config_init load_path save_path key_path true w
    = (mkworld (dict_set "_key_path_" (PathObj k)
                  (dict_set "_save_path_" (PathObj s) (self w)))
               (disk w),
       Raise ValueError).
Proof.
  intros w lp sp kp s k Ht Hs Hk.
  unfold Config_init, bindM, lift, self_setattr, raise.
  rewrite Hs. cbn. rewrite Hk. cbn. rewrite Ht. reflexivity.
Qed.

(** *** list_generator *)

Lemma list_generator_dict :
  forall d pre,
    list_generator (VDict d) pre = flat_map (entry_rows pre) d.
Proof.
  intros d pre. cbn [list_generator].
  induction d as [|[k x] d IH]; [reflexivity|].
  cbn [flat_map]. rewrite <- IH. reflexivity.
Qed.

Lemma list_generator_leaf :
  forall v pre,
    (forall d, v <> VDict d) -> list_generator v pre = [(pre ++ [v])%list].
Proof.
  intros v pre H. destruct v; try reflexivity.
  exfalso. apply (H d). reflexivity.
Qed.

Lemma reaches_leaf_plain :
  forall v path leaf, reaches v path leaf -> forall d, leaf <> VDict d.
Proof.
  intros v path leaf H. induction H; try assumption.
Qed.

Lemma reaches_row :
  forall v path leaf,
    reaches v path leaf ->
    forall pre,
      In (pre ++ map VStr path ++ [leaf])%list (list_generator v pre).
Proof.
  intros v path leaf H.
  induction H as [v Hv|d k d' path leaf Hin _ IH|d k l y path leaf Hin Hy _ IH
                 |d k x Hin Hd Hl]; intros pre.
  - rewrite (list_generator_leaf v pre Hv). left. reflexivity.
  - rewrite list_generator_dict. apply in_flat_map.
    exists (k, VDict d'). split; [exact Hin|].
    unfold entry_rows. cbn [fst snd map].
    specialize (IH (pre ++ [VStr k])%list).
    rewrite <- app_assoc in IH. exact IH.
  - rewrite list_generator_dict. apply in_flat_map.
    exists (k, VList l). split; [exact Hin|].
    unfold entry_rows. cbn [fst snd map]. apply in_flat_map.
    exists y. split; [exact Hy|].
    specialize (IH (pre ++ [VStr k])%list).
    rewrite <- app_assoc in IH. exact IH.
  - rewrite list_generator_dict. apply in_flat_map.
    exists (k, x). split; [exact Hin|].
    unfold entry_rows. cbn [fst snd map].
    destruct x; try (left; reflexivity).
    + exfalso. apply (Hl l). reflexivity.
    + exfalso. apply (Hd d0). reflexivity.
Qed.

Lemma row_reaches :
  forall v pre row,
    In row (list_generator v pre) ->
    exists path leaf,
      reaches v path leaf /\ row = (pre ++ map VStr path ++ [leaf])%list.
Proof.
  intros v.
  assert (Hboth :
    (forall pre row,
        In row (list_generator v pre) ->
        exists path leaf,
          reaches v path leaf /\
          row = (pre ++ map VStr path ++ [leaf])%list)
    /\ (forall l, v = VList l ->
          Forall (fun x => forall pre row,
                    In row (list_generator x pre) ->
                    exists path leaf,
                      reaches x path leaf /\
                      row = (pre ++ map VStr path ++ [leaf])%list) l)).
  { induction v using value_ind';
      try (split; [|intros l0 Hl; discriminate]; intros pre row Hin;
              rewrite list_generator_leaf in Hin by (intros d0; discriminate);
              destruct Hin as [<-|[]];
              eexists [], _; split; [|reflexivity];
              apply reaches_leaf; intros d0; discriminate).
    - (* a sequence *)
      split.
      + intros pre row Hin.
        rewrite list_generator_leaf in Hin by (intros d0; discriminate).
        destruct Hin as [<-|[]].
        eexists [], _. split; [|reflexivity].
        apply reaches_leaf. intros d0. discriminate.
      + intros l0 [= <-]. eapply Forall_impl; [|exact H].
        intros x [Hx _]. exact Hx.
    - (* a mapping *)
      split; [|intros l0 Hl; discriminate].
      intros pre row Hin. rewrite list_generator_dict in Hin.
      apply in_flat_map in Hin. destruct Hin as ([k x] & Hkx & Hin).
      rewrite Forall_forall in H. destruct (H (k, x) Hkx) as [Hx Hlist].
      cbn [snd] in Hx, Hlist.
      unfold entry_rows in Hin. cbn [fst snd] in Hin.
      destruct x;
        try (destruct Hin as [<-|[]];
             eexists [k], _; split; [|reflexivity];
             apply (@reaches_value d k _ Hkx); intros ?; discriminate).
      * apply in_flat_map in Hin. destruct Hin as (y & Hy & Hin).
        pose proof (Hlist l eq_refl) as Hl. rewrite Forall_forall in Hl.
        destruct (Hl y Hy _ _ Hin) as (path & leaf & Hreach & ->).
        exists (k :: path), leaf. split.
        -- exact (@reaches_sequence d k l y path leaf Hkx Hy Hreach).
        -- cbn [map]. rewrite <- app_assoc. reflexivity.
      * destruct (Hx _ _ Hin) as (path & leaf & Hreach & ->).
        exists (k :: path), leaf. split.
        -- exact (@reaches_mapping d k d0 path leaf Hkx Hreach).
        -- cbn [map]. rewrite <- app_assoc. reflexivity. }
  exact (proj1 Hboth).
Qed.

(** X16: the rows that [list_generator] yields are exactly [pre], then a
    path of keys, then the value the path leads to: each key is a key of
    the mapping the keys before it lead to (a sequence is entered by its
    elements without a key of its own), and the value is not a mapping;
    it is the value under the last key, or an element, not a mapping, of
    the sequence under it.  Every such path gives a row. *)
Theorem list_generator_rows :
  forall (v : value) (pre row : list value),
    (In row (list_generator v pre)
     <-> exists path leaf,
           reaches v path leaf /\
           row = (pre ++ map VStr path ++ [leaf])%list)
    /\ (forall path leaf,
           reaches v path leaf ->
           (forall d, leaf <> VDict d)
           /\ (forall d, v = VDict d ->
                  exists k rest, path = k :: rest /\ In k (keys d))).
Proof.
  intros v pre row. split; [split|].
  - apply row_reaches.
  - intros (path & leaf & Hreach & ->). apply reaches_row. exact Hreach.
  - intros path leaf Hreach. split.
    + exact (reaches_leaf_plain v path leaf Hreach).
    + intros d ->.
      assert (Hk : forall k x, In (k, x) d -> In k (keys d)).
      { intros k x Hin. change k with (fst (k, x)). apply in_map. exact Hin. }
      inversion Hreach as [v Hv|d1 k d' p lf Hin _|d1 k l y p lf Hin _ _
                          |d1 k x Hin _ _]; subst.
      * exfalso. apply (Hv d). reflexivity.
      * exists k, p. split; [reflexivity|exact (Hk _ _ Hin)].
      * exists k, p. split; [reflexivity|exact (Hk _ _ Hin)].
      * exists k, []. split; [reflexivity|exact (Hk _ _ Hin)].
Qed.

(** X17: a key that holds an empty mapping or an empty sequence leaves no
    row: the table is the same as without that entry, and an empty mapping
    gives no row at all. *)
Theorem list_generator_drops_empty :
  forall (d1 d2 : dict) (k : string) (v : value) (pre : list value),
    v = VDict [] \/ v = VList [] ->
    list_generator (VDict (d1 ++ (k, v) :: d2)%list) pre
    = list_generator (VDict (d1 ++ d2)%list) pre
    /\ list_generator (VDict []) pre = [].
Proof.
  intros d1 d2 k v pre Hv. split; [|reflexivity].
  rewrite !list_generator_dict, !flat_map_app. cbn [flat_map].
  destruct Hv as [-> | ->]; reflexivity.
Qed.

(** *** walk_map and type_generator *)

Lemma constructible_plain_attrs :
  forall b d, constructible b (VDict d) = true -> plain_attrs b d = true.
Proof.
  intros b d. rewrite constructible_dict. unfold plain_attrs.
  induction d as [|[k x] d IH]; intros H; [reflexivity|].
  cbn [forallb fst snd] in *.
  apply Bool.andb_true_iff in H. destruct H as [H0 H].
  apply Bool.andb_true_iff in H0. destruct H0 as [H0 _].
  apply Bool.andb_true_iff in H0. destruct H0 as [Hk Hn].
  rewrite Hk, (IH H). destruct x; try reflexivity. discriminate.
Qed.

(** With a name that [type] takes and a plain namespace the class is
    made. *)
Lemma new_class_plain :
  forall name b attrs,
    class_name_ok name = true ->
    plain_attrs b attrs = true ->
    new_class name attrs = Ok (Str.capitalize name).
Proof.
  intros name b attrs Hn Ha. unfold new_class.
  unfold class_name_ok in Hn. apply Bool.andb_true_iff in Hn.
  destruct Hn as [Hascii Hnul].
  rewrite (plain_attrs_class b attrs Ha), Hascii, Hnul. reflexivity.
Qed.

Lemma walk_map_appends :
  forall bases v out parent,
    json_ok v = true ->
    nameable parent v = true ->
    constructible bases v = true ->
    exists new,
      walk_map bases v out parent = Ok (out ++ new)%list /\
      Forall (fun c => json_ok (VDict (cls_dict c)) = true /\
                       cls_base c = bases) new /\
      (forall d, v = VDict d ->
         exists init,
           new = (init ++ [mkclass (Str.capitalize parent) bases d])%list).
Proof.
  intros bases v. induction v using value_ind'; intros out parent Hj Hn Hc;
    try (exists []; rewrite app_nil_r; split; [reflexivity|];
         split; [constructor|intros d0; discriminate]).
  rename H into IH. cbn [nameable] in Hn.
  pose proof (constructible_plain_attrs bases d Hc) as Hplain.
  assert (Hitems : forall out0,
    exists new0,
      (fix items (d0 : dict) (out1 : list pyclass) {struct d0}
         : result (list pyclass) :=
         match d0 with
         | [] => Ok out1
         | (k, x) :: d' =>
             out' <- match x with
                     | VDict _ => walk_map bases x out1 k
                     | _ => Ok out1
                     end ;;
             items d' out'
         end) d out0 = Ok (out0 ++ new0)%list /\
      Forall (fun c => json_ok (VDict (cls_dict c)) = true /\
                       cls_base c = bases) new0).
  { rewrite json_ok_dict in Hj. rewrite constructible_dict in Hc.
    clear parent out Hn Hplain.
    induction IH as [|[k x] d Hx _ IHd]; intros out0.
    - exists []. rewrite app_nil_r. split; [reflexivity|constructor].
    - cbn [forallb fst snd] in Hj, Hc. apply Bool.andb_true_iff in Hj.
      destruct Hj as [Hjx Hjd]. cbn [snd] in Hx.
      apply Bool.andb_true_iff in Hc. destruct Hc as [H0 Hcd].
      apply Bool.andb_true_iff in H0. destruct H0 as [H0 Hcx].
      apply Bool.andb_true_iff in H0. destruct H0 as [_ Hnx].
      destruct (Hx out0 k Hjx Hnx Hcx) as (n1 & H1 & Hok1 & _).
      assert (Hstep : exists n1',
                match x with
                | VDict _ => walk_map bases x out0 k
                | _ => Ok out0
                end = Ok (out0 ++ n1')%list /\
                Forall (fun c => json_ok (VDict (cls_dict c)) = true /\
                                 cls_base c = bases) n1').
      { destruct x; try (exists []; rewrite app_nil_r;
                         split; [reflexivity|constructor]).
        exists n1. split; [exact H1|exact Hok1]. }
      destruct Hstep as (n1' & -> & Hok1'). cbn [bind].
      destruct (IHd Hjd Hcd (out0 ++ n1')%list) as (n2 & H2 & Hok2).
      exists (n1' ++ n2)%list. rewrite app_assoc. split; [exact H2|].
      apply Forall_app. split; assumption. }
  destruct (Hitems out) as (new0 & Hitems0 & Hok).
  exists (new0 ++ [mkclass (Str.capitalize parent) bases d])%list.
  cbn [walk_map]. rewrite Hitems0. cbn [bind].
  rewrite (new_class_plain parent bases d Hn Hplain). cbn [bind].
  rewrite <- app_assoc. split; [reflexivity|]. split.
  - apply Forall_app. split; [exact Hok|].
    constructor; [|constructor]. cbn [cls_dict cls_base].
    split; [exact Hj|reflexivity].
  - intros d0 [= <-]. eauto.
Qed.

(** X18: [type_generator] on a JSON mapping from which [type] makes the
    classes (no key is a special name [__x__], and the keys of the nested
    mappings are names [type] takes: ASCII, no NUL) ends normally and
    yields the type of the whole mapping last, under the name ["Root"] and
    with the mapping itself as its namespace; every type it yields has a
    namespace of plain JSON values: the types made for nested mappings
    are never stored in the type of their parent. *)
Theorem type_generator_raw_namespaces :
  forall (bases : base) (d : dict),
    json_ok (VDict d) = true ->
    constructible bases (VDict d) = true ->
    exists types init,
      type_generator bases d = Ok types
      /\ types = (init ++ [mkclass "Root" bases d])%list
      /\ Forall (fun c => json_ok (VDict (cls_dict c)) = true /\
                          cls_base c = bases)
                types.
Proof.
  intros bases d Hj Hc. unfold type_generator.
  destruct (walk_map_appends bases (VDict d) [] "Root" Hj eq_refl Hc)
    as (new & Hn & Hok & Hlast).
  cbn [app] in Hn. rewrite Hn.
  destruct (Hlast d eq_refl) as [init Hi].
  exists new, init. split; [reflexivity|]. split; [exact Hi|exact Hok].
Qed.

(** *** prune *)

Lemma dict_set_twice :
  forall k v d, dict_set k v (dict_set k v d) = dict_set k v d.
Proof.
  intros k v d. induction d as [|[k0 v0] d IH]; cbn [dict_set].
  - rewrite String.eqb_refl. reflexivity.
  - destruct (String.eqb k k0) eqn:He; cbn [dict_set].
    + rewrite String.eqb_refl. reflexivity.
    + rewrite He, IH. reflexivity.
Qed.

(** X19: when [prune] ends normally, neither the save target nor the key
    file exists, the cached mapping is empty, every other attribute of the
    store (the loaded ones too) is as before, and a second [prune] ends
    normally and changes nothing. *)
Theorem prune_idempotent :
  forall (w w' : world) (sp kp : string),
    dict_get "_save_path_" (self w) = Some (VPath sp) ->
    dict_get "_key_path_" (self w) = Some (VPath kp) ->
    prune w = (w', Ok true) ->
    exists_ (disk w') (parse_path sp) = false
    /\ exists_ (disk w') (parse_path kp) = false
    /\ dict_get "_converted_" (self w') = Some (VDict [])
    /\ (forall k, String.eqb k "_converted_" = false ->
                  dict_get k (self w') = dict_get k (self w))
    /\ prune w' = (w', Ok true).
Proof.
  intros w w' sp kp Hs Hk H.
  unfold prune, bindM, self_getattr, as_path, self_unlink, self_setattr, ret
    in H.
  rewrite !getattr_Config_plain in H by reflexivity.
  rewrite Hs in H. cbn [self disk] in H.
  destruct (unlink (disk w) (parse_path sp)) as [fs1|e] eqn:H1;
    cbn [self disk] in H; [|discriminate].
  rewrite getattr_Config_plain in H by reflexivity.
  rewrite Hk in H. cbn [self disk] in H.
  destruct (unlink fs1 (parse_path kp)) as [fs2|e] eqn:H2;
    cbn [self disk] in H; [|discriminate].
  rewrite setattr_converted in H.
  injection H as <-. cbn [self disk].
  pose proof (unlink_keeps_gone _ _ _ _ H2 (unlink_gone _ _ _ H1)) as Hgs.
  pose proof (unlink_gone _ _ _ H2) as Hgk.
  split; [exact (lookup_missing_exists _ _ Hgs)|].
  split; [exact (lookup_missing_exists _ _ Hgk)|].
  split; [rewrite dict_get_set; reflexivity|].
  split; [intros k Hne; rewrite dict_get_set, Hne; reflexivity|].
  unfold prune, bindM, self_getattr, as_path, self_unlink, self_setattr, ret.
  rewrite getattr_Config_plain by reflexivity.
  cbn [self disk]. rewrite dict_get_set.
  cbn [String.eqb Ascii.eqb Bool.eqb]. rewrite Hs. cbn [self disk].
  rewrite (unlink_missing _ _ Hgs). cbn [self disk].
  rewrite getattr_Config_plain by reflexivity.
  rewrite dict_get_set. cbn [String.eqb Ascii.eqb Bool.eqb]. rewrite Hk.
  cbn [self disk].
  rewrite (unlink_missing _ _ Hgk).
  cbn [self disk]. rewrite setattr_converted.
  rewrite dict_set_twice. reflexivity.
Qed.

(** *** save *)

Lemma iterencode_bad_member :
  forall c attrs k v,
    dict_get k (public_members c attrs) = Some v ->
    has_dict v = false ->
    json_ok v = false ->
    iterencode (VNode c attrs) = Raise TypeError.
Proof.
  intros c attrs k v Hg Hd Hj. unfold iterencode.
  rewrite process_cls_unfold, json_ok_dict.
  replace (forallb _ _) with false; [reflexivity|].
  symmetry. apply Bool.not_true_is_false. intros Hall.
  rewrite forallb_forall in Hall.
  apply dict_get_In in Hg.
  specialize (Hall (k, encode_value v)). cbn [snd] in Hall.
  unfold encode_value in Hall. rewrite Hd in Hall.
  rewrite Hall in Hj; [discriminate|].
  unfold map_values. apply in_map_iff. exists (k, v). split; [|exact Hg].
  cbn [fst snd]. unfold encode_value. rewrite Hd. reflexivity.
Qed.

(** X20: [save] encodes the store before anything else: when a public
    attribute holds a value that is neither a node nor JSON-representable
    the call raises [TypeError] and nothing has happened, neither to the
    file system nor to the two locations, whatever paths were passed. *)
Theorem save_unencodable :
  forall (w : world) (save_path key_path : value) (k : string) (v : value),
    dict_get k (public_members ConfigCls (self w)) = Some v ->
    has_dict v = false ->
    json_ok v = false ->
    save save_path key_path w = (w, Raise TypeError).
Proof.
  intros w sp kp k v Hg Hd Hj. unfold save, bindM.
  rewrite (iterencode_bad_member _ _ _ _ Hg Hd Hj). reflexivity.
Qed.

Lemma save_unfold :
  forall w,
    save VNone VNone w
    = match iterencode (VNode ConfigCls (self w)) with
      | Ok x =>
          (self_method "_encrypt" ;;;
           encrypted <~ _encrypt (json_text x) ;;
           sp <~ self_getattr "_save_path_" ;;
           sp <~ as_path sp ;;
           self_write sp encrypted) w
      | Raise e => (w, Raise e)
      end.
Proof.
  intros w. unfold save. unfold bindM at 1.
  destruct (iterencode (VNode ConfigCls (self w))) as [x|e]; reflexivity.
Qed.

Lemma encrypt_unfold :
  forall w kp data,
    dict_get "_key_path_" (self w) = Some (VPath kp) ->
    _encrypt data w
    = if exists_ (disk w) (parse_path kp) then
        match (t <- read (disk w) (parse_path kp) ;; load_key t) with
        | Ok key => (w, Ok (box_encrypt key data))
        | Raise e => (w, Raise e)
        end
      else
        match write (disk w) (parse_path kp) (key_file new_key) with
        | Ok fs => (mkworld (self w) fs, Ok (box_encrypt new_key data))
        | Raise e => (w, Raise e)
        end.
Proof.
  intros w kp data Hk.
  unfold _encrypt, bindM, self_getattr, as_path, get_disk, lift, self_write,
    ret.
  rewrite getattr_Config_plain by reflexivity. rewrite Hk.
  destruct (exists_ (disk w) (parse_path kp)).
  - destruct (t <- read (disk w) (parse_path kp) ;; load_key t); reflexivity.
  - destruct (write (disk w) (parse_path kp) (key_file new_key)); reflexivity.
Qed.

Lemma decrypt_unfold :
  forall w sp kp path,
    dict_get "_save_path_" (self w) = Some (VPath sp) ->
    dict_get "_key_path_" (self w) = Some (VPath kp) ->
    _decrypt path w
    = match (t <- read (disk w) (parse_path kp) ;; load_key t) with
      | Ok key =>
          match read (disk w) (parse_path sp) with
          | Ok content => (w, box_decrypt key content)
          | Raise e => (w, Raise e)
          end
      | Raise e => (w, Raise e)
      end.
Proof.
  intros w sp kp path Hs Hk.
  unfold _decrypt, bindM, self_getattr, as_path, get_disk, lift.
  rewrite getattr_Config_plain by reflexivity. rewrite Hk. cbn [Path bind].
  destruct (t <- read (disk w) (parse_path kp) ;; load_key t) as [key|e];
    [|reflexivity].
  cbn beta iota. rewrite getattr_Config_plain by reflexivity. rewrite Hs.
  unfold ret. cbn beta iota.
  destruct (read (disk w) (parse_path sp)); reflexivity.
Qed.

Lemma save_tail :
  forall w1 encrypted sp,
    dict_get "_save_path_" (self w1) = Some (VPath sp) ->
    (s0 <~ self_getattr "_save_path_" ;;
     s1 <~ as_path s0 ;;
     self_write s1 encrypted) w1
    = match write (disk w1) (parse_path sp) encrypted with
      | Ok fs => (mkworld (self w1) fs, Ok tt)
      | Raise e => (w1, Raise e)
      end.
Proof.
  intros w1 encrypted sp Hs.
  unfold bindM, self_getattr, as_path, self_write, ret.
  rewrite getattr_Config_plain by reflexivity. rewrite Hs. reflexivity.
Qed.

(** X21: what [save] writes can be read back with the stored key.  When
    [save()] ends normally on a store whose save target and key file are
    different files, the store's attributes are as before, both files are
    regular files, and [_decrypt] returns the JSON text of the encoded
    store, provided decryption undoes encryption under the same key and a
    key written by a new box loads as that key. *)
Theorem save_then_decrypt :
  forall (w w' : world) (sp kp : string),
    dict_get "_save_path_" (self w) = Some (VPath sp) ->
    dict_get "_key_path_" (self w) = Some (VPath kp) ->
    as_posix (resolve (parse_path sp)) <> as_posix (resolve (parse_path kp)) ->
    (forall key m, box_decrypt key (box_encrypt key m) = Ok m) ->
    load_key (key_file new_key) = Ok new_key ->
    save VNone VNone w = (w', Ok tt) ->
    self w' = self w
    /\ is_file (disk w') (parse_path sp) = true
    /\ is_file (disk w') (parse_path kp) = true
    /\ exists x,
         iterencode (VNode ConfigCls (self w)) = Ok x /\
         _decrypt VNone w' = (w', Ok (json_text x)).
Proof.
  intros w w' sp kp Hs Hk Hne Hinv Hkey H.
  rewrite save_unfold in H.
  destruct (iterencode (VNode ConfigCls (self w))) as [x|e]; [|discriminate].
  unfold bindM at 1, self_method, method in H.
  destruct (dict_get "_encrypt" (self w)); cbn beta iota in H;
    [discriminate|].
  unfold bindM at 1 in H. rewrite (encrypt_unfold w kp _ Hk) in H.
  assert (Hne' : as_posix (resolve (parse_path kp))
                 <> as_posix (resolve (parse_path sp)))
    by (intros Hc; apply Hne; symmetry; exact Hc).
  destruct (exists_ (disk w) (parse_path kp)) eqn:Hex.
  - (* the key file is there *)
    destruct (read (disk w) (parse_path kp)) as [t|e] eqn:Hread;
      cbn [bind] in H; [|discriminate].
    destruct (load_key t) as [key|e] eqn:Hload; [|discriminate].
    rewrite (save_tail w _ sp Hs) in H.
    destruct (write (disk w) (parse_path sp) (box_encrypt key (json_text x)))
      as [fs|e] eqn:Hw; [|discriminate].
    injection H as <-. cbn [self disk].
    pose proof (write_stat_same _ _ _ _ Hw) as Hsame.
    pose proof (write_stat_other _ _ _ _ (parse_path kp) _ Hw Hne'
                  (proj1 (read_stat _ _ _) Hread)) as Hother.
    split; [reflexivity|].
    split; [apply (stat_is_file _ _ _ Hsame)|].
    split; [apply (stat_is_file _ _ t); exact Hother|].
    exists x. split; [reflexivity|].
    rewrite (decrypt_unfold (mkworld (self w) fs) sp kp VNone Hs Hk).
    cbn [self disk].
    rewrite (proj2 (read_stat fs (parse_path kp) t) Hother).
    cbn [bind]. rewrite Hload.
    rewrite (proj2 (read_stat fs (parse_path sp) _) Hsame).
    rewrite Hinv. reflexivity.
  - (* a new key is written *)
    destruct (write (disk w) (parse_path kp) (key_file new_key))
      as [fs1|e] eqn:Hw1; [|discriminate].
    rewrite (save_tail (mkworld (self w) fs1) _ sp Hs) in H.
    cbn [self disk] in H.
    destruct (write fs1 (parse_path sp) (box_encrypt new_key (json_text x)))
      as [fs2|e] eqn:Hw2; [|discriminate].
    injection H as <-. cbn [self disk].
    pose proof (write_stat_same _ _ _ _ Hw1) as Hk1.
    pose proof (write_stat_same _ _ _ _ Hw2) as Hs2.
    pose proof (write_stat_other _ _ _ _ (parse_path kp) _ Hw2 Hne' Hk1)
      as Hk2.
    split; [reflexivity|].
    split; [apply (stat_is_file _ _ _ Hs2)|].
    split; [apply (stat_is_file _ _ _ Hk2)|].
    exists x. split; [reflexivity|].
    rewrite (decrypt_unfold (mkworld (self w) fs2) sp kp VNone Hs Hk).
    cbn [self disk].
    rewrite (proj2 (read_stat fs2 (parse_path kp) _) Hk2).
    cbn [bind]. rewrite Hkey.
    rewrite (proj2 (read_stat fs2 (parse_path sp) _) Hs2).
    rewrite Hinv. reflexivity.
Qed.

Lemma Forall_removelast :
  forall (A : Type) (P : A -> Prop) (l : list A),
    Forall P l -> Forall P (removelast l).
Proof.
  intros A P l H. induction H as [|a l Ha Hl IH]; [constructor|].
  destruct l as [|b l]; [constructor|].
  change (removelast (a :: b :: l)) with (a :: removelast (b :: l)).
  constructor; assumption.
Qed.

(** The directory of a resolved path is looked up at the components but
    the last. *)
Lemma lookup_parent :
  forall fs s,
    lookup fs (parent (resolve (parse_path s)))
    = find (removelast (parts (resolve (parse_path s)))) (TDir fs).
Proof.
  intros fs s.
  destruct (resolve_clean (parse_path s) (parse_path_stored s)) as [_ Hc].
  apply Forall_removelast in Hc. unfold lookup.
  apply (namei_descent (TDir fs) _ []).
  eapply Forall_impl; [|exact Hc].
  intros c Hcl. unfold clean in Hcl.
  destruct (String.eqb c ".."); [|reflexivity].
  rewrite Bool.andb_false_r in Hcl. discriminate.
Qed.

(** [write] makes no directory. *)
Lemma write_no_directory :
  forall fs s c,
    exists_ fs (parse_path s) = false ->
    exists_ fs (parent (resolve (parse_path s))) = false ->
    write fs (parse_path s) c
    = Raise (if below_file fs (parse_path s)
             then NotADirectoryError else FileNotFoundError).
Proof.
  intros fs s c Hex Hpar.
  unfold exists_, stat in Hex, Hpar. rewrite lookup_parent in Hpar.
  unfold write, below_file. unfold lookup in *.
  destruct (namei (TDir fs) (from_root (parse_path s)) []) as [loc| |] eqn:Hn;
    try reflexivity.
  destruct (namei_At _ _ _ Hn) as [-> Hdir].
  destruct (find (parts (resolve (parse_path s))) (TDir fs))
    as [[x|ch]| |] eqn:Hloc; try discriminate; [|reflexivity].
  destruct Hdir as [He|[ch He]].
  - rewrite He in Hloc. discriminate.
  - rewrite He in Hpar. discriminate.
Qed.

(** X22: [save] makes no directory: with no key file and no directory to
    put one in, it raises and leaves the store and the file system as they
    were (it is [load] that makes the directory of the save target).  The
    exception is [FileNotFoundError], unless a regular file stands on the
    way to the key file, where a directory has to be: then it is
    [NotADirectoryError].  The store is one that encodes and has kept its
    method [_encrypt] (no attribute under that name). *)
Theorem save_needs_directory :
  forall (w : world) (kp : string) (x : value),
    dict_get "_key_path_" (self w) = Some (VPath kp) ->
    dict_get "_encrypt" (self w) = None ->
    iterencode (VNode ConfigCls (self w)) = Ok x ->
    exists_ (disk w) (parse_path kp) = false ->
    exists_ (disk w) (parent (resolve (parse_path kp))) = false ->
    save VNone VNone w
    = (w, Raise (if below_file (disk w) (parse_path kp)
                 then NotADirectoryError else FileNotFoundError)).
Proof.
  intros w kp x Hk Henc Hx Hex Hpar.
  rewrite save_unfold, Hx. unfold bindM at 1, self_method, method.
  rewrite Henc. unfold bindM at 1.
  rewrite (encrypt_unfold w kp _ Hk), Hex.
  rewrite (write_no_directory _ _ _ Hex Hpar). reflexivity.
Qed.

(** *** The decoder inside [json.loads] *)

Lemma loads_hook_unfold :
  forall bases processor d,
    loads_hook bases processor (VDict d)
    = (d' <- hook_members bases processor d ;; _object_hook bases processor d').
Proof.
  intros bases processor d. cbn [loads_hook]. f_equal.
  induction d as [|[k x] d IH]; [reflexivity|].
  cbn [hook_members]. rewrite <- IH. reflexivity.
Qed.

Lemma loads_hook_mapping_free :
  forall bases processor v,
    mapping_free v = true -> loads_hook bases processor v = Ok v.
Proof.
  intros bases processor v.
  induction v using value_ind'; intros Hf; try reflexivity; try discriminate.
  rename H into IH. cbn [mapping_free] in Hf. cbn [loads_hook].
  assert (Hl :
    (fix elements (l0 : list value) {struct l0} : result (list value) :=
       match l0 with
       | [] => Ok []
       | x :: l1 =>
           x' <- loads_hook bases processor x ;;
           r <- elements l1 ;;
           Ok (x' :: r)
       end) l = Ok l).
  { induction IH as [|x l Hx _ IHl]; [reflexivity|].
    cbn [forallb] in Hf. apply Bool.andb_true_iff in Hf.
    destruct Hf as [Hfx Hfl].
    rewrite (Hx Hfx). cbn [bind]. rewrite (IHl Hfl). reflexivity. }
  rewrite Hl. reflexivity.
Qed.

Lemma hook_members_builds :
  forall bases processor d d',
    Forall2 (fun kv kx => fst kx = fst kv /\
                          loads_hook bases processor (snd kv) = Ok (snd kx))
            d d' ->
    hook_members bases processor d = Ok d'.
Proof.
  intros bases processor d d' H.
  induction H as [|[k v] [k' x] d d' [Hk Hx] _ IH]; [reflexivity|].
  cbn [fst snd] in *. subst k'.
  cbn [hook_members]. rewrite Hx. cbn [bind]. rewrite IH. reflexivity.
Qed.

Lemma plain_sequences_dict :
  forall d,
    plain_sequences (VDict d) = forallb (fun kv => plain_sequences (snd kv)) d.
Proof.
  intros d. cbn [plain_sequences].
  induction d as [|[k x] d IH]; [reflexivity|].
  cbn [forallb snd]. rewrite <- IH. reflexivity.
Qed.

Lemma hook_entry_node :
  forall bases processor k v x,
    hook_entry bases processor k v = Ok x ->
    pack_item bases processor k x = pack_item bases processor k v.
Proof.
  intros bases processor k v x H.
  rewrite (pack_item_unfold bases processor k v).
  destruct v; cbn [hook_entry] in H;
    try (injection H as <-; apply pack_item_unfold).
  rewrite H. cbn [bind].
  unfold pack_dict in H.
  destruct (pack_items bases processor d []) as [attrs|e]; [|discriminate].
  cbn [bind] in H. apply new_object_Ok in H. subst x.
  rewrite pack_item_unfold. reflexivity.
Qed.

(** One level of the parser: when the hook commutes with [pack_dict] on
    every member, the object is decoded to what [_object_hook] gives for
    the members as they are in the text. *)
Lemma hook_round :
  forall bases processor (d xs : dict),
    NoDup (keys d) ->
    Forall (fun kv => hook_commutes bases processor (snd kv)) d ->
    Forall2 (fun kv kx => fst kx = fst kv /\
                          hook_entry bases processor (fst kv) (snd kv)
                          = Ok (snd kx))
            d xs ->
    loads_hook bases processor (VDict d) = Ok (VDict xs).
Proof.
  intros bases processor d xs Hnd Hc Hall.
  assert (Hd' : exists d',
    Forall2 (fun kv kx => fst kx = fst kv /\
                          loads_hook bases processor (snd kv) = Ok (snd kx))
            d d' /\
    Forall2 (fun kv kx => fst kx = fst kv /\
                          hook_entry bases processor (fst kv) (snd kv)
                          = Ok (snd kx))
            d' xs).
  { clear Hnd. induction Hall as [|[k v] [k' x] d xs [Hk Hx] _ IH].
    - exists []. split; constructor.
    - cbn [fst snd] in *. subst k'.
      inversion Hc as [|? ? Hv Hc']; subst. cbn [snd] in Hv.
      destruct (IH Hc') as (d' & H1 & H2).
      destruct v;
        try (exists ((k, x) :: d'); cbn [hook_entry] in Hx;
             injection Hx as <-;
             split; (constructor; [split; [reflexivity|]|assumption]);
             [exact Hv|reflexivity]).
      cbn [hook_entry hook_commutes] in Hx, Hv.
      destruct (Hv k x Hx) as (rv & Hl & Hp).
      exists ((k, VDict rv) :: d').
      split; (constructor; [split; [reflexivity|]|assumption]);
        [exact Hl|exact Hp]. }
  destruct Hd' as (d' & H1 & H2).
  rewrite loads_hook_unfold, (hook_members_builds _ _ _ _ H1). cbn [bind].
  unfold _object_hook.
  assert (Hk' : keys d' = keys d).
  { exact (Forall2_keys (fun _ v x => loads_hook bases processor v = Ok x)
             _ _ H1). }
  rewrite (loop_builds (hook_entry bases processor)
             (object_hook_items bases processor)
             (fun acc => eq_refl) (fun k v d acc => eq_refl)
             d' xs [] (eq_ind_r (fun l => NoDup l) Hnd Hk')
             (fun _ _ Hc0 => Hc0) H2).
  reflexivity.
Qed.

(** Hooking the nested objects first, as the parser does, does not change
    the tree [pack_dict] builds. *)
Lemma loads_hook_commutes :
  forall bases processor v,
    distinct_keys v -> plain_sequences v = true ->
    hook_commutes bases processor v.
Proof.
  intros bases processor v.
  induction v using value_ind'; intros Hd Hs; try reflexivity.
  - (* a sequence *)
    cbn [hook_commutes]. apply loads_hook_mapping_free. exact Hs.
  - (* a mapping *)
    rename H into IH. cbn [hook_commutes]. intros k n Hp.
    apply distinct_keys_dict in Hd. destruct Hd as [Hnd Hsub].
    rewrite plain_sequences_dict in Hs.
    assert (Hc : Forall (fun kv => hook_commutes bases processor (snd kv)) d).
    { rewrite Forall_forall in *. rewrite forallb_forall in Hs.
      intros kv Hin. apply (IH kv Hin); [apply Hsub|apply Hs]; exact Hin. }
    unfold pack_dict in Hp.
    destruct (pack_items bases processor d []) as [attrs|e] eqn:Hat;
      [|discriminate].
    cbn [bind] in Hp.
    destruct (loop_appends (pack_item bases processor)
                (pack_items bases processor)
                (fun acc => eq_refl) (fun k v d acc => eq_refl)
                d [] attrs Hnd (fun _ _ Hc0 => Hc0) Hat) as (ys & Hys & Hall).
    cbn [app] in Hys. subst ys.
    assert (Hxs : exists xs,
      Forall2 (fun kv kx => fst kx = fst kv /\
                            hook_entry bases processor (fst kv) (snd kv)
                            = Ok (snd kx))
              d xs /\
      Forall2 (fun kv kx => fst kx = fst kv /\
                            pack_item bases processor (fst kv) (snd kv)
                            = Ok (snd kx))
              xs attrs).
    { clear Hat Hnd Hsub Hs IH Hc Hp.
      induction Hall as [|[k0 v0] [k1 y] d attrs [Hk Hy] _ IHall].
      - exists []. split; constructor.
      - cbn [fst snd] in *. subst k1.
        destruct IHall as (xs & H1 & H2).
        destruct (hook_entry bases processor k0 v0) as [x|e] eqn:Hx.
        + exists ((k0, x) :: xs).
          split; (constructor; [split; [reflexivity|]|assumption]);
            cbn [fst snd]; [exact Hx|].
          rewrite (hook_entry_node _ _ _ _ _ Hx). exact Hy.
        + exfalso. rewrite pack_item_unfold in Hy.
          destruct v0; cbn [hook_entry] in Hx; try discriminate.
          rewrite Hx in Hy. discriminate. }
    destruct Hxs as (xs & H1 & H2).
    exists xs. split; [exact (hook_round _ _ _ _ Hnd Hc H1)|].
    assert (Hk : keys xs = keys d).
    { exact (Forall2_keys (fun k v x => hook_entry bases processor k v = Ok x)
               _ _ H1). }
    unfold pack_dict.
    rewrite (loop_builds (pack_item bases processor)
               (pack_items bases processor)
               (fun acc => eq_refl) (fun k v d acc => eq_refl)
               xs attrs [] (eq_ind_r (fun l => NoDup l) Hnd Hk)
               (fun _ _ Hc0 => Hc0) H2).
    cbn [bind app]. exact Hp.
Qed.

(** X24: what [json.loads] returns with the decoder, for a text whose
    top level is a mapping [m] (distinct keys, no mapping inside a
    sequence) that [_object_hook] accepts: the result of [_object_hook]
    on [m] itself, the hooks the parser ran on the nested objects before
    changing nothing.  It is a mapping with the keys of [m] in their
    order; a value that is not a mapping is returned as it is, the
    processor being applied below the top level only, and a mapping is
    replaced by the object [pack_dict] builds for it. *)
Theorem loads_top_level :
  forall (bases : base) (processor : string -> value -> result value)
         (m : dict) (r : value),
    distinct_keys (VDict m) ->
    plain_sequences (VDict m) = true ->
    _object_hook bases processor m = Ok r ->
    loads_hook bases processor (VDict m) = Ok r
    /\ exists rv,
         r = VDict rv /\ keys rv = keys m
         /\ (forall k v,
                dict_get k m = Some v -> (forall d, v <> VDict d) ->
                dict_get k rv = Some v)
         /\ (forall k d,
                dict_get k m = Some (VDict d) ->
                exists n, dict_get k rv = Some n /\
                          pack_dict bases processor d k = Ok n).
Proof.
  intros bases processor m r Hd Hs Hh.
  unfold _object_hook in Hh.
  destruct (object_hook_items bases processor m []) as [rv|e] eqn:Hrv;
    [|discriminate].
  cbn [bind] in Hh. injection Hh as <-.
  pose proof Hd as Hd0.
  apply distinct_keys_dict in Hd. destruct Hd as [Hnd Hsub].
  destruct (loop_appends (hook_entry bases processor)
              (object_hook_items bases processor)
              (fun acc => eq_refl) (fun k v d acc => eq_refl)
              m [] rv Hnd (fun _ _ Hc0 => Hc0) Hrv) as (xs & Hxs & Hall).
  cbn [app] in Hxs. subst xs.
  assert (Hc : Forall (fun kv => hook_commutes bases processor (snd kv)) m).
  { rewrite plain_sequences_dict, forallb_forall in Hs.
    rewrite Forall_forall in *.
    intros kv Hin. apply loads_hook_commutes; [apply Hsub|apply Hs]; exact Hin. }
  split; [exact (hook_round _ _ _ _ Hnd Hc Hall)|].
  exists rv. split; [reflexivity|]. split; [|split].
  - exact (Forall2_keys (fun k v x => hook_entry bases processor k v = Ok x)
             _ _ Hall).
  - intros k v Hg Hv.
    destruct (Forall2_get (hook_entry bases processor) _ _ k v Hall Hg)
      as (x & Hx & He).
    destruct v; cbn [hook_entry] in He;
      try (injection He as <-; exact Hx).
    exfalso. apply (Hv d). reflexivity.
  - intros k d Hg.
    destruct (Forall2_get (hook_entry bases processor) _ _ k (VDict d) Hall Hg)
      as (x & Hx & He).
    exists x. split; [exact Hx|exact He].
Qed.

(** *** Sequences in the decoders *)




(** *** A successful [load] *)

Lemma plain_sequences_resolved :
  forall v k x,
    distinct_keys v -> plain_sequences v = true ->
    path_resolve_item k v = Ok x -> plain_sequences x = true.
Proof.
  intros v. induction v using value_ind'; intros k x Hd Hs Hr;
    rewrite path_resolve_item_unfold in Hr;
    try (unfold convert_path in Hr; destruct (has_path k);
         [destruct (normalize_str _ _ Hr) as [s0 ->]; reflexivity
         |injection Hr as <-; exact Hs]).
  rename H into IH.
  destruct (path_resolve_items d []) as [rv|e] eqn:Hrv; [|discriminate].
  cbn [bind] in Hr. injection Hr as <-.
  apply distinct_keys_dict in Hd. destruct Hd as [Hnd Hsub].
  destruct (loop_appends path_resolve_item path_resolve_items
              (fun acc => eq_refl) (fun k v d acc => eq_refl)
              d [] rv Hnd (fun _ _ Hc => Hc) Hrv) as (xs & Hxs & Hall).
  cbn [app] in Hxs. subst xs.
  rewrite plain_sequences_dict in *. clear Hrv Hnd.
  induction Hall as [|[k0 v0] [k1 x1] d rv [_ Hx] _ IHall]; [reflexivity|].
  cbn [forallb fst snd] in *.
  apply Bool.andb_true_iff in Hs. destruct Hs as [Hs0 Hs].
  inversion IH as [|? ? Hv IH']; subst.
  inversion Hsub as [|? ? Hd0 Hsub']; subst.
  rewrite (Hv k0 x1 Hd0 Hs0 Hx). cbn [andb].
  apply IHall; assumption.
Qed.

(** [load] up to the parsed document. *)
Lemma load_parsed :
  forall (w : world) (lp : value) (p : ppath) (sp text : string)
         (fs' : fsys) (data : value),
    dict_get "_save_path_" (self w) = Some (VPath sp) ->
    mkdir (disk w) (parent (parse_path sp)) = Ok fs' ->
    Path lp = Ok p ->
    read (disk w) p = Ok text ->
    (suffix p = ".json" /\ json_parse text = Ok data
     \/ suffix p = ".toml" /\ toml_parse text = Ok data) ->
    load lp w
    = match path_resolve data with
      | Ok raw_dict =>
          (if truthy raw_dict then
             conv <~ lift (s <- dumps raw_dict ;; ConfigDecoder_loads s) ;;
             self_setattr "_converted_" conv ;;;
             c <~ self_getattr "_converted_" ;;
             self_method "set_attr" ;;;
             self_set_attr c
           else ret tt) (mkworld (self w) fs')
      | Raise e => (mkworld (self w) fs', Raise e)
      end.
Proof.
  intros w lp p sp text fs' data Hsp Hm HP Hread Hparse.
  assert (Hf : is_file (disk w) p = true).
  { apply (stat_is_file _ _ text). apply read_stat. exact Hread. }
  pose proof (stat_mkdir_file _ _ _ p Hm Hf) as Hf'.
  pose proof (mkdir_read _ _ _ _ _ Hm Hread) as Hread'.
  unfold load, bindM at 1 2 3 4 5 6 7, self_getattr, as_path, self_mkdir,
    lift, get_disk, raise, ret.
  rewrite getattr_Config_plain by reflexivity.
  rewrite Hsp. cbn [bind]. rewrite Hm. cbn [disk self]. rewrite HP.
  rewrite Hf', (is_file_exists _ _ Hf'). cbn [andb].
  destruct Hparse as [[Hsuf Hparse]|[Hsuf Hparse]];
    rewrite Hsuf; cbn [String.eqb Ascii.eqb Bool.eqb];
    rewrite Hread'; cbn [bind]; rewrite Hparse;
    destruct (path_resolve data); reflexivity.
Qed.

(** The keys of a constructible mapping are not special names. *)
Lemma constructible_keys :
  forall b d,
    constructible b (VDict d) = true ->
    Forall (fun k => is_special k = false) (keys d).
Proof.
  intros b d H. rewrite constructible_dict, forallb_forall in H.
  apply Forall_forall. intros k Hin. unfold keys in Hin.
  apply in_map_iff in Hin. destruct Hin as (kv & <- & Hin).
  specialize (H kv Hin).
  apply Bool.andb_true_iff in H. destruct H as [H _].
  apply Bool.andb_true_iff in H. destruct H as [H _].
  unfold plain_key in H. apply Bool.andb_true_iff in H. destruct H as [H _].
  apply Bool.negb_true_iff in H. exact H.
Qed.

(** On the store, a loop of [set_attr] that names neither property nor a
    special name and whose conversions all end normally is an update of
    the attributes. *)
Lemma set_attr_loop_Config :
  forall data attrs,
    ~ In "save_path" (keys data) -> ~ In "key_path" (keys data) ->
    Forall (fun k => is_special k = false) (keys data) ->
    Forall (fun kv => exists x, convert_path (fst kv) (snd kv) = Ok x) data ->
    set_attr_loop ConfigCls data None attrs = (dict_update attrs data, Ok tt).
Proof.
  induction data as [|[k v] data IH]; intros attrs Hs Hk Hsp Hall;
    [reflexivity|].
  inversion Hall as [|? ? [x Hx] Hall']; subst. cbn [fst snd] in Hx.
  inversion Hsp as [|? ? Hsp0 Hsp']; subst.
  cbn [set_attr_loop]. rewrite Hx. cbn [bind].
  rewrite setattr_plain; [|exact Hsp0| |].
  - rewrite IH; [reflexivity| | |exact Hsp'|exact Hall'].
    + intros Hc. apply Hs. right. exact Hc.
    + intros Hc. apply Hk. right. exact Hc.
  - destruct (String.eqb k "save_path") eqn:E1; [|reflexivity].
    apply String.eqb_eq in E1. exfalso. apply Hs. left. exact E1.
  - destruct (String.eqb k "key_path") eqn:E2; [|reflexivity].
    apply String.eqb_eq in E2. exfalso. apply Hk. left. exact E2.
Qed.

Lemma to_node_other :
  forall b k x, (forall d, x <> VDict d) -> to_node b k x = x.
Proof.
  intros b k x Hx. destruct x; try reflexivity.
  exfalso. apply (Hx d). reflexivity.
Qed.

(** An entry of a resolved mapping that the decoder of the store accepts:
    the hook stores its tree, and [set_attr] can convert that tree. *)
Lemma hook_resolved_entry :
  forall v k x,
    distinct_keys v ->
    nameable k v = true ->
    constructible BaseConfig v = true ->
    path_resolve_item k v = Ok x ->
    entry_ok k x = true ->
    hook_entry BaseConfig process k x = Ok (to_node BaseConfig k x)
    /\ exists y, convert_path k (to_node BaseConfig k x) = Ok y.
Proof.
  intros v k x Hd Hname Hcons Hr He.
  pose proof (distinct_resolved _ _ _ Hd Hr) as Hdx.
  pose proof (nameable_resolved _ _ _ Hr Hname) as Hnx.
  pose proof (constructible_resolved _ _ _ BaseConfig Hd Hcons Hr) as Hcx.
  pose proof (path_resolve_item_idempotent _ _ _ Hd Hr) as Hfix.
  destruct (proj2 (pack_fixed x k Hdx Hnx Hcx Hfix) He) as [y Hy].
  destruct (pack_resolved v k x y Hd Hr Hy) as [-> _].
  destruct x as [| | | | |l|d| | | |];
    try (split; [reflexivity|];
         rewrite path_resolve_item_unfold in Hfix; eexists; exact Hfix).
  unfold entry_ok in He. apply Bool.andb_true_iff in He.
  destruct He as [Hk _]. apply Bool.negb_true_iff in Hk.
  split.
  - cbn [hook_entry]. rewrite pack_item_unfold in Hy.
    destruct (pack_dict BaseConfig process d k) as [n|e]; [|discriminate].
    cbn [bind] in Hy. unfold process in Hy. rewrite Hk in Hy.
    cbn [bind] in Hy. destruct (truthy n); exact Hy.
  - unfold convert_path. rewrite Hk. eexists. reflexivity.
Qed.

Lemma hook_resolved :
  forall m m',
    distinct_keys (VDict m) ->
    constructible BaseConfig (VDict m) = true ->
    path_resolve (VDict m) = Ok (VDict m') ->
    no_mapping_under_path (VDict m') = true ->
    keys m' = keys m
    /\ Forall2 (fun kv kx => fst kx = fst kv /\
                             hook_entry BaseConfig process (fst kv) (snd kv)
                             = Ok (snd kx))
         m' (map (fun kv => (fst kv, to_node BaseConfig (fst kv) (snd kv))) m')
    /\ Forall (fun kv => exists y, convert_path (fst kv) (snd kv) = Ok y)
         (map (fun kv => (fst kv, to_node BaseConfig (fst kv) (snd kv))) m').
Proof.
  intros m m' Hd Hcons Hr Hn.
  rewrite constructible_dict in Hcons.
  cbn [path_resolve] in Hr.
  destruct (path_resolve_items m []) as [rv|e] eqn:Hrv; [|discriminate].
  cbn [bind] in Hr. injection Hr as <-.
  apply distinct_keys_dict in Hd. destruct Hd as [Hnd Hsub].
  destruct (loop_appends path_resolve_item path_resolve_items
              (fun acc => eq_refl) (fun k v d acc => eq_refl)
              m [] rv Hnd (fun _ _ Hc => Hc) Hrv) as (xs & Hxs & Hall).
  cbn [app] in Hxs. subst xs.
  split.
  { exact (Forall2_keys (fun k v x => path_resolve_item k v = Ok x) _ _ Hall). }
  rewrite no_mapping_under_path_dict in Hn.
  clear Hrv Hnd.
  induction Hall as [|[k0 v0] [k1 x1] m rv [Hk Hx] _ IHall].
  - split; constructor.
  - cbn [fst snd] in *. subst k1.
    cbn [forallb fst snd] in Hn, Hcons. apply Bool.andb_true_iff in Hn.
    destruct Hn as [He Hn].
    inversion Hsub as [|? ? Hd0 Hsub']; subst. cbn [snd] in Hd0.
    apply Bool.andb_true_iff in Hcons. destruct Hcons as [H0 Hcons].
    apply Bool.andb_true_iff in H0. destruct H0 as [H0 Hc0].
    apply Bool.andb_true_iff in H0. destruct H0 as [_ Hn0].
    destruct (hook_resolved_entry v0 k0 x1 Hd0 Hn0 Hc0 Hx He) as [Hh Hc].
    destruct (IHall Hsub' Hcons Hn) as [H1 H2].
    cbn [map fst snd].
    split; constructor; try assumption.
    split; [reflexivity|exact Hh].
Qed.

(** X25: a successful [load], on a store that has kept its method
    [set_attr] (no attribute under that name).  For a [.json] or [.toml]
    file whose document is a non-empty mapping of JSON values (distinct
    keys, no mapping inside a sequence, neither [save_path] nor [key_path]
    at the top level) that the decoder makes plain objects of (no key is
    a special name [__x__], and the keys of the nested mappings are names
    [type] takes: ASCII, no NUL) and in whose resolved form no mapping sits
    under a key that contains ["path"], [load] ends normally.  Afterwards
    every
    top-level key is an attribute of the store: a mapping has become the
    tree of its resolved form and any other value is the resolved value;
    [_converted_] holds the decoded mapping with the same entries; every
    other attribute is as before, and on the file system only the
    directory of the save target was made. *)
Theorem load_sets_attributes :
  forall (w : world) (load_path : value) (p : ppath) (sp text : string)
         (fs' : fsys) (m m' : dict),
    dict_get "_save_path_" (self w) = Some (VPath sp) ->
    mkdir (disk w) (parent (parse_path sp)) = Ok fs' ->
    Path load_path = Ok p ->
    read (disk w) p = Ok text ->
    (suffix p = ".json" /\ json_parse text = Ok (VDict m)
     \/ suffix p = ".toml" /\ toml_parse text = Ok (VDict m)) ->
    m <> [] ->
    distinct_keys (VDict m) ->
    json_ok (VDict m) = true ->
    plain_sequences (VDict m) = true ->
    constructible BaseConfig (VDict m) = true ->
    dict_get "set_attr" (self w) = None ->
    ~ In "save_path" (keys m) -> ~ In "key_path" (keys m) ->
    path_resolve (VDict m) = Ok (VDict m') ->
    no_mapping_under_path (VDict m') = true ->
    exists attrs,
      load load_path w = (mkworld attrs fs', Ok tt)
      /\ (forall k v,
             dict_get k m' = Some v ->
             getattr ConfigCls attrs k = Ok (to_node BaseConfig k v))
      /\ (~ In "_converted_" (keys m) ->
          dict_get "_converted_" attrs
          = Some (VDict (map (fun kv =>
                                (fst kv, to_node BaseConfig (fst kv) (snd kv)))
                             m')))
      /\ (forall k,
             ~ In k (keys m) -> String.eqb k "_converted_" = false ->
             dict_get k attrs = dict_get k (self w)).
Proof.
  intros w lp p sp text fs' m m' Hsp Hm HP Hread Hparse Hne Hd Hj Hs
    Hcons Hmeth Hnsp Hnkp Hr Hn.
  set (conv := map (fun kv => (fst kv, to_node BaseConfig (fst kv) (snd kv)))
                   m').
  destruct (hook_resolved m m' Hd Hcons Hr Hn) as (Hkeys & Hhook & Hconvs).
  fold conv in Hhook, Hconvs.
  assert (Hi : path_resolve_item EmptyString (VDict m) = Ok (VDict m')).
  { rewrite path_resolve_item_unfold. exact Hr. }
  pose proof (distinct_resolved _ _ _ Hd Hi) as Hd'.
  pose proof (json_ok_resolved _ _ _ Hd Hj Hi) as Hj'.
  pose proof (plain_sequences_resolved _ _ _ Hd Hs Hi) as Hs'.
  pose proof (proj1 (proj1 (distinct_keys_dict m') Hd')) as Hnd'.
  assert (Hkc : keys conv = keys m').
  { unfold conv, keys. rewrite map_map. reflexivity. }
  assert (Hloads : ConfigDecoder_loads (VDict m') = Ok (VDict conv)).
  { unfold ConfigDecoder_loads.
    apply hook_round; [exact Hnd'| |exact Hhook].
    apply distinct_keys_dict in Hd'. destruct Hd' as [_ Hsub'].
    rewrite plain_sequences_dict, forallb_forall in Hs'.
    rewrite Forall_forall in *.
    intros kv Hin.
    apply loads_hook_commutes; [apply Hsub'|apply Hs']; exact Hin. }
  assert (Htr : truthy (VDict m') = true).
  { destruct m' as [|kv m']; [|reflexivity].
    destruct m; [exfalso; apply Hne; reflexivity|discriminate Hkeys]. }
  exists (dict_update (dict_set "_converted_" (VDict conv) (self w)) conv).
  assert (Hget : forall k,
    dict_get k (dict_update (dict_set "_converted_" (VDict conv) (self w)) conv)
    = match dict_get k conv with
      | Some v => Some v
      | None => if String.eqb k "_converted_" then Some (VDict conv)
                else dict_get k (self w)
      end).
  { intros k. rewrite dict_get_update, dict_get_rev, dict_get_set;
      [reflexivity|rewrite Hkc; exact Hnd']. }
  assert (Hgc : forall k,
    dict_get k conv = option_map (to_node BaseConfig k) (dict_get k m')).
  { intros k. unfold conv. apply (dict_get_map_keyed (to_node BaseConfig)). }
  split; [|split; [|split]].
  - rewrite (load_parsed w lp p sp text fs' (VDict m) Hsp Hm HP Hread Hparse).
    rewrite Hr, Htr.
    unfold bindM, lift, self_setattr, self_getattr, self_method, method,
      self_set_attr, dumps.
    rewrite Hj'. cbn [bind]. rewrite Hloads, setattr_converted.
    cbn [self disk].
    rewrite getattr_Config_plain by reflexivity.
    rewrite !dict_get_set, String.eqb_refl.
    cbn [String.eqb Ascii.eqb Bool.eqb]. rewrite Hmeth.
    cbn [set_attr].
    rewrite set_attr_loop_Config;
      [reflexivity| | | |exact Hconvs]; rewrite Hkc, Hkeys;
      [assumption|assumption|exact (constructible_keys _ _ Hcons)].
  - intros k v Hg.
    assert (Hin : In k (keys m)).
    { rewrite <- Hkeys. exact (dict_get_In_keys _ _ _ Hg). }
    rewrite getattr_Config_plain.
    + rewrite Hget, Hgc, Hg. reflexivity.
    + apply String.eqb_neq. intros ->. exact (Hnsp Hin).
    + apply String.eqb_neq. intros ->. exact (Hnkp Hin).
  - intros Hnc. rewrite Hget, Hgc.
    destruct (dict_get "_converted_" m') as [v|] eqn:Hg; [|reflexivity].
    exfalso. apply Hnc. rewrite <- Hkeys. exact (dict_get_In_keys _ _ _ Hg).
  - intros k Hnk Hk. rewrite Hget, Hgc, Hk.
    destruct (dict_get k m') as [v|] eqn:Hg; [|reflexivity].
    exfalso. apply Hnk. rewrite <- Hkeys. exact (dict_get_In_keys _ _ _ Hg).
Qed.

(** *** A successful [restore] *)

Lemma dict_get_snoc :
  forall k k0 v0 (l : dict),
    dict_get k (l ++ [(k0, v0)])%list
    = match dict_get k l with
      | Some v => Some v
      | None => if String.eqb k k0 then Some v0 else None
      end.
Proof.
  intros k k0 v0 l. induction l as [|[k1 v1] l IH]; cbn;
    [destruct (String.eqb k k0); reflexivity|].
  destruct (String.eqb k k1); [reflexivity|exact IH].
Qed.

Lemma is_location_false :
  forall k,
    is_location k = false ->
    String.eqb k "save_path" = false /\ String.eqb k "key_path" = false
    /\ String.eqb k "_save_path_" = false /\ String.eqb k "_key_path_" = false.
Proof.
  intros k H. unfold is_location in H.
  apply Bool.orb_false_iff in H. destruct H as [H H4].
  apply Bool.orb_false_iff in H. destruct H as [H H3].
  apply Bool.orb_false_iff in H. destruct H as [H1 H2].
  repeat split; assumption.
Qed.

(** One assignment on the store changes the slot of a property, or the
    attribute of that name. *)
Lemma setattr_Config_get :
  forall attrs k0 v0 attrs1 k,
    setattr ConfigCls attrs k0 v0 = Ok attrs1 ->
    String.eqb k "_save_path_" = false ->
    String.eqb k "_key_path_" = false ->
    dict_get k attrs1
    = if String.eqb k0 "save_path" || String.eqb k0 "key_path"
      then dict_get k attrs
      else if String.eqb k k0 then Some v0 else dict_get k attrs.
Proof.
  intros attrs k0 v0 attrs1 k Hs H1 H2. unfold setattr in Hs.
  destruct (is_special k0); [discriminate|].
  destruct (String.eqb k0 "save_path").
  { destruct (resolved v0) as [p|e]; [|discriminate]. cbn [bind] in Hs.
    injection Hs as <-. rewrite dict_get_set, H1. reflexivity. }
  destruct (String.eqb k0 "key_path").
  { destruct (resolved v0) as [p|e]; [|discriminate]. cbn [bind] in Hs.
    injection Hs as <-. rewrite dict_get_set, H2. reflexivity. }
  injection Hs as <-. rewrite dict_get_set. reflexivity.
Qed.

(** The loop of [set_attr] on the store ends normally when every
    conversion does. *)
Lemma set_attr_loop_Config_total :
  forall data attrs,
    Forall (fun k => is_special k = false) (keys data) ->
    Forall (fun kv => exists y, convert_path (fst kv) (snd kv) = Ok y) data ->
    exists attrs', set_attr_loop ConfigCls data None attrs = (attrs', Ok tt).
Proof.
  induction data as [|[k v] data IH]; intros attrs Hsp Hall.
  - exists attrs. reflexivity.
  - inversion Hall as [|? ? [y Hy] Hall']; subst. cbn [fst snd] in Hy.
    inversion Hsp as [|? ? Hsp0 Hsp']; subst.
    cbn [set_attr_loop]. rewrite Hy. cbn [bind]. unfold setattr.
    rewrite Hsp0.
    destruct (String.eqb k "save_path") eqn:E1.
    { apply String.eqb_eq in E1. subst k.
      unfold convert_path, normalize in Hy. cbn [has_path] in Hy.
      change (has_path "save_path") with true in Hy. cbn iota in Hy.
      destruct (resolved v) as [p|e]; [|discriminate]. cbn [bind].
      apply IH; assumption. }
    destruct (String.eqb k "key_path") eqn:E2.
    { apply String.eqb_eq in E2. subst k.
      unfold convert_path, normalize in Hy.
      change (has_path "key_path") with true in Hy. cbn iota in Hy.
      destruct (resolved v) as [p|e]; [|discriminate]. cbn [bind].
      apply IH; assumption. }
    apply IH; assumption.
Qed.

(** After the loop an attribute other than the locations holds the last
    value the data has for its name. *)
Lemma set_attr_loop_Config_get :
  forall data attrs attrs' k,
    set_attr_loop ConfigCls data None attrs = (attrs', Ok tt) ->
    is_location k = false ->
    dict_get k attrs'
    = match dict_get k (rev data) with
      | Some v => Some v
      | None => dict_get k attrs
      end.
Proof.
  induction data as [|[k0 v0] data IH]; intros attrs attrs' k H Hk.
  - cbn in H. injection H as <-. reflexivity.
  - cbn [set_attr_loop] in H.
    destruct (convert_path k0 v0) as [y|e]; [|discriminate]. cbn [bind] in H.
    destruct (setattr ConfigCls attrs k0 v0) as [attrs1|e] eqn:Hs;
      [|discriminate].
    rewrite (IH _ _ k H Hk). cbn [rev]. rewrite dict_get_snoc.
    destruct (dict_get k (rev data)); [reflexivity|].
    destruct (is_location_false k Hk) as (H1 & H2 & H3 & H4).
    rewrite (setattr_Config_get _ _ _ _ k Hs H3 H4).
    destruct (String.eqb k0 "save_path") eqn:E1.
    { apply String.eqb_eq in E1. subst k0. rewrite H1. reflexivity. }
    destruct (String.eqb k0 "key_path") eqn:E2.
    { apply String.eqb_eq in E2. subst k0. rewrite H2. reflexivity. }
    cbn [orb]. destruct (String.eqb k k0); reflexivity.
Qed.

(** After the loop a property of the store reads as the normalized form of
    the last value the data has for it, when the data does not name the
    slot itself. *)
Lemma set_attr_loop_Config_property :
  forall prop slot,
    (prop = "save_path" /\ slot = "_save_path_")
    \/ (prop = "key_path" /\ slot = "_key_path_") ->
    forall data attrs attrs',
      set_attr_loop ConfigCls data None attrs = (attrs', Ok tt) ->
      ~ In slot (keys data) ->
      match dict_get prop (rev data) with
      | Some v => path_property attrs' slot = normalize v
      | None => dict_get slot attrs' = dict_get slot attrs
      end.
Proof.
  intros prop slot Hps.
  induction data as [|[k0 v0] data IH]; intros attrs attrs' H Hn.
  - cbn in H. injection H as <-. reflexivity.
  - cbn [set_attr_loop] in H.
    destruct (convert_path k0 v0) as [y|e]; [|discriminate]. cbn [bind] in H.
    destruct (setattr ConfigCls attrs k0 v0) as [attrs1|e] eqn:Hs;
      [|discriminate].
    assert (Hn' : ~ In slot (keys data)).
    { intros Hc. apply Hn. right. exact Hc. }
    assert (Hk0 : String.eqb slot k0 = false).
    { apply String.eqb_neq. intros Hc. apply Hn. left. symmetry. exact Hc. }
    pose proof (IH _ _ H Hn') as Hrest.
    cbn [rev]. rewrite dict_get_snoc.
    destruct (dict_get prop (rev data)); [exact Hrest|].
    clear IH H.
    destruct (String.eqb prop k0) eqn:Ep.
    + (* the property itself is assigned *)
      apply String.eqb_eq in Ep. subst k0.
      unfold path_property. rewrite Hrest.
      destruct Hps as [[-> ->]|[-> ->]];
        rewrite ?setattr_save_path, ?setattr_key_path in Hs; unfold normalize;
        (destruct (resolved v0) as [p|e] eqn:Hr; [|discriminate]);
        cbn [bind] in *; injection Hs as <-;
        destruct (resolved_stored _ _ Hr) as (q & -> & Hq);
        rewrite dict_get_set, String.eqb_refl; unfold PathObj;
        rewrite (as_posix_parse_resolved _ Hq); reflexivity.
    + (* another name is assigned *)
      rewrite Hrest. unfold setattr in Hs.
      destruct (is_special k0); [discriminate|].
      destruct (String.eqb k0 "save_path") eqn:E1;
        [|destruct (String.eqb k0 "key_path") eqn:E2].
      * apply String.eqb_eq in E1. subst k0.
        destruct (resolved v0) as [p|e]; [|discriminate]. cbn [bind] in Hs.
        injection Hs as <-. rewrite dict_get_set.
        destruct Hps as [[-> ->]|[-> ->]]; [discriminate Ep|reflexivity].
      * apply String.eqb_eq in E2. subst k0.
        destruct (resolved v0) as [p|e]; [|discriminate]. cbn [bind] in Hs.
        injection Hs as <-. rewrite dict_get_set.
        destruct Hps as [[-> ->]|[-> ->]]; [reflexivity|discriminate Ep].
      * injection Hs as <-. rewrite dict_get_set, Hk0. reflexivity.
Qed.

Lemma dict_get_absent :
  forall k (d : dict), ~ In k (keys d) -> dict_get k d = None.
Proof.
  intros k d Hn. destruct (dict_get k d) as [v|] eqn:Hg; [|reflexivity].
  exfalso. apply Hn. exact (dict_get_In_keys _ _ _ Hg).
Qed.

(** X26: a successful [restore], on a store that has kept its methods
    [_decrypt] and [set_attr] (no attribute under these names).  When the
    key path is a regular file, [_decrypt] returns a text whose document
    is a mapping [m] (distinct keys, no mapping inside a sequence, no
    special name [__x__] at the top level), and for every top-level entry
    the hook of the decoder ends normally with a value that the path
    conversion of [set_attr] accepts, [restore] ends normally and leaves
    the file system as it is.  Afterwards every top-level key other than
    the names of the two locations is an attribute holding what the hook
    gave for it: the value as it is in the document when it is not a
    mapping (not normalized, whatever the key), the object of [pack_dict]
    when it is.  A [save_path] or [key_path] entry of the document moves
    the location of the store: the property reads as the normalized form
    of the entry.  Attributes the document does not name are as before,
    [_converted_] aside. *)
Theorem restore_sets_attributes :
  forall (w : world) (sp kp text : string) (m : dict),
    dict_get "_save_path_" (self w) = Some (VPath sp) ->
    dict_get "_key_path_" (self w) = Some (VPath kp) ->
    dict_get "_decrypt" (self w) = None ->
    dict_get "set_attr" (self w) = None ->
    is_file (disk w) (parse_path kp) = true ->
    _decrypt VNone w = (w, Ok text) ->
    json_parse text = Ok (VDict m) ->
    distinct_keys (VDict m) ->
    plain_sequences (VDict m) = true ->
    Forall (fun k => is_special k = false) (keys m) ->
    Forall (fun kv =>
              exists x y,
                hook_entry BaseConfig process (fst kv) (snd kv) = Ok x /\
                convert_path (fst kv) x = Ok y) m ->
    exists attrs,
      restore w = (mkworld attrs (disk w), Ok tt)
      /\ (forall k v,
             dict_get k m = Some v -> is_location k = false ->
             exists x,
               hook_entry BaseConfig process k v = Ok x /\
               getattr ConfigCls attrs k = Ok x)
      /\ (forall v,
             dict_get "save_path" m = Some v ->
             ~ In "_save_path_" (keys m) ->
             getattr ConfigCls attrs "save_path" = normalize v)
      /\ (forall v,
             dict_get "key_path" m = Some v ->
             ~ In "_key_path_" (keys m) ->
             getattr ConfigCls attrs "key_path" = normalize v)
      /\ (forall k,
             ~ In k (keys m) -> is_location k = false ->
             String.eqb k "_converted_" = false ->
             dict_get k attrs = dict_get k (self w)).
Proof.
  intros w sp kp text m Hsp Hkp Hdecm Hsetm Hf Hdec Hparse Hd Hs Hspec Hall.
  assert (Hconv : exists conv,
    Forall2 (fun kv kx => fst kx = fst kv /\
                          hook_entry BaseConfig process (fst kv) (snd kv)
                          = Ok (snd kx))
            m conv /\
    Forall (fun kv => exists y, convert_path (fst kv) (snd kv) = Ok y) conv).
  { clear Hd Hs Hparse Hspec.
    induction Hall as [|[k v] m (x & y & Hx & Hy) _ IH].
    - exists []. split; constructor.
    - destruct IH as (conv & H1 & H2). cbn [fst snd] in *.
      exists ((k, x) :: conv).
      split; constructor; try assumption.
      + split; [reflexivity|exact Hx].
      + exists y. exact Hy. }
  destruct Hconv as (conv & Hhook & Hconvs).
  pose proof (Forall2_keys
                (fun k v x => hook_entry BaseConfig process k v = Ok x)
                _ _ Hhook) as Hkeys.
  apply distinct_keys_dict in Hd. destruct Hd as [Hnd Hsub].
  assert (Hndc : NoDup (keys conv)) by (rewrite Hkeys; exact Hnd).
  assert (Hloads : ConfigDecoder_loads (VDict m) = Ok (VDict conv)).
  { unfold ConfigDecoder_loads.
    apply hook_round; [exact Hnd| |exact Hhook].
    rewrite plain_sequences_dict, forallb_forall in Hs.
    rewrite Forall_forall in *.
    intros kv Hin.
    apply loads_hook_commutes; [apply Hsub|apply Hs]; exact Hin. }
  destruct (set_attr_loop_Config_total conv
              (dict_set "_converted_" (VDict conv) (self w))
              (eq_ind_r (Forall (fun k => is_special k = false)) Hspec Hkeys)
              Hconvs)
    as (attrs & Hloop).
  exists attrs.
  assert (Hnotdict : forall k v x,
    has_path k = true ->
    dict_get k m = Some v ->
    hook_entry BaseConfig process k v = Ok x -> x = v).
  { intros k v x Hk Hg Hx.
    destruct v; cbn [hook_entry] in Hx; try (injection Hx as <-; reflexivity).
    exfalso.
    rewrite Forall_forall in Hall.
    destruct (Hall (k, VDict d) (dict_get_In _ _ _ Hg))
      as (x' & y & Hx' & Hy).
    cbn [fst snd hook_entry] in Hx', Hy.
    unfold pack_dict in Hx'.
    destruct (pack_items BaseConfig process d []) as [a|e]; [|discriminate].
    cbn [bind] in Hx'. apply new_object_Ok in Hx'. subst x'.
    unfold convert_path in Hy. rewrite Hk, normalize_node in Hy.
    discriminate. }
  split; [|split; [|split; [|split]]].
  - unfold restore, bindM at 1 2 3 4, self_getattr, as_path, get_disk, ret.
    rewrite getattr_Config_plain by reflexivity.
    rewrite Hkp. cbn [truthy]. cbn [disk].
    rewrite Hf, (is_file_exists _ _ Hf). cbn [andb].
    unfold bindM at 1.
    rewrite getattr_Config_plain by reflexivity.
    rewrite Hsp.
    unfold bindM at 1, self_method at 1, method. rewrite Hdecm.
    unfold bindM at 1.
    change (_decrypt (VPath sp) w) with (_decrypt VNone w).
    rewrite Hdec.
    unfold bindM, lift, self_setattr, self_getattr, self_method, method,
      self_set_attr.
    rewrite Hparse. cbn [bind]. rewrite Hloads, setattr_converted.
    cbn [self disk].
    rewrite getattr_Config_plain by reflexivity.
    rewrite !dict_get_set, String.eqb_refl.
    cbn [String.eqb Ascii.eqb Bool.eqb]. rewrite Hsetm.
    cbn [set_attr]. rewrite Hloop. reflexivity.
  - intros k v Hg Hk.
    destruct (Forall2_get (hook_entry BaseConfig process) _ _ k v Hhook Hg)
      as (x & Hx & He).
    exists x. split; [exact He|].
    destruct (is_location_false k Hk) as (H1 & H2 & _).
    rewrite getattr_Config_plain by assumption.
    rewrite (set_attr_loop_Config_get _ _ _ k Hloop Hk).
    rewrite (dict_get_rev _ k Hndc), Hx. reflexivity.
  - intros v Hg Hn.
    destruct (Forall2_get (hook_entry BaseConfig process) _ _ _ v Hhook Hg)
      as (x & Hx & He).
    rewrite (Hnotdict "save_path" v x eq_refl Hg He) in Hx.
    pose proof (set_attr_loop_Config_property "save_path" "_save_path_"
                  (or_introl (conj eq_refl eq_refl)) _ _ _ Hloop
                  (eq_ind_r (fun l => ~ In "_save_path_" l) Hn Hkeys)) as Hp.
    rewrite (dict_get_rev _ _ Hndc), Hx in Hp. exact Hp.
  - intros v Hg Hn.
    destruct (Forall2_get (hook_entry BaseConfig process) _ _ _ v Hhook Hg)
      as (x & Hx & He).
    rewrite (Hnotdict "key_path" v x eq_refl Hg He) in Hx.
    pose proof (set_attr_loop_Config_property "key_path" "_key_path_"
                  (or_intror (conj eq_refl eq_refl)) _ _ _ Hloop
                  (eq_ind_r (fun l => ~ In "_key_path_" l) Hn Hkeys)) as Hp.
    rewrite (dict_get_rev _ _ Hndc), Hx in Hp. exact Hp.
  - intros k Hn Hk Hc.
    rewrite (set_attr_loop_Config_get _ _ _ k Hloop Hk).
    rewrite (dict_get_rev _ k Hndc), dict_get_absent
      by (rewrite Hkeys; exact Hn).
    rewrite dict_get_set, Hc. reflexivity.
Qed.

End Configurator.


(** ** Runs in the sample environment *)

(** C1: the round trip breaks where a mapping sits under a key that
    contains ["path"].  The mapping [{"paths": {"bin": "/usr/bin"}}] is its
    own normalized form ([path_resolve] walks into the inner mapping), but
    the decoder hands the node built for ["paths"] to its processor, and
    [Path(node)] raises [TypeError]: there is no tree to encode.  The same
    happens one level down in [json.loads] and when [load] reads such a
    file. *)
Theorem decode_raises_under_path_key :
  let m := [("paths", VDict [("bin", VStr "/usr/bin")])] in
  path_resolve home_env (VDict m) = Ok (VDict m)
  /\ pack_dict BaseConfig (process home_env) m EmptyString
     = Raise TypeError
  /\ ConfigDecoder_loads home_env (VDict [("tool", VDict m)]) = Raise TypeError
  /\ load home_env sample_parse sample_parse (VStr "cfg.toml")
       (mkworld default_store toml_disk)
     = (mkworld default_store toml_disk, Raise TypeError).
Proof. repeat split; reflexivity. Qed.

(** C2: [update] with [{"path": "~/p"}] and no callback leaves the text
    ["~/p"] on the node, although its normalized form is ["/home/u/p"]. *)
Theorem set_attr_keeps_raw_path :
  let node := Dynamic "Project" BaseConfig in
  update home_env node [] (Some [("path", VStr "~/p")]) None []
  = ([("path", VStr "~/p")], Ok tt)
  /\ set_attr home_env node [] (VDict [("path", VStr "~/p")]) None
     = ([("path", VStr "~/p")], Ok tt)
  /\ convert_path home_env "path" (VStr "~/p") = Ok (VStr "/home/u/p")
  /\ path_resolve home_env (VDict [("path", VStr "~/p")])
     = Ok (VDict [("path", VStr "/home/u/p")]).
Proof. repeat split; reflexivity. Qed.

(** C3 fails as stated: a public attribute that holds a routine is left
    out, and the encoded store carries the save target and the key file
    under [save_path] and [key_path]. *)
Lemma encoded_store_shows_paths :
  let store := VNode ConfigCls (default_store ++ [("cb", VRoutine "len")])%list in
  getattr ConfigCls (default_store ++ [("cb", VRoutine "len")])%list "cb"
  = Ok (VRoutine "len")
  /\ is_private "cb" = false
  /\ encoded_get sample_str "cb" store = None
  /\ process_cls sample_str store
     = VDict [("key_path", VStr "/home/u/.everynet/secret.key");
              ("save_path", VStr "/home/u/.everynet/config")].
Proof. repeat split; reflexivity. Qed.

Lemma encode_omits_private_or_routine_witness :
  getattr ConfigCls default_store "save_path"
  = Ok (VStr "/home/u/.everynet/config")
  /\ (encoded_get sample_str "save_path" (VNode ConfigCls default_store) = None
      <-> is_private "save_path" = true
          \/ isroutine (VStr "/home/u/.everynet/config") = true).
Proof.
  split; [reflexivity|].
  apply (proj1 (encode_omits_private_or_routine sample_str ConfigCls
                  default_store)).
  reflexivity.
Defined.

Lemma BaseObject_update_both_discarded_witness :
  [("foo", VStr "bar")] <> [] /\ [("baz", VStr "fee")] <> []
  /\ BaseObject_update home_env [("version", VStr "1.0.0")]
       [("foo", VStr "bar")] [("baz", VStr "fee")]
     = ([("version", VStr "1.0.0")], Raise AttributeError).
Proof.
  split; [discriminate|]. split; [discriminate|].
  apply BaseObject_update_both_discarded; discriminate.
Defined.

Lemma restore_absent_key_noop_witness :
  let w := mkworld default_store [home_of []] in
  exists_ home_env (disk w) (parse_path "/home/u/.everynet/secret.key") = false
  /\ restore home_env sample_parse sample_load_key sample_decrypt w = (w, Ok tt).
Proof.
  split; [reflexivity|].
  apply restore_absent_key_noop with (kp := "/home/u/.everynet/secret.key");
    reflexivity.
Defined.

(** C6 fails as stated: the store keeps its state, but the error is the
    [FileNotFoundError] of [mkdir] when the directory of the save target
    cannot be made, whatever the extension of the file. *)
Lemma load_unsupported_mkdir_fails :
  let w := mkworld far_store yaml_disk in
  is_file home_env (disk w) (parse_path "cfg.yaml") = true
  /\ suffix (parse_path "cfg.yaml") = ".yaml"
  /\ load home_env sample_parse sample_parse (VStr "cfg.yaml") w
     = (w, Raise FileNotFoundError).
Proof. repeat split; reflexivity. Qed.

Lemma load_unsupported_format_witness :
  let w := mkworld default_store yaml_disk in
  is_file home_env (disk w) (parse_path "cfg.yaml") = true
  /\ supported (parse_path "cfg.yaml") = false
  /\ load home_env sample_parse sample_parse (VStr "cfg.yaml") w
     = (mkworld default_store
          [home_of [(".everynet", TDir [])];
           ("work", TDir [("cfg.yaml", TFile "build: Debug")])],
        Raise NotImplementedError).
Proof.
  split; [reflexivity|]. split; [reflexivity|].
  apply (proj1 (load_unsupported_format home_env sample_parse sample_parse
                  (mkworld default_store yaml_disk) (VStr "cfg.yaml")
                  (parse_path "cfg.yaml") "/home/u/.everynet/config"
                  eq_refl eq_refl eq_refl));
    reflexivity.
Defined.

(** C7 fails as stated: a set among the attributes is not turned into its
    string form, and the encoder raises. *)
Lemma encode_raises_on_set :
  let node := VNode (Dynamic "Project" BaseConfig) [("tags", VOpaque "{1, 2}")] in
  process_cls sample_str node = VDict [("tags", VOpaque "{1, 2}")]
  /\ iterencode sample_str node = Raise TypeError.
Proof. split; reflexivity. Qed.

Lemma encode_keeps_plain_values_witness :
  let attrs := [("tags", VOpaque "{1, 2}")] in
  let node := Dynamic "Project" BaseConfig in
  dict_get "tags" (public_members node attrs) = Some (VOpaque "{1, 2}")
  /\ encoded_get sample_str "tags" (VNode node attrs) = Some (VOpaque "{1, 2}")
  /\ iterencode sample_str (VNode node attrs) = Raise TypeError.
Proof.
  split; [reflexivity|].
  destruct (proj2 (encode_keeps_plain_values sample_str)
              (Dynamic "Project" BaseConfig) [("tags", VOpaque "{1, 2}")]
              "tags" (VOpaque "{1, 2}") eq_refl eq_refl) as [H1 H2].
  split; [exact H1|exact (H2 eq_refl)].
Defined.





(** A save target below the key file, which is a regular file: the
    exception of [restore] is [NotADirectoryError]. *)
Example restore_below_key_file :
  let store := [("_save_path_", VPath "/home/u/.everynet/secret.key/config");
                ("_key_path_", VPath "/home/u/.everynet/secret.key")] in
  let w := mkworld store (keyed_disk "3f9a") in
  exists_ home_env (disk w)
    (parse_path "/home/u/.everynet/secret.key/config") = false
  /\ restore home_env sample_parse sample_load_key sample_decrypt w
     = (w, Raise NotADirectoryError).
Proof. split; reflexivity. Qed.

(** An attribute of the store under the name of a method shadows it: with
    [set_attr] taken by a number, [restore] raises [TypeError] once the
    decoded mapping is stored. *)
Example restore_shadowed_set_attr :
  let w := mkworld (default_store ++ [("set_attr", VInt 1)])%list
             stored_disk in
  exists conv,
    restore home_env stored_parse sample_load_key sample_decrypt w
    = (mkworld (default_store ++ [("set_attr", VInt 1);
                                  ("_converted_", conv)])%list stored_disk,
       Raise TypeError).
Proof. eexists. reflexivity. Qed.

(** The scenario of the specification: the two-level mapping with a path
    under [project] goes through normalize, decode and encode and comes
    back with the path in its absolute form. *)
Example round_trip_sample :
  let m := [("project", VDict [("name", VStr "X"); ("path", VStr "~/p")]);
            ("build", VDict [("type", VStr "Debug")])] in
  let m' := [("project", VDict [("name", VStr "X"); ("path", VStr "/home/u/p")]);
             ("build", VDict [("type", VStr "Debug")])] in
  path_resolve home_env (VDict m) = Ok (VDict m')
  /\ (n <- pack_dict BaseConfig (process home_env) m' EmptyString ;;
      Ok (process_cls sample_str n))
     = Ok (VDict [("build", VDict [("type", VStr "Debug")]);
                  ("project", VDict [("name", VStr "X");
                                     ("path", VStr "/home/u/p")])]).
Proof. split; reflexivity. Qed.

(** A new store gets its two locations from the constructor. *)
Example Config_init_sample :
  Config_init home_env sample_parse sample_parse sample_load_key sample_decrypt
    VNone (VStr "~/.everynet/config") (VStr "~/.everynet/secret.key") false
    (mkworld [] [])
  = (mkworld default_store [], Ok tt).
Proof. reflexivity. Qed.

(** ** Runs of the further properties *)

Lemma project_mapping_distinct : distinct_keys (VDict project_mapping).
Proof.
  cbn. repeat split; repeat constructor; cbn; intuition discriminate.
Qed.

Lemma project_resolved_distinct : distinct_keys (VDict project_resolved).
Proof.
  cbn. repeat split; repeat constructor; cbn; intuition discriminate.
Qed.

Lemma convert_path_absolute_witness :
  has_path "key_path" = true
  /\ exists comps,
       VStr "/home/u/.everynet/secret.key"
       = VStr (String "/" (String.concat "/" comps)) /\
       Forall (fun c => clean c = true) comps.
Proof.
  split; [reflexivity|].
  apply (convert_path_absolute home_env "key_path"
           (VStr "~/.everynet/../.everynet/./secret.key"));
    reflexivity.
Defined.

Lemma path_resolve_idempotent_witness :
  path_resolve home_env (VDict project_mapping) = Ok (VDict project_resolved)
  /\ path_resolve home_env (VDict project_resolved)
     = Ok (VDict project_resolved).
Proof.
  split; [reflexivity|].
  apply (path_resolve_idempotent home_env project_mapping);
    [exact project_mapping_distinct|reflexivity].
Defined.

Lemma path_resolve_entries_witness :
  NoDup (keys [("name", VStr "X"); ("path", VStr "~/p")])
  /\ dict_get "name" [("name", VStr "X"); ("path", VStr "/home/u/p")]
     = Some (VStr "X").
Proof.
  assert (H : NoDup (keys [("name", VStr "X"); ("path", VStr "~/p")])).
  { repeat constructor; cbn; intuition discriminate. }
  split; [exact H|].
  apply (proj1 (proj2 (proj2
           (path_resolve_entries home_env
              [("name", VStr "X"); ("path", VStr "~/p")]
              [("name", VStr "X"); ("path", VStr "/home/u/p")]
              H eq_refl))) "name" (VStr "X"));
    [reflexivity|intros d; discriminate|reflexivity].
Defined.

Lemma default_round_trip_witness :
  json_ok (VDict project_mapping) = true
  /\ exists n,
       pack_dict default_bases default_processor project_mapping "root" = Ok n
       /\ iterencode sample_str n = Ok (process_cls sample_str n)
       /\ same_attrs (VDict project_mapping) (process_cls sample_str n).
Proof.
  split; [reflexivity|].
  apply (default_round_trip sample_str project_mapping "root"
           project_mapping_distinct eq_refl eq_refl eq_refl).
Defined.

Lemma decoder_accepts_iff_witness :
  path_resolve home_env (VDict project_mapping) = Ok (VDict project_resolved)
  /\ exists n,
       pack_dict BaseConfig (process home_env) project_resolved EmptyString
       = Ok n.
Proof.
  split; [reflexivity|].
  apply (proj2 (decoder_accepts_iff home_env project_mapping project_resolved
                  project_mapping_distinct eq_refl eq_refl)).
  reflexivity.
Defined.

Lemma round_trip_when_decoded_witness :
  json_ok (VDict project_mapping) = true
  /\ same_attrs (VDict project_resolved)
       (process_cls sample_str
          (to_node BaseConfig EmptyString (VDict project_resolved))).
Proof.
  split; [reflexivity|].
  apply (round_trip_when_decoded home_env sample_str project_mapping
           project_resolved
           (to_node BaseConfig EmptyString (VDict project_resolved))
           project_mapping_distinct eq_refl eq_refl eq_refl).
Defined.

Lemma update_lookup_witness :
  update home_env (Dynamic "Project" BaseConfig) [("version", VStr "1.0.0")]
    (Some [("foo", VStr "bar")]) None [("baz", VStr "fee")]
  = ([("version", VStr "1.0.0"); ("foo", VStr "bar"); ("baz", VStr "fee")],
     Ok tt)
  /\ dict_get "baz"
       [("version", VStr "1.0.0"); ("foo", VStr "bar"); ("baz", VStr "fee")]
     = Some (VStr "fee").
Proof.
  split; [reflexivity|].
  apply (update_lookup home_env "Project" BaseConfig
           [("version", VStr "1.0.0")] _ [("foo", VStr "bar")]
           [("baz", VStr "fee")] "baz").
  - repeat constructor; cbn; intuition discriminate.
  - repeat constructor; cbn; intuition discriminate.
  - reflexivity.
Defined.

Lemma set_attr_stops_at_bad_path_witness :
  convert_path home_env "path" (VInt 5) = Raise TypeError
  /\ set_attr home_env (Dynamic "Project" BaseConfig) []
       (VDict [("name", VStr "X"); ("path", VInt 5); ("version", VStr "1")])
       None
     = ([("name", VStr "X")], Raise TypeError).
Proof.
  split; [reflexivity|].
  apply (set_attr_stops_at_bad_path home_env (Dynamic "Project" BaseConfig)
           None [("name", VStr "X")] [("version", VStr "1")] "path" (VInt 5)
           [] [("name", VStr "X")] TypeError);
    reflexivity.
Defined.

Lemma add_cls_attr_node_witness :
  class_name_ok "tool" = true
  /\ plain_attrs BaseConfig [("name", VStr "make"); ("jobs", VInt 4)] = true
  /\ add_cls_attr home_env ConfigCls default_store "tool"
       [("name", VStr "make"); ("jobs", VInt 4)]
     = (default_store
          ++ [("tool", VNode (Dynamic "Tool" BaseConfig)
                         [("name", VStr "make"); ("jobs", VInt 4)])],
        Ok tt)%list.
Proof.
  split; [reflexivity|]. split; [reflexivity|].
  apply (proj1 (add_cls_attr_node home_env ConfigCls default_store "tool"
                  [("name", VStr "make"); ("jobs", VInt 4)]
                  eq_refl eq_refl eq_refl eq_refl eq_refl)).
Defined.

(** What [add_cls_attr] does outside these conditions: a namespace with a
    text under [__init__], a store whose attribute [update] is a number,
    and a name with a NUL character. *)
Example add_cls_attr_raises :
  add_cls_attr home_env ConfigCls default_store "tool" [("__init__", VStr "x")]
  = (default_store, Raise TypeError)
  /\ add_cls_attr home_env ConfigCls [("update", VInt 1)] "tool"
       [("name", VStr "make")]
     = ([("update", VInt 1)], Raise TypeError)
  /\ add_cls_attr home_env ConfigCls default_store (String "000" "tool")
       [("name", VStr "make")]
     = (default_store, Raise ValueError).
Proof. repeat split; reflexivity. Qed.

Lemma BaseObject_update_normalizes_witness :
  NoDup (keys [("type", VStr "Release"); ("path", VStr "~/p")])
  /\ exists x,
       dict_get "path" [("type", VStr "Release"); ("path", VStr "/home/u/p")]
       = Some x
       /\ (if has_path "path" then normalize home_env (VStr "~/p")
           else Ok (VStr "~/p")) = Ok x.
Proof.
  assert (H : NoDup (keys [("type", VStr "Release"); ("path", VStr "~/p")])).
  { repeat constructor; cbn; intuition discriminate. }
  split; [exact H|].
  apply (proj1 (BaseObject_update_normalizes home_env
                  [("type", VStr "Debug")]
                  [("type", VStr "Release"); ("path", VStr "/home/u/p")]
                  [("type", VStr "Release"); ("path", VStr "~/p")]
                  H (or_introl eq_refl)) "path" (VStr "~/p")).
  reflexivity.
Defined.

Lemma load_not_a_file_witness :
  is_file home_env home_disk (parse_path "missing.json") = false
  /\ load home_env sample_json sample_parse (VStr "missing.json")
       (mkworld default_store [home_of []])
     = (mkworld default_store home_disk, Raise FileNotFoundError).
Proof.
  split; [reflexivity|].
  apply (load_not_a_file home_env sample_json sample_parse
           (mkworld default_store [home_of []]) (VStr "missing.json")
           (parse_path "missing.json") "/home/u/.everynet/config" home_disk);
    reflexivity.
Defined.

(** A path through the directory that [load] makes: no file before the
    call, and the document is read. *)
Example load_through_new_directory :
  let doc := "/home/u/.everynet/../doc.json" in
  let w := mkworld default_store [home_of [("doc.json", TFile "{}")]] in
  is_file home_env (disk w) (parse_path doc) = false
  /\ load home_env sample_json sample_parse (VStr doc) w
     = (mkworld default_store
          [home_of [("doc.json", TFile "{}"); (".everynet", TDir [])]],
        Ok tt).
Proof. split; reflexivity. Qed.

Lemma load_json_top_level_witness :
  load home_env sample_json sample_parse (VStr "empty.json")
    (mkworld default_store json_disk)
  = (mkworld default_store json_disk, Ok tt)
  /\ load home_env sample_json sample_parse (VStr "list.json")
       (mkworld default_store json_disk)
     = (mkworld default_store json_disk, Raise AttributeError).
Proof.
  split.
  - apply (proj1 (load_json_top_level home_env sample_json sample_parse
                    (mkworld default_store json_disk) (VStr "empty.json")
                    (parse_path "empty.json") "/home/u/.everynet/config"
                    "{}" json_disk (VDict [])
                    eq_refl eq_refl eq_refl eq_refl eq_refl eq_refl)).
    reflexivity.
  - apply (proj2 (load_json_top_level home_env sample_json sample_parse
                    (mkworld default_store json_disk) (VStr "list.json")
                    (parse_path "list.json") "/home/u/.everynet/config"
                    "[1]" json_disk (VList [VInt 1])
                    eq_refl eq_refl eq_refl eq_refl eq_refl eq_refl)).
    intros d; discriminate.
Defined.

Lemma restore_key_not_a_file_witness :
  is_file home_env
    [home_of [(".everynet", TDir [("secret.key", TDir [])])]]
    (parse_path "/home/u/.everynet/secret.key") = false
  /\ restore home_env sample_json sample_load_key sample_decrypt
       (mkworld default_store
          [home_of [(".everynet", TDir [("secret.key", TDir [])])]])
     = (mkworld default_store
          [home_of [(".everynet", TDir [("secret.key", TDir [])])]], Ok tt).
Proof.
  split; [reflexivity|].
  apply (restore_key_not_a_file home_env sample_json sample_load_key
           sample_decrypt
           (mkworld default_store
              [home_of [(".everynet", TDir [("secret.key", TDir [])])]])
           "/home/u/.everynet/secret.key");
    reflexivity.
Defined.

Lemma Config_init_load_and_restore_witness :
  truthy (VStr "cfg.toml") = true
  /\ Config_init home_env sample_parse sample_parse sample_load_key
       sample_decrypt (VStr "cfg.toml") (VStr "~/.everynet/config")
       (VStr "~/.everynet/secret.key") true (mkworld [] toml_disk)
     = (mkworld default_store toml_disk, Raise ValueError).
Proof.
  split; [reflexivity|].
  apply (Config_init_load_and_restore home_env sample_parse sample_parse
           sample_load_key sample_decrypt (mkworld [] toml_disk)
           (VStr "cfg.toml") (VStr "~/.everynet/config")
           (VStr "~/.everynet/secret.key")
           (mkpath "/" ["home"; "u"; ".everynet"; "config"])
           (mkpath "/" ["home"; "u"; ".everynet"; "secret.key"]));
    reflexivity.
Defined.

(** The rows of a mapping with a nested mapping and a sequence. *)
Example list_generator_sample :
  list_generator
    (VDict [("project", VDict [("name", VStr "X")]);
            ("exclude", VList [VStr "build"; VDict [("dir", VStr "assets")]])])
    []
  = [[VStr "project"; VStr "name"; VStr "X"];
     [VStr "exclude"; VStr "build"];
     [VStr "exclude"; VStr "dir"; VStr "assets"]].
Proof. reflexivity. Qed.

Lemma list_generator_drops_empty_witness :
  list_generator
    (VDict [("name", VStr "X"); ("tags", VList []); ("n", VInt 1)]) []
  = [[VStr "name"; VStr "X"]; [VStr "n"; VInt 1]].
Proof.
  change (list_generator
            (VDict ([("name", VStr "X")] ++ ("tags", VList []) ::
                    [("n", VInt 1)])%list) []
          = [[VStr "name"; VStr "X"]; [VStr "n"; VInt 1]]).
  rewrite (proj1 (list_generator_drops_empty [("name", VStr "X")]
                    [("n", VInt 1)] "tags" (VList []) []
                    (or_intror eq_refl))).
  reflexivity.
Defined.

Lemma type_generator_raw_namespaces_witness :
  json_ok (VDict project_mapping) = true
  /\ constructible BaseConfig (VDict project_mapping) = true
  /\ exists types,
       type_generator BaseConfig project_mapping = Ok types
       /\ map cls_name types = ["Project"; "Build"; "Root"]
       /\ Forall (fun c => json_ok (VDict (cls_dict c)) = true /\
                           cls_base c = BaseConfig) types.
Proof.
  split; [reflexivity|]. split; [reflexivity|].
  destruct (type_generator_raw_namespaces BaseConfig project_mapping
              eq_refl eq_refl) as (types & init & Ht & _ & Hall).
  exists types. split; [exact Ht|]. split; [|exact Hall].
  injection Ht as <-. reflexivity.
Defined.

(** [type] refuses a name with a NUL character: [type_generator] raises
    [ValueError] and yields nothing. *)
Example type_generator_bad_name :
  type_generator BaseConfig
    [("a", VInt 1); (String "000" "b", VDict [("c", VInt 2)])]
  = Raise ValueError.
Proof. reflexivity. Qed.

Lemma prune_idempotent_witness :
  prune home_env
    (mkworld (default_store ++ [("build", VStr "Debug")])%list
       [home_of [(".everynet", TDir [("secret.key", TFile "3f9a");
                                      ("config", TFile "sealed")])]])
  = (mkworld (default_store ++ [("build", VStr "Debug");
                                ("_converted_", VDict [])])%list home_disk,
     Ok true)
  /\ prune home_env
       (mkworld (default_store ++ [("build", VStr "Debug");
                                   ("_converted_", VDict [])])%list home_disk)
     = (mkworld (default_store ++ [("build", VStr "Debug");
                                   ("_converted_", VDict [])])%list home_disk,
        Ok true).
Proof.
  split; [reflexivity|].
  apply (prune_idempotent home_env
           (mkworld (default_store ++ [("build", VStr "Debug")])%list
              [home_of [(".everynet", TDir [("secret.key", TFile "3f9a");
                                      ("config", TFile "sealed")])]])
           (mkworld (default_store ++ [("build", VStr "Debug");
                                       ("_converted_", VDict [])])%list
              home_disk)
           "/home/u/.everynet/config" "/home/u/.everynet/secret.key");
    reflexivity.
Defined.

Lemma save_unencodable_witness :
  json_ok (VOpaque "{1, 2}") = false
  /\ save home_env sample_str sample_load_key sample_text sample_encrypt
       sample_key sample_key_file (VStr "/tmp/other") VNone
       (mkworld (default_store ++ [("tags", VOpaque "{1, 2}")])%list home_disk)
     = (mkworld (default_store ++ [("tags", VOpaque "{1, 2}")])%list home_disk,
        Raise TypeError).
Proof.
  split; [reflexivity|].
  apply (save_unencodable home_env sample_str sample_load_key sample_text
           sample_encrypt sample_key sample_key_file
           (mkworld (default_store ++ [("tags", VOpaque "{1, 2}")])%list
              home_disk)
           (VStr "/tmp/other") VNone "tags" (VOpaque "{1, 2}"));
    reflexivity.
Defined.

Lemma save_needs_directory_witness :
  exists_ home_env [home_of []]
    (parse_path "/home/u/.everynet") = false
  /\ save home_env sample_str sample_load_key sample_text sample_encrypt
       sample_key sample_key_file VNone VNone
       (mkworld default_store [home_of []])
     = (mkworld default_store [home_of []], Raise FileNotFoundError).
Proof.
  split; [reflexivity|].
  apply (save_needs_directory home_env sample_str sample_load_key sample_text
           sample_encrypt sample_key sample_key_file
           (mkworld default_store [home_of []])
           "/home/u/.everynet/secret.key"
           (VDict [("key_path", VStr "/home/u/.everynet/secret.key");
                   ("save_path", VStr "/home/u/.everynet/config")]));
    reflexivity.
Defined.

(** With a regular file on the way to the key file the exception of
    [save] is [NotADirectoryError]. *)
Example save_below_a_file :
  let store := [("_save_path_", VPath "/home/u/.everynet/config");
                ("_key_path_", VPath "/home/u/file/sub/secret.key")] in
  let w := mkworld store [home_of [("file", TFile "text")]] in
  exists_ home_env (disk w) (parse_path "/home/u/file/sub") = false
  /\ save home_env sample_str sample_load_key sample_text sample_encrypt
       sample_key sample_key_file VNone VNone w
     = (w, Raise NotADirectoryError).
Proof. split; reflexivity. Qed.

Lemma save_then_decrypt_witness :
  save home_env sample_str sample_load_key sample_text sample_encrypt
    sample_key sample_key_file VNone VNone
    (mkworld default_store home_disk)
  = (mkworld default_store
       [home_of [(".everynet", TDir [("secret.key", TFile "3f9a");
                                      ("config", TFile "{...}")])]], Ok tt)
  /\ _decrypt home_env sample_load_key sample_decrypt VNone
       (mkworld default_store
          [home_of [(".everynet", TDir [("secret.key", TFile "3f9a");
                                      ("config", TFile "{...}")])]])
     = (mkworld default_store
          [home_of [(".everynet", TDir [("secret.key", TFile "3f9a");
                                      ("config", TFile "{...}")])]],
        Ok "{...}").
Proof.
  split; [reflexivity|].
  destruct (save_then_decrypt home_env sample_str sample_load_key
              sample_decrypt sample_text sample_encrypt sample_key
              sample_key_file (mkworld default_store home_disk)
              (mkworld default_store
                 [home_of [(".everynet", TDir [("secret.key", TFile "3f9a");
                                      ("config", TFile "{...}")])]])
              "/home/u/.everynet/config" "/home/u/.everynet/secret.key"
              eq_refl eq_refl ltac:(discriminate) (fun _ _ => eq_refl)
              eq_refl eq_refl)
    as (_ & _ & _ & x & Hx & Hd).
  injection Hx as <-. exact Hd.
Defined.

Lemma loads_top_level_witness :
  loads_hook BaseConfig (process home_env)
    (VDict [("path", VStr "~/p"); ("tool", VDict [("path", VStr "~/q")])])
  = Ok (VDict [("path", VStr "~/p");
               ("tool", VNode (Dynamic "Tool" BaseConfig)
                          [("path", VStr "/home/u/q")])]).
Proof.
  apply (proj1 (loads_top_level BaseConfig (process home_env)
                  [("path", VStr "~/p");
                   ("tool", VDict [("path", VStr "~/q")])] _
                  ltac:(cbn; repeat split; repeat constructor; cbn;
                        intuition discriminate)
                  eq_refl eq_refl)).
Defined.

Lemma load_sets_attributes_witness :
  exists attrs,
    load home_env sample_json project_parse (VStr "project.toml")
      (mkworld default_store project_disk)
    = (mkworld attrs project_disk, Ok tt)
    /\ getattr ConfigCls attrs "project"
       = Ok (VNode (Dynamic "Project" BaseConfig)
               [("name", VStr "X"); ("path", VStr "/home/u/p")])
    /\ getattr ConfigCls attrs "save_path"
       = Ok (VStr "/home/u/.everynet/config").
Proof.
  destruct (load_sets_attributes home_env sample_json project_parse
              (mkworld default_store project_disk) (VStr "project.toml")
              (parse_path "project.toml") "/home/u/.everynet/config"
              project_text project_disk project_mapping project_resolved
              eq_refl eq_refl eq_refl eq_refl
              (or_intror (conj eq_refl eq_refl))
              ltac:(discriminate) project_mapping_distinct eq_refl eq_refl
              eq_refl eq_refl
              ltac:(cbn; intuition discriminate)
              ltac:(cbn; intuition discriminate)
              eq_refl eq_refl)
    as (attrs & Hl & Hg & _ & Hk).
  exists attrs. split; [exact Hl|]. split.
  - exact (Hg "project" _ eq_refl).
  - unfold getattr. cbn [String.eqb Ascii.eqb Bool.eqb]. unfold path_property.
    rewrite (Hk "_save_path_"); [reflexivity| |reflexivity].
    cbn. intuition discriminate.
Defined.

Lemma restore_sets_attributes_witness :
  exists attrs,
    restore home_env stored_parse sample_load_key sample_decrypt
      (mkworld default_store stored_disk)
    = (mkworld attrs stored_disk, Ok tt)
    /\ getattr ConfigCls attrs "build" = Ok (VStr "Debug")
    /\ getattr ConfigCls attrs "project"
       = Ok (VNode (Dynamic "Project" BaseConfig)
               [("path", VStr "/home/u/p")])
    /\ getattr ConfigCls attrs "save_path"
       = Ok (VStr "/home/u/elsewhere/config").
Proof.
  assert (Hd : distinct_keys (VDict stored_mapping)).
  { cbn. repeat split; repeat constructor; cbn; intuition discriminate. }
  assert (Hall : Forall (fun kv =>
                   exists x y,
                     hook_entry BaseConfig (process home_env) (fst kv) (snd kv)
                     = Ok x /\
                     convert_path home_env (fst kv) x = Ok y) stored_mapping).
  { repeat (constructor; [do 2 eexists; split; reflexivity|]). constructor. }
  destruct (restore_sets_attributes home_env stored_parse sample_load_key
              sample_decrypt (mkworld default_store stored_disk)
              "/home/u/.everynet/config" "/home/u/.everynet/secret.key"
              stored_text stored_mapping
              eq_refl eq_refl eq_refl eq_refl eq_refl eq_refl eq_refl Hd
              eq_refl
              ltac:(repeat constructor)
              Hall)
    as (attrs & Hr & Hg & Hsp & _).
  exists attrs. split; [exact Hr|]. split; [|split].
  - destruct (Hg "build" (VStr "Debug") eq_refl eq_refl) as (x & Hx & Hgx).
    cbn in Hx. injection Hx as <-. exact Hgx.
  - destruct (Hg "project" (VDict [("path", VStr "~/p")]) eq_refl eq_refl)
      as (x & Hx & Hgx).
    cbn in Hx. injection Hx as <-. exact Hgx.
  - rewrite (Hsp (VStr "~/elsewhere/config") eq_refl).
    + reflexivity.
    + cbn. intuition discriminate.
Defined.
